(** * AI Smart Commenter: the bulk pipeline of [src/App.tsx] and the
      Blog Finder of [src/services/geminiService.ts]

    A shallow embedding of the target import/export, of the bulk runner
    [startBulk], of [searchBlogs] and of the handlers around them, with the
    properties of the specification settled against it and further
    properties read off the code.

    Conventions.
    - A JavaScript string is the list of its UTF-16 code units.
    - A JavaScript number that holds a count or an index is a [Z]; the one
      computation that leaves the integers, [Math.round(((i + 1) / N) * 100)],
      is carried out in IEEE-754 binary64 with the operations of the
      standard library's [SpecFloat].
    - [Math.random()] and [Date.now()] are oracles: the n-th call returns
      the n-th value of a given sequence.
    - A file is the list of its bytes; the text of a file is encoded and
      decoded as the File API and the Encoding standard have it. *)

From Stdlib Require Import ZArith NArith List Bool Lia String Ascii.
From Stdlib Require Import SpecFloat.
From Stdlib Require Import DecimalString.
Import ListNotations.

Local Open Scope Z_scope.

(* ===================================================================== *)
(** ** JavaScript strings *)
(* ===================================================================== *)

Module JsString.

(** A string is a sequence of UTF-16 code units. *)
Definition jsstring := list N.

(** A literal of the source, code unit by code unit (the literals of the
    source are ASCII). *)
Definition lit (s : string) : jsstring :=
  List.map N_of_ascii (list_ascii_of_string s).

Definition pipe : N := 124%N.      (* '|' *)
Definition newline : N := 10%N.    (* '\n' *)

(** Truthiness of a string value: only the empty string is falsy. *)
Definition truthy (s : jsstring) : bool :=
  match s with [] => false | _ :: _ => true end.

(** [a || b] on strings where [a] may be [undefined]. *)
Definition or_else (a : option jsstring) (b : jsstring) : jsstring :=
  match a with
  | Some s => if truthy s then s else b
  | None => b
  end.

(** [s.split(sep)] for a one-unit separator: the segments between the
    separators, [[""]] for the empty string. *)
Fixpoint split (sep : N) (s : jsstring) : list jsstring :=
  match s with
  | [] => [[]]
  | c :: s' =>
      if N.eqb c sep then [] :: split sep s'
      else match split sep s' with
           | seg :: segs => (c :: seg) :: segs
           | [] => [[c]]
           end
  end.

(** [parts.join(sep)] for a one-unit separator. *)
Fixpoint join (sep : N) (parts : list jsstring) : jsstring :=
  match parts with
  | [] => []
  | [p] => p
  | p :: ps => p ++ sep :: join sep ps
  end.

(** WhiteSpace and LineTerminator code points of ECMAScript, the ones
    [String.prototype.trim] strips. *)
Definition is_ws (c : N) : bool :=
  ((9 <=? c) && (c <=? 13) || (c =? 32) || (c =? 160) || (c =? 5760)
   || (8192 <=? c) && (c <=? 8202) || (c =? 8232) || (c =? 8233)
   || (c =? 8239) || (c =? 8287) || (c =? 12288) || (c =? 65279))%N.

Fixpoint trim_start (s : jsstring) : jsstring :=
  match s with
  | [] => []
  | c :: s' => if is_ws c then trim_start s' else s
  end.

Definition trim (s : jsstring) : jsstring :=
  rev (trim_start (rev (trim_start s))).

(** [s.includes(sub)] *)
Fixpoint starts_with (sub s : jsstring) : bool :=
  match sub, s with
  | [], _ => true
  | _ :: _, [] => false
  | a :: sub', b :: s' => N.eqb a b && starts_with sub' s'
  end.

Fixpoint includes (sub s : jsstring) : bool :=
  starts_with sub s ||
  match s with
  | [] => false
  | _ :: s' => includes sub s'
  end.

(** Decimal rendering of a length inside a template literal. *)
Definition decimal (n : nat) : jsstring :=
  lit (NilEmpty.string_of_uint (Nat.to_uint n)).

End JsString.
Import JsString.

(* ===================================================================== *)
(** ** JavaScript numbers *)
(* ===================================================================== *)

Module JsNumber.

(** binary64 *)
Definition prec : Z := 53.
Definition emax : Z := 1024.

Definition number := spec_float.

(** The number denoted by an integer (a literal, a length, a counter). *)
Definition of_int (z : Z) : number := binary_normalize prec emax z 0 false.

Definition div (x y : number) : number := SFdiv prec emax x y.
Definition mul (x y : number) : number := SFmul prec emax x y.

(** [x > y] *)
Definition gt (x y : number) : bool := SFltb y x.

(** [x <= y] *)
Definition le (x y : number) : bool := SFleb x y.

(** The literal [0.1]: the double 0x1.999999999999ap-4. *)
Definition lit_0_1 : number := S754_finite false 7205759403792794 (-56).

(** [Math.round(x)]: the integer nearest to [x], a tie going towards
    plus infinity; [floor(x + 1/2)] taken exactly. A value with a
    non-negative exponent is an integer already; a result that is zero
    keeps the sign of [x]; NaN and the infinities are returned as they
    are. *)
Definition Math_round (x : number) : number :=
  match x with
  | S754_finite s m e =>
      if 0 <=? e then x
      else
        let z := (2 * cond_Zopp s (Zpos m) + 2 ^ (- e)) / 2 ^ (- e + 1) in
        if z =? 0 then S754_zero s else of_int z
  | _ => x
  end.

End JsNumber.
Import JsNumber.

(* ===================================================================== *)
(** ** Data model *)
(* ===================================================================== *)

(** [interface BlogResult { title: string; url: string }] *)
Record BlogResult := mkBlog { title : jsstring; url : jsstring }.

Inductive Status := success_st | fail_st.

(** [interface LogEntry] *)
Record LogEntry := mkLog {
  log_id : jsstring;
  log_url : jsstring;
  log_status : Status;
  log_message : jsstring;
  log_timestamp : Z
}.

(** The pieces of the component state of [App] that the import, the export
    and the bulk runner read or write. *)
Record AppState := mkApp {
  error : option jsstring;
  success : option jsstring;
  searchResults : list BlogResult;
  generatedCommentText : jsstring;
  bulkTargets : list BlogResult;
  isBulking : bool;
  logs : list LogEntry;
  progress : number
}.

Definition set_error (e : option jsstring) (st : AppState) : AppState :=
  mkApp e (success st) (searchResults st) (generatedCommentText st)
        (bulkTargets st) (isBulking st) (logs st) (progress st).

Definition set_success (s : option jsstring) (st : AppState) : AppState :=
  mkApp (error st) s (searchResults st) (generatedCommentText st)
        (bulkTargets st) (isBulking st) (logs st) (progress st).

Definition set_bulkTargets (l : list BlogResult) (st : AppState) : AppState :=
  mkApp (error st) (success st) (searchResults st) (generatedCommentText st)
        l (isBulking st) (logs st) (progress st).

Definition set_isBulking (b : bool) (st : AppState) : AppState :=
  mkApp (error st) (success st) (searchResults st) (generatedCommentText st)
        (bulkTargets st) b (logs st) (progress st).

Definition set_logs (l : list LogEntry) (st : AppState) : AppState :=
  mkApp (error st) (success st) (searchResults st) (generatedCommentText st)
        (bulkTargets st) (isBulking st) l (progress st).

Definition set_progress (p : number) (st : AppState) : AppState :=
  mkApp (error st) (success st) (searchResults st) (generatedCommentText st)
        (bulkTargets st) (isBulking st) (logs st) p.

(* ===================================================================== *)
(** ** Target list: export and import *)
(* ===================================================================== *)

(** The placeholder title of [handleFileUpload]. *)
Definition default_title : jsstring := lit "Postingan Blog".

(** One record of the export: [`${r.title}|${r.url}`]. *)
Definition export_line (r : BlogResult) : jsstring :=
  title r ++ pipe :: url r.

(** [searchResults.map(r => `${r.title}|${r.url}`).join('\n')] *)
Definition export_content (found : list BlogResult) : jsstring :=
  join newline (List.map export_line found).

(** [exportToTxt]: the content of the downloaded file, [None] when the
    function returns early and nothing is downloaded. *)
Definition exportToTxt (st : AppState) : option jsstring :=
  match searchResults st with
  | [] => None
  | _ :: _ => Some (export_content (searchResults st))
  end.

(** The body of [lines.map(line => ...)]:
    [const [title, url] = line.split('|');
     return { title: title || 'Postingan Blog', url: url || line }]. *)
Definition parse_line (line : jsstring) : BlogResult :=
  let parts := split pipe line in
  mkBlog (or_else (nth_error parts 0) default_title)
         (or_else (nth_error parts 1) line).

(** [text.split('\n').filter(l => l.trim())] *)
Definition import_lines (text : jsstring) : list jsstring :=
  filter (fun l => truthy (trim l)) (split newline text).

(** The list [imported] of [reader.onload]. *)
Definition import_text (text : jsstring) : list BlogResult :=
  List.map parse_line (import_lines text).

(** [reader.onload]: the targets are replaced and the upload is reported
    (the message is cleared three seconds later, which is left out). *)
Definition handleFileUpload (text : jsstring) (st : AppState) : AppState :=
  let imported := import_text text in
  set_success
    (Some (lit "Berhasil mengunggah " ++ decimal (List.length imported) ++ lit " blog."))
    (set_bulkTargets imported st).

(* ===================================================================== *)
(** ** The bulk runner *)
(* ===================================================================== *)

(** The messages passed to [setError] by [startBulk]; they are the
    error kinds [EmptyTargetList] and [MissingComment]. *)
Definition EmptyTargetList : jsstring := lit "Daftar target kosong.".
Definition MissingComment : jsstring := lit "Teks komentar belum diatur di Tab 2.".

Definition msg_success : jsstring := lit "Komentar berhasil disiapkan (Siap Paste)".
Definition msg_fail : jsstring := lit "Gagal mengakses kolom komentar".

(** What the run takes from outside: the values returned by the successive
    calls of [Math.random()] and of [Date.now()], and the rendering
    [x.toString(36)] of a number. *)
Record Env := mkEnv {
  Math_random : nat -> number;
  Date_now : nat -> Z;
  toString36 : number -> jsstring
}.

(** One step of the run as the consumer sees it: the entry handed to
    [setLogs] and the value handed to [setProgress]. *)
Record RunEvent := mkEvent { ev_entry : LogEntry; ev_progress : number }.

(** A run in progress: the component state, how many oracle calls were
    made, how many times the run was suspended, and the events so far,
    oldest first. *)
Record Run := mkRun {
  app : AppState;
  rand_calls : nat;
  now_calls : nat;
  delays : list Z;
  emitted : list RunEvent
}.

(** No work done. *)
Definition idle (st : AppState) : Run := mkRun st 0 0 [] [].

Definition with_app (st : AppState) (r : Run) : Run :=
  mkRun st (rand_calls r) (now_calls r) (delays r) (emitted r).

(** [Math.round(((i + 1) / bulkTargets.length) * 100)] *)
Definition progress_after (i N : Z) : number :=
  Math_round (mul (div (of_int (i + 1)) (of_int N)) (of_int 100)).

(** [Math.random() > 0.1] *)
Definition draw_success (x : number) : bool := gt x lit_0_1.

(** What one pass of the [for] loop hands to [setLogs] and [setProgress],
    at index [i], for [target = bulkTargets[i]] and [N = bulkTargets.length],
    when [c] calls of [Math.random()] and [n] calls of [Date.now()] were
    made before: [isSuccess] takes the next draw, the id the one after. *)
Definition iteration_event (env : Env) (N i : Z) (target : BlogResult) (c n : nat)
    : RunEvent :=
  let isSuccess := draw_success (Math_random env c) in
  let newLog :=
    mkLog (skipn 7 (toString36 env (Math_random env (S c))))
          (url target)
          (if isSuccess then success_st else fail_st)
          (if isSuccess then msg_success else msg_fail)
          (Date_now env n) in
  mkEvent newLog (progress_after i N).

(** The body of the [for] loop: the suspension of 800 ms, then
    [setLogs(prev => [newLog, ...prev])] and [setProgress(...)]. *)
Definition bulk_iteration (env : Env) (N i : Z) (target : BlogResult) (r : Run) : Run :=
  let ev := iteration_event env N i target (rand_calls r) (now_calls r) in
  let st := app r in
  mkRun (set_progress (ev_progress ev) (set_logs (ev_entry ev :: logs st) st))
        (S (S (rand_calls r)))
        (S (now_calls r))
        (delays r ++ [800])
        (emitted r ++ [ev]).

(** [for (let i = ...; i < bulkTargets.length; i++)] from index [i] on,
    [rest] being the targets at the indices [i], [i + 1], ... *)
Fixpoint bulk_loop (env : Env) (N : Z) (rest : list BlogResult) (i : Z) (r : Run) : Run :=
  match rest with
  | [] => r
  | target :: rest' => bulk_loop env N rest' (i + 1) (bulk_iteration env N i target r)
  end.

(** [startBulk], run to completion. *)
Definition startBulk (env : Env) (st : AppState) : Run :=
  let N := Z.of_nat (List.length (bulkTargets st)) in
  if N =? 0 then idle (set_error (Some EmptyTargetList) st)
  else if negb (truthy (generatedCommentText st)) then
    idle (set_error (Some MissingComment) st)
  else
    let st1 := set_progress (of_int 0) (set_logs [] (set_isBulking true st)) in
    let r := bulk_loop env N (bulkTargets st) 0 (idle st1) in
    with_app (set_isBulking false (app r)) r.

(** The button that calls [startBulk]:
    [disabled={isBulking || bulkTargets.length === 0}]. *)
Definition start_disabled (st : AppState) : bool :=
  isBulking st || (Z.of_nat (List.length (bulkTargets st)) =? 0).

(** A click on that button: a disabled button does not call its handler. *)
Definition click_start (env : Env) (st : AppState) : Run :=
  if start_disabled st then idle st else startBulk env st.

(** The progress values of a run, in the order they were set. *)
Definition progress_values (r : Run) : list number :=
  List.map ev_progress (emitted r).

(* ===================================================================== *)
(** ** The Blog Finder *)
(* ===================================================================== *)

(** [chunk.web], with its optional [title] and [uri]. *)
Record Web := mkWeb { web_title : option jsstring; web_uri : option jsstring }.
Record Chunk := mkChunk { web : option Web }.

(** The part of the service's answer that [searchBlogs] reads:
    [response.text] and
    [response.candidates?.[0]?.groundingMetadata?.groundingChunks]. *)
Record Response := mkResponse {
  response_text : option jsstring;
  groundingChunks : option (list Chunk)
}.

Record SearchOutcome := mkOutcome {
  out_text : option jsstring;
  results : list BlogResult
}.

Definition is_digit (c : N) : bool := ((48 <=? c) && (c <=? 57))%N.
Definition slash : N := 47%N.

(** A match of [/\/\d{4}\/\d{2}\//] at the start of [s]. *)
Definition date_segment_here (s : jsstring) : bool :=
  match s with
  | a :: y1 :: y2 :: y3 :: y4 :: b :: m1 :: m2 :: c :: _ =>
      (a =? slash)%N && is_digit y1 && is_digit y2 && is_digit y3 && is_digit y4
      && (b =? slash)%N && is_digit m1 && is_digit m2 && (c =? slash)%N
  | _ => false
  end.

(** [/\/\d{4}\/\d{2}\//.test(s)] *)
Fixpoint has_date_segment (s : jsstring) : bool :=
  date_segment_here s ||
  match s with
  | [] => false
  | _ :: s' => has_date_segment s'
  end.

(** The filter of [searchBlogs]. *)
Definition article_like (item : BlogResult) : bool :=
  includes (lit ".html") (url item) || has_date_segment (url item).

(** [arr.slice(0, count)] for an integer [count]: a negative [count]
    counts from the end. *)
Definition slice0 {A} (count : Z) (l : list A) : list A :=
  let len := Z.of_nat (List.length l) in
  let k := if count <? 0 then Z.max (len + count) 0 else Z.min count len in
  firstn (Z.to_nat k) l.

Definition chunk_result (c : Chunk) : BlogResult :=
  mkBlog (or_else (match web c with Some w => web_title w | None => None end)
                  (lit "Judul Artikel"))
         (or_else (match web c with Some w => web_uri w | None => None end) []).

(** The first line of the prompt; [render] is the conversion of [count]
    to a string inside the template literal. The lines that follow it in
    the prompt are the same for every call and are left out. *)
Definition search_query (render : Z -> jsstring) (keyword : jsstring) (count : Z) : jsstring :=
  if truthy keyword then
    lit "Cari " ++ render count
    ++ lit " URL artikel/postingan blog spesifik (bukan homepage) yang relevan dengan: "
    ++ [34%N] ++ keyword ++ [34%N] ++ lit "."
  else
    lit "Cari " ++ render count
    ++ lit " URL artikel blog terbaru secara acak dari berbagai topik (lifestyle, tech, personal).".

(** [searchBlogs(keyword, count)], the service [generateContent] taking the
    query and giving the response. *)
Definition searchBlogs (render : Z -> jsstring) (generateContent : jsstring -> Response)
    (keyword : jsstring) (count : Z) : SearchOutcome :=
  let response := generateContent (search_query render keyword count) in
  mkOutcome (response_text response)
    (match groundingChunks response with
     | Some chunks => slice0 count (filter article_like (List.map chunk_result chunks))
     | None => []
     end).

(* ===================================================================== *)
(** ** The other handlers of [App] *)
(* ===================================================================== *)

Definition set_searchResults (l : list BlogResult) (st : AppState) : AppState :=
  mkApp (error st) (success st) l (generatedCommentText st)
        (bulkTargets st) (isBulking st) (logs st) (progress st).

Definition set_generatedCommentText (c : jsstring) (st : AppState) : AppState :=
  mkApp (error st) (success st) (searchResults st) c
        (bulkTargets st) (isBulking st) (logs st) (progress st).

Definition msg_search_first : jsstring := lit "Cari blog terlebih dahulu di Tab 1.".
Definition msg_none_found : jsstring := lit "Tidak ada blog yang ditemukan.".
Definition msg_search_failed : jsstring := lit "Gagal mencari blog.".
Definition msg_fill_first : jsstring :=
  lit "Harap isi URL target dan kata kunci terlebih dahulu.".
Definition msg_generate_failed : jsstring := lit "Gagal menghasilkan teks komentar.".

(** [importFromFinder]: the search results become the targets (the success
    message is cleared three seconds later, which is left out). *)
Definition importFromFinder (st : AppState) : AppState :=
  if Z.of_nat (List.length (searchResults st)) =? 0 then
    set_error (Some msg_search_first) st
  else
    set_success
      (Some (lit "Berhasil mengimpor " ++ decimal (List.length (searchResults st))
             ++ lit " blog."))
      (set_bulkTargets (searchResults st) st).

(** The state of the search form. *)
Record FinderForm := mkFinder {
  searchKeyword : jsstring;
  searchCount : Z;
  isSearching : bool
}.

(** [await searchBlogs(keyword, count)] with a service that may fail:
    [None] is a rejected call, which [searchBlogs] does not catch. *)
Definition searchBlogs_call (render : Z -> jsstring)
    (service : jsstring -> option Response) (keyword : jsstring) (count : Z)
    : option SearchOutcome :=
  match service (search_query render keyword count) with
  | Some response => Some (searchBlogs render (fun _ => response) keyword count)
  | None => None
  end.

(** [handleSearch], run to completion: [setIsSearching(true)],
    [setError(null)], the [try] with its [catch], and the [finally]. *)
Definition handleSearch (render : Z -> jsstring)
    (service : jsstring -> option Response)
    (form : FinderForm) (st : AppState) : FinderForm * AppState :=
  let st0 := set_error None st in
  let st1 :=
    match searchBlogs_call render service (searchKeyword form) (searchCount form) with
    | Some out =>
        let st' := set_searchResults (results out) st0 in
        if Z.of_nat (List.length (results out)) =? 0
        then set_error (Some msg_none_found) st'
        else st'
    | None => set_error (Some msg_search_failed) st0
    end in
  (mkFinder (searchKeyword form) (searchCount form) false, st1).

(** The state of the settings form that [handleGenerateCommentText] uses. *)
Record SettingsForm := mkSettings {
  targetUrl : jsstring;
  keywords : jsstring;
  isGeneratingComment : bool
}.

Definition quote : N := 34%N.
Definition indent : jsstring := lit "    ".

(** The fixed parts of the [contents] of [generateComment]: the first
    line, the lines from the blank one to the start of the link, and the
    end. *)
Definition prompt_intro : jsstring :=
  lit "Buatlah sebuah komentar blog yang menarik dan relevan dalam Bahasa Indonesia."
  ++ newline :: indent.

Definition prompt_tasks : jsstring :=
  newline :: indent
  ++ newline :: indent ++ lit "Tugas Anda:"
  ++ newline :: indent ++ lit "1. Buat komentar singkat (2-3 kalimat)."
  ++ newline :: indent
  ++ lit "2. Pastikan salah satu kata kunci dari daftar di atas muncul dalam teks."
  ++ newline :: indent
  ++ lit "3. Bungkus kata kunci tersebut dengan tag HTML link ke: ".

Definition prompt_rule4 : jsstring :=
  lit "." ++ newline :: indent
  ++ lit "4. Komentar harus terlihat alami dan tidak seperti spam.".

(** The [contents] of [generateComment]: the template literal with
    [keywords], [tone] and, twice, [backlinkUrl] in their places. *)
Definition comment_prompt (kw backlinkUrl tone : jsstring) : jsstring :=
  prompt_intro ++ lit "Kata Kunci: " ++ kw
  ++ newline :: indent ++ lit "Nada: " ++ tone
  ++ prompt_tasks ++ backlinkUrl
  ++ lit ". Contoh: " ++ lit "<a href=" ++ quote :: backlinkUrl ++ quote
  :: lit ">kata kunci</a>" ++ prompt_rule4.

(** The default of the parameter [tone]. *)
Definition default_tone : jsstring := lit "santai".

(** [generateComment(keywords, backlinkUrl, tone)]: the service takes the
    prompt and gives [response.text], which may be [undefined]; [None] is
    a rejected call. *)
Definition generateComment (ai : jsstring -> option (option jsstring))
    (kw backlinkUrl tone : jsstring) : option (option jsstring) :=
  ai (comment_prompt kw backlinkUrl tone).

(** [handleGenerateCommentText], run to completion. *)
Definition handleGenerateCommentText (ai : jsstring -> option (option jsstring))
    (form : SettingsForm) (st : AppState) : SettingsForm * AppState :=
  if negb (truthy (targetUrl form)) || negb (truthy (keywords form)) then
    (form, set_error (Some msg_fill_first) st)
  else
    let st0 := set_error None st in
    let st1 :=
      match generateComment ai (keywords form) (targetUrl form) default_tone with
      | Some result => set_generatedCommentText (or_else result []) st0
      | None => set_error (Some msg_generate_failed) st0
      end in
    (mkSettings (targetUrl form) (keywords form) false, st1).

(* ===================================================================== *)
(** ** The file between the export and the import *)
(* ===================================================================== *)

(** [exportToTxt] hands its text to [new Blob([content], ...)] and the
    browser saves the bytes of that blob; [handleFileUpload] reads the
    bytes of the chosen file with [reader.readAsText(file)]. A file is the
    list of its bytes. The blob holds the UTF-8 encoding of the text, taken
    as a scalar value string; the reader decodes with UTF-8 as the fallback
    encoding, after a look at the byte order mark. Both follow the File API
    and the Encoding standard. *)
Module Encoding.

Definition replacement : N := 0xFFFD.
Definition byte_order_mark : N := 0xFEFF.

Definition is_lead_surrogate (c : N) : bool := (0xD800 <=? c)%N && (c <=? 0xDBFF)%N.
Definition is_trail_surrogate (c : N) : bool := (0xDC00 <=? c)%N && (c <=? 0xDFFF)%N.

(** A string as a scalar value string: a lead surrogate and the trail
    surrogate after it are one code point, every other surrogate is
    replaced by U+FFFD. *)
Fixpoint scalar_values (s : jsstring) : list N :=
  match s with
  | [] => []
  | c :: rest =>
      if is_lead_surrogate c then
        match rest with
        | d :: rest' =>
            if is_trail_surrogate d
            then (0x10000 + N.shiftl (c - 0xD800) 10 + (d - 0xDC00))%N :: scalar_values rest'
            else replacement :: scalar_values rest
        | [] => [replacement]
        end
      else if is_trail_surrogate c then replacement :: scalar_values rest
      else c :: scalar_values rest
  end.

(** The UTF-8 encoder, one code point at a time. *)
Definition utf8_bytes (cp : N) : list N :=
  if (cp <=? 0x7F)%N then [cp]
  else if (cp <=? 0x7FF)%N then
    [ (N.shiftr cp 6 + 0xC0)%N;
      N.lor 0x80 (N.land cp 0x3F) ]
  else if (cp <=? 0xFFFF)%N then
    [ (N.shiftr cp 12 + 0xE0)%N;
      N.lor 0x80 (N.land (N.shiftr cp 6) 0x3F);
      N.lor 0x80 (N.land cp 0x3F) ]
  else
    [ (N.shiftr cp 18 + 0xF0)%N;
      N.lor 0x80 (N.land (N.shiftr cp 12) 0x3F);
      N.lor 0x80 (N.land (N.shiftr cp 6) 0x3F);
      N.lor 0x80 (N.land cp 0x3F) ].

Definition utf8_encode (cps : list N) : list N := flat_map utf8_bytes cps.

(** The state of the UTF-8 decoder. *)
Record Utf8State := mkUtf8 {
  code_point : N;
  bytes_seen : N;
  bytes_needed : N;
  lower_boundary : N;
  upper_boundary : N
}.

Definition utf8_initial : Utf8State := mkUtf8 0 0 0 0x80 0xBF.

(** The decoder on a byte when no byte is needed: what it emits and the
    state it is left in. *)
Definition utf8_lead (byte : N) : list N * Utf8State :=
  if (byte <=? 0x7F)%N then ([byte], utf8_initial)
  else if (0xC2 <=? byte)%N && (byte <=? 0xDF)%N then
    ([], mkUtf8 (N.land byte 0x1F) 0 1 0x80 0xBF)
  else if (0xE0 <=? byte)%N && (byte <=? 0xEF)%N then
    ([], mkUtf8 (N.land byte 0xF) 0 2
           (if (byte =? 0xE0)%N then 0xA0 else 0x80)
           (if (byte =? 0xED)%N then 0x9F else 0xBF))
  else if (0xF0 <=? byte)%N && (byte <=? 0xF4)%N then
    ([], mkUtf8 (N.land byte 0x7) 0 3
           (if (byte =? 0xF0)%N then 0x90 else 0x80)
           (if (byte =? 0xF4)%N then 0x8F else 0xBF))
  else ([replacement], utf8_initial).

(** The decoder on a byte. A byte outside the boundaries is an error and
    is read again with the state reset; an error emits U+FFFD. *)
Definition utf8_handler (st : Utf8State) (byte : N) : list N * Utf8State :=
  if (bytes_needed st =? 0)%N then utf8_lead byte
  else if negb ((lower_boundary st <=? byte)%N && (byte <=? upper_boundary st)%N) then
    let (out, st') := utf8_lead byte in (replacement :: out, st')
  else
    let cp := N.lor (N.shiftl (code_point st) 6) (N.land byte 0x3F) in
    let seen := (bytes_seen st + 1)%N in
    if (seen =? bytes_needed st)%N then ([cp], utf8_initial)
    else ([], mkUtf8 cp seen (bytes_needed st) 0x80 0xBF).

(** The decoder on the bytes of a file; at the end of the file a code
    point that is not complete is an error. *)
Fixpoint utf8_decode (st : Utf8State) (bytes : list N) : list N :=
  match bytes with
  | [] => if (bytes_needed st =? 0)%N then [] else [replacement]
  | byte :: rest =>
      let (out, st') := utf8_handler st byte in out ++ utf8_decode st' rest
  end.

(** What the UTF-16 decoder does with a code unit when no lead surrogate
    is kept: what it emits and the lead surrogate it keeps. *)
Definition utf16_unit (unit : N) : list N * option N :=
  if is_lead_surrogate unit then ([], Some unit)
  else if is_trail_surrogate unit then ([replacement], None)
  else ([unit], None).

(** The UTF-16 decoder, big endian or little endian, with the byte and
    the lead surrogate it keeps. A code unit that does not complete the
    lead surrogate is an error and is read again. *)
Fixpoint utf16_decode (big_endian : bool) (lead_byte lead_surrogate : option N)
    (bytes : list N) : list N :=
  match bytes with
  | [] =>
      match lead_byte, lead_surrogate with
      | None, None => []
      | _, _ => [replacement]
      end
  | byte :: rest =>
      match lead_byte with
      | None => utf16_decode big_endian (Some byte) lead_surrogate rest
      | Some lead =>
          let unit :=
            if big_endian then (N.shiftl lead 8 + byte)%N
            else (N.shiftl byte 8 + lead)%N in
          match lead_surrogate with
          | Some surrogate =>
              if is_trail_surrogate unit then
                (0x10000 + N.shiftl (surrogate - 0xD800) 10 + (unit - 0xDC00))%N
                :: utf16_decode big_endian None None rest
              else
                let (out, keep) := utf16_unit unit in
                replacement :: out ++ utf16_decode big_endian None keep rest
          | None =>
              let (out, keep) := utf16_unit unit in
              out ++ utf16_decode big_endian None keep rest
          end
      end
  end.

Inductive encoding := UTF_8 | UTF_16BE | UTF_16LE.

(** The byte order mark at the start of a file, if there is one. *)
Definition BOM_sniff (bytes : list N) : option encoding :=
  match bytes with
  | b1 :: b2 :: rest =>
      if (b1 =? 0xEF)%N && (b2 =? 0xBB)%N
         && match rest with b3 :: _ => (b3 =? 0xBF)%N | [] => false end
      then Some UTF_8
      else if (b1 =? 0xFE)%N && (b2 =? 0xFF)%N then Some UTF_16BE
      else if (b1 =? 0xFF)%N && (b2 =? 0xFE)%N then Some UTF_16LE
      else None
  | _ => None
  end.

(** Decoding with UTF-8 as the fallback encoding: a byte order mark
    decides the encoding and is not part of the text. *)
Definition decode (bytes : list N) : list N :=
  match BOM_sniff bytes with
  | Some UTF_8 => utf8_decode utf8_initial (skipn 3 bytes)
  | Some UTF_16BE => utf16_decode true None None (skipn 2 bytes)
  | Some UTF_16LE => utf16_decode false None None (skipn 2 bytes)
  | None => utf8_decode utf8_initial bytes
  end.

(** The code units of a code point in a JavaScript string. *)
Definition code_units (cp : N) : jsstring :=
  if (cp <? 0x10000)%N then [cp]
  else [ (0xD800 + N.shiftr (cp - 0x10000) 10)%N;
         (0xDC00 + N.land (cp - 0x10000) 0x3FF)%N ].

End Encoding.
Import Encoding.

(** [new Blob(blobParts)] for parts that are strings, with the line
    endings left as they are: the bytes of the blob. *)
Definition Blob (blobParts : list jsstring) : list N :=
  flat_map (fun part => utf8_encode (scalar_values part)) blobParts.

(** [reader.readAsText(file)] for a file that names no character set:
    the string handed to [reader.onload]. *)
Definition readAsText (file : list N) : jsstring :=
  flat_map code_units (decode file).

(** [exportToTxt], up to the file the browser saves: its bytes, [None]
    when nothing is downloaded. *)
Definition downloaded_file (st : AppState) : option (list N) :=
  match exportToTxt st with
  | Some content => Some (Blob [content])
  | None => None
  end.

(** [handleFileUpload] on the files chosen in the input: nothing happens
    without a file, and the first file is read otherwise. *)
Definition upload_files (files : list (list N)) (st : AppState) : AppState :=
  match files with
  | [] => st
  | file :: _ => handleFileUpload (readAsText file) st
  end.

(* ===================================================================== *)
(** ** Vocabulary of the statements *)
(* ===================================================================== *)

(** *** The line format *)

(** A field that survives the line format: not empty, and free of the two
    delimiters. *)
Definition plain (s : jsstring) : Prop :=
  s <> [] /\ ~ In pipe s /\ ~ In newline s.

Definition plain_target (r : BlogResult) : Prop :=
  plain (title r) /\ plain (url r).

(** The text of [line] up to its first pipe, and what follows that pipe. *)
Fixpoint before_pipe (line : jsstring) : jsstring :=
  match line with
  | [] => []
  | c :: s => if N.eqb c pipe then [] else c :: before_pipe s
  end.

Fixpoint after_pipe (line : jsstring) : jsstring :=
  match line with
  | [] => []
  | c :: s => if N.eqb c pipe then s else after_pipe s
  end.

(** *** The run *)

(** The largest length of an array. *)
Definition max_length : Z := 2 ^ 32 - 1.

(** The events of the passes over [rest], the first of them at index [i]
    after [c] and [n] oracle calls. *)
Fixpoint events_from (env : Env) (N : Z) (rest : list BlogResult) (i : Z) (c n : nat)
    : list RunEvent :=
  match rest with
  | [] => []
  | target :: rest' =>
      iteration_event env N i target c n
      :: events_from env N rest' (i + 1) (S (S c)) (S n)
  end.

(** The two state updates of one pass. *)
Definition apply_event (st : AppState) (ev : RunEvent) : AppState :=
  set_progress (ev_progress ev) (set_logs (ev_entry ev :: logs st) st).

(** A sequence of numbers that never goes down. *)
Fixpoint non_decreasing (l : list number) : Prop :=
  match l with
  | [] => True
  | x :: l' =>
      match l' with
      | [] => True
      | y :: _ => le x y = true
      end /\ non_decreasing l'
  end.

(** The progress after the pass at index [i] is below 100. *)
Definition below_hundred (i N : Z) : bool := gt (of_int 100) (progress_after i N).

(** No pass before the last one of [N] reaches 100. *)
Definition hundred_only_last (N : nat) : bool :=
  forallb (fun i => below_hundred (Z.of_nat i) (Z.of_nat N)) (seq 0 (N - 1)).

(** The value of a finite number, times 2^1074: an integer for every
    binary64 number, whose exponent is at least -1074. *)
Definition scaled_value (m : positive) (e : Z) : Z := Zpos m * 2 ^ (e + 1074).

(** *** The Blog Finder *)

(** The candidates of an answer before the cut at [count]. *)
Definition article_candidates (response : Response) : list BlogResult :=
  match groundingChunks response with
  | Some chunks => filter article_like (List.map chunk_result chunks)
  | None => []
  end.

(** *** Rounding in binary64

    The arithmetic behind [Math.round(((i + 1) / N) * 100)]: what the
    division and the product of [SpecFloat] return is described as the
    rounding of a quotient [A / B] of integers to 53 binary digits. *)

(** Where [A / C] lies between its integer part and the next integer. *)
Definition loc_of (A C : Z) : location :=
  if A mod C =? 0 then loc_Exact else loc_Inexact (2 * (A mod C) ?= C).

(** [A / C] rounded to the nearest integer, a tie to the even one. *)
Definition rhe (A C : Z) : Z := round_nearest_even (A / C) (loc_of A C).

(** A shift record that stands for [A / C]: its mantissa is the integer
    part and its two bits tell where the rest lies. *)
Definition represents (mrs : shr_record) (A C : Z) : Prop :=
  shr_m mrs = A / C /\ loc_of_shr_record mrs = loc_of A C.

(** The number of binary digits of the integer part of [A / B] beyond 53. *)
Definition excess (A B : Z) : Z := Zdigits2 (A / B) - prec.

(** [A / B] rounded to 53 binary digits, for [A / B] of at least 2^52:
    the pair [(M, n)] stands for [M * 2^n]. *)
Definition rne (A B : Z) : Z * Z :=
  let n := excess A B in
  let M := rhe A (B * 2 ^ n) in
  if M =? 2 ^ prec then (2 ^ (prec - 1), n + 1) else (M, n).

(** The smallest exponent of binary64, -1074. *)
Definition emin64 : Z := emin prec emax.

(** A mantissa of 53 digits. *)
Definition normal53 (m : positive) : Prop := Zpos (digits2_pos m) = prec.

(** Mantissa and exponent pairs, compared by the exponent first: the order
    of the values when the mantissas have 53 digits. *)
Definition lex_le (x y : Z * Z) : Prop :=
  snd x < snd y \/ (snd x = snd y /\ fst x <= fst y).

(** The numbers met on the way: positive, with a mantissa of 53 digits and
    an exponent between [lo] and [hi]. *)
Definition normal_in (lo hi : Z) (x : number) : Prop :=
  exists m e, x = S754_finite false m e /\ normal53 m /\ lo <= e <= hi.

(** [floor(m * 2^e + 1/2)] for a negative exponent [e]. *)
Definition nearest_int (m : positive) (e : Z) : Z :=
  (2 * Zpos m + 2 ^ (- e)) / 2 ^ (- e + 1).

(** [(k / N) * 100] before [Math.round]. *)
Definition scaled (k N : Z) : number :=
  mul (div (of_int k) (of_int N)) (of_int 100).

(** The mantissa of the number 100. *)
Definition hundred_m : positive := 7036874417766400.

(** *** Sample inputs *)

(** Every draw is 0.5, the clock starts at 1700000000000 and a pass takes
    800 ms, and the rendering of a draw in radix 36 is that of 0.5. *)
Definition sample_env : Env :=
  mkEnv (fun _ => S754_finite false 4503599627370496 (-53))
        (fun n => 1700000000000 + 800 * Z.of_nat n)
        (fun _ => lit "0.i").

Definition sample_state (targets : list BlogResult) (comment : jsstring)
    (running : bool) : AppState :=
  mkApp None None [] comment targets running [] (of_int 0).

(** A state after a search that found [found]. *)
Definition finder_state (found : list BlogResult) : AppState :=
  mkApp None None found [] [] false [] (of_int 0).

Definition post_a : BlogResult := mkBlog (lit "Post A") (lit "https://a.blogspot.com/1").
Definition post_b : BlogResult := mkBlog (lit "Post B") (lit "https://b.blogspot.com/2").

(** A service that answers every query with the same two grounding
    chunks, both for one article. *)
Definition article_chunk : Chunk :=
  mkChunk (Some (mkWeb (Some (lit "Post A"))
                       (Some (lit "https://a.blogspot.com/2024/01/post-a.html")))).

Definition twice_the_same (_ : jsstring) : Response :=
  mkResponse None (Some [article_chunk; article_chunk]).

Definition sample_render (_ : Z) : jsstring := lit "10".

(** *** The exact percentage *)

(** [100 * k / N] rounded to the nearest integer, a half going up. *)
Definition exact_percent (k N : Z) : Z := (200 * k + N) / (2 * N).

(** [100 * k / N] lies halfway between two integers. *)
Definition is_tie (k N : Z) : Prop := (200 * k) mod (2 * N) = N.

(** The sum of the suspensions of a run, in milliseconds. *)
Definition total_delay (r : Run) : Z := fold_right Z.add 0 (delays r).

(** A search service that answers, a generator that fails and one that
    answers without text, and the two forms filled in. *)
Definition answering_service (q : jsstring) : option Response := Some (twice_the_same q).
Definition failing_ai (_ : jsstring) : option (option jsstring) := None.
Definition silent_ai (_ : jsstring) : option (option jsstring) := Some None.
Definition sample_form : FinderForm := mkFinder (lit "tekno") 10 false.
Definition sample_settings : SettingsForm :=
  mkSettings (lit "https://web.example/post") (lit "SEO") false.

(** *** The text of a file *)

(** A string that UTF-8 can carry: code units below 2^16 in which every
    lead surrogate is followed by a trail surrogate and every trail
    surrogate follows a lead surrogate. *)
Fixpoint well_formed (s : jsstring) : bool :=
  match s with
  | [] => true
  | c :: rest =>
      (c <? 0x10000)%N &&
      (if is_lead_surrogate c then
         match rest with
         | d :: rest' => is_trail_surrogate d && well_formed rest'
         | [] => false
         end
       else negb (is_trail_surrogate c) && well_formed rest)
  end.

Definition text_target (r : BlogResult) : Prop :=
  well_formed (title r) = true /\ well_formed (url r) = true.

(** The first title of the list starts with the byte order mark U+FEFF. *)
Definition starts_with_mark (found : list BlogResult) : Prop :=
  exists r others t, found = r :: others /\ title r = byte_order_mark :: t.

(** A text without the byte order mark at its start. *)
Definition strip_mark (s : jsstring) : jsstring :=
  match s with
  | c :: rest => if (c =? byte_order_mark)%N then rest else s
  | [] => []
  end.

(** A string of code units: every unit is below 2^16. *)
Definition units (s : jsstring) : Prop := Forall (fun c => (c < 0x10000)%N) s.

(** A code point that is not a surrogate. *)
Definition scalar (cp : N) : Prop :=
  (cp < 0xD800 \/ 0xE000 <= cp < 0x110000)%N.

(** *** The draws *)

(** A number that is neither NaN nor an infinity. *)
Definition is_finite (x : number) : bool :=
  match x with
  | S754_zero _ | S754_finite _ _ _ => true
  | _ => false
  end.

(** The value of a finite number, times 2^1074, with its sign. *)
Definition value1074 (x : number) : Z :=
  match x with
  | S754_finite s m e => cond_Zopp s (scaled_value m e)
  | _ => 0
  end.

(** The number [k / 2^p]: the binary64 number nearest to it. *)
Definition grid_point (p k : Z) : number := binary_normalize prec emax k (- p) false.

(** The environment in which the call number [c] of [Math.random()]
    returns [x], and every other call what it returns in [env]. *)
Definition with_draw (env : Env) (c : nat) (x : number) : Env :=
  mkEnv (fun n => if Nat.eqb n c then x else Math_random env n)
        (Date_now env) (toString36 env).

(** The pass at index [j] of the run ends in a success. *)
Definition pass_succeeds (env : Env) (st : AppState) (j : nat) : bool :=
  match nth_error (emitted (startBulk env st)) j with
  | Some ev =>
      match log_status (ev_entry ev) with
      | success_st => true
      | fail_st => false
      end
  | None => false
  end.

(** Of the [2^p] equally spaced draws [k / 2^p] of the pass at index [j],
    the number that end in a success. *)
Definition successes (env : Env) (st : AppState) (j : nat) (p : Z) : nat :=
  List.length
    (filter (fun k => pass_succeeds
                        (with_draw env (2 * j) (grid_point p (Z.of_nat k))) st j)
            (seq 0 (Z.to_nat (2 ^ p)))).

(* ===================================================================== *)
(** * Properties *)
(* ===================================================================== *)

(** ** Binary64: what [div], [mul] and [Math_round] compute *)

(** *** Binary digits *)

Lemma digits2_pos_bounds (m : positive) :
  2 ^ (Zpos (digits2_pos m) - 1) <= Zpos m < 2 ^ Zpos (digits2_pos m).
Proof.
  induction m as [m IH|m IH|]; simpl digits2_pos.
  - rewrite Pos2Z.inj_succ.
    replace (Z.succ (Zpos (digits2_pos m)) - 1) with (Z.succ (Zpos (digits2_pos m) - 1)) by lia.
    rewrite !Z.pow_succ_r by lia. lia.
  - rewrite Pos2Z.inj_succ.
    replace (Z.succ (Zpos (digits2_pos m)) - 1) with (Z.succ (Zpos (digits2_pos m) - 1)) by lia.
    rewrite !Z.pow_succ_r by lia. lia.
  - simpl. lia.
Qed.

Lemma Zdigits2_unique (z d : Z) :
  2 ^ (d - 1) <= z < 2 ^ d -> 0 < d -> Zdigits2 z = d.
Proof.
  intros [Hlo Hhi] Hd.
  assert (0 < z) by (pose proof (Z.pow_pos_nonneg 2 (d - 1)); lia).
  destruct z as [|p|p]; try lia. simpl.
  pose proof (digits2_pos_bounds p) as [Hl Hh].
  set (d' := Zpos (digits2_pos p)) in *.
  destruct (Z.lt_trichotomy d' d) as [Hlt|[Heq|Hgt]]; [|assumption|].
  - assert (2 ^ d' <= 2 ^ (d - 1)) by (apply Z.pow_le_mono_r; lia). lia.
  - assert (2 ^ d <= 2 ^ (d' - 1)) by (apply Z.pow_le_mono_r; lia). lia.
Qed.

Lemma Zdigits2_bounds (z : Z) :
  0 < z -> 2 ^ (Zdigits2 z - 1) <= z < 2 ^ Zdigits2 z.
Proof.
  destruct z as [|p|p]; try lia. intros _. apply digits2_pos_bounds.
Qed.

Lemma Zdigits2_pos (z : Z) : 0 < z -> 0 < Zdigits2 z.
Proof. destruct z; simpl; lia. Qed.

Lemma Zdigits2_mono (a b : Z) : 0 < a -> a <= b -> Zdigits2 a <= Zdigits2 b.
Proof.
  intros Ha Hab.
  pose proof (Zdigits2_bounds a Ha) as [Hal _].
  pose proof (Zdigits2_bounds b ltac:(lia)) as [_ Hbh].
  destruct (Z.le_gt_cases (Zdigits2 a) (Zdigits2 b)) as [|Hgt]; [assumption|].
  assert (2 ^ Zdigits2 b <= 2 ^ (Zdigits2 a - 1)) by (apply Z.pow_le_mono_r; lia).
  lia.
Qed.

(** *** Shifting digits out *)

Lemma iter_pos_nat {A} (f : A -> A) (p : positive) (x : A) :
  iter_pos f p x = Nat.iter (Pos.to_nat p) f x.
Proof.
  revert x. induction p as [p IH|p IH|]; intros x; simpl iter_pos.
  - rewrite !IH, Pos2Nat.inj_xI.
    replace (S (2 * Pos.to_nat p)) with (Pos.to_nat p + (Pos.to_nat p + 1))%nat by lia.
    rewrite !Nat.iter_add. reflexivity.
  - rewrite !IH, Pos2Nat.inj_xO.
    replace (2 * Pos.to_nat p)%nat with (Pos.to_nat p + Pos.to_nat p)%nat by lia.
    rewrite Nat.iter_add. reflexivity.
  - reflexivity.
Qed.

Lemma shr_1_nonneg (m : Z) (r s : bool) :
  0 <= m ->
  shr_1 (Build_shr_record m r s) = Build_shr_record (m / 2) (Z.odd m) (r || s).
Proof.
  intros Hm. rewrite <- Z.div2_div.
  destruct m as [|p|p]; [reflexivity| |lia].
  destruct p; reflexivity.
Qed.

Lemma loc_of_record (m : Z) (l : location) :
  loc_of_shr_record (shr_record_of_loc m l) = l.
Proof. destruct l as [|[| |]]; reflexivity. Qed.

Lemma represents_start (A C : Z) :
  represents (shr_record_of_loc (A / C) (loc_of A C)) A C.
Proof.
  split; [|apply loc_of_record].
  destruct (loc_of A C) as [|[| |]]; reflexivity.
Qed.

Lemma represents_shr_1 (mrs : shr_record) (A C : Z) :
  0 <= A -> 0 < C ->
  represents mrs A C -> represents (shr_1 mrs) A (C * 2).
Proof.
  intros HA HC [Hm Hl].
  destruct mrs as [m r s]. simpl in Hm, Hl.
  assert (Hm0 : 0 <= m) by (subst m; apply Z.div_pos; lia).
  rewrite shr_1_nonneg by assumption.
  pose proof (Z.div_mod A C ltac:(lia)) as HAC.
  pose proof (Z.mod_pos_bound A C HC) as Hrho.
  pose proof (Z.div_mod m 2 ltac:(lia)) as Hm2.
  pose proof (Z.mod_pos_bound m 2 ltac:(lia)) as Hm2b.
  assert (Hq : A / (C * 2) = m / 2) by (subst m; now rewrite Z.div_div by lia).
  assert (Hr : A mod (C * 2) = (m mod 2) * C + A mod C).
  { symmetry. apply (Z.mod_unique_pos _ _ (m / 2)); [nia|]. subst m. nia. }
  split; [simpl; congruence|].
  unfold loc_of in *. rewrite Hr. rewrite (Zodd_mod m).
  unfold loc_of_shr_record in *.
  assert (Hcase : m mod 2 = 0 \/ m mod 2 = 1) by lia.
  destruct Hcase as [E|E]; rewrite E; clear Hr Hm2 Hq;
    change (0 =? 1) with false; change (1 =? 1) with true;
    destruct (Z.eqb_spec (A mod C) 0) as [H0|H0];
    destruct r, s; try discriminate Hl; cbn [orb];
    repeat match goal with
    | |- context [?a =? 0] => destruct (Z.eqb_spec a 0); try lia
    | |- context [?a ?= ?b] => destruct (Z.compare_spec a b); try lia
    end; reflexivity.
Qed.

Lemma represents_iter (n : nat) (mrs : shr_record) (A C : Z) :
  0 <= A -> 0 < C ->
  represents mrs A C ->
  represents (Nat.iter n shr_1 mrs) A (C * 2 ^ Z.of_nat n).
Proof.
  intros HA HC H0. induction n as [|n IH].
  - simpl. now rewrite Z.mul_1_r.
  - rewrite Nat2Z.inj_succ, Z.pow_succ_r by lia.
    replace (C * (2 * 2 ^ Z.of_nat n)) with (C * 2 ^ Z.of_nat n * 2) by lia.
    simpl. apply represents_shr_1; [assumption| |assumption].
    pose proof (Z.pow_pos_nonneg 2 (Z.of_nat n)). nia.
Qed.

(** Shifting by [n] digits. *)
Lemma shr_represents (mrs : shr_record) (e n A C : Z) :
  0 <= A -> 0 < C -> 0 <= n ->
  represents mrs A C ->
  represents (fst (shr mrs e n)) A (C * 2 ^ n) /\ snd (shr mrs e n) = e + n.
Proof.
  intros HA HC Hn H0. destruct n as [|p|p]; [| |lia].
  - simpl. rewrite Z.mul_1_r, Z.add_0_r. auto.
  - unfold shr. simpl fst. simpl snd. split; [|reflexivity].
    rewrite iter_pos_nat. rewrite <- (positive_nat_Z p).
    now apply represents_iter.
Qed.

(** *** Rounding to the nearest integer *)

Lemma round_represents (mrs : shr_record) (A C : Z) :
  represents mrs A C ->
  round_nearest_even (shr_m mrs) (loc_of_shr_record mrs) = rhe A C.
Proof. intros [-> ->]. reflexivity. Qed.

Lemma rhe_cases (A C : Z) :
  rhe A C = A / C \/ rhe A C = A / C + 1.
Proof.
  unfold rhe, round_nearest_even.
  destruct (loc_of A C) as [|[| |]]; auto. destruct (Z.even (A / C)); auto.
Qed.

Lemma rhe_exact (A C : Z) : A mod C = 0 -> rhe A C = A / C.
Proof. intros H. unfold rhe, loc_of. now rewrite H. Qed.

(** Above the half, up; below, down. *)
Lemma rhe_up (A C : Z) : 0 < C -> C < 2 * (A mod C) -> rhe A C = A / C + 1.
Proof.
  intros HC H. unfold rhe, loc_of.
  destruct (Z.eqb_spec (A mod C) 0); [lia|].
  destruct (Z.compare_spec (2 * (A mod C)) C); try lia. reflexivity.
Qed.

Lemma rhe_down (A C : Z) : 0 < C -> 2 * (A mod C) < C -> rhe A C = A / C.
Proof.
  intros HC H. unfold rhe, loc_of.
  destruct (Z.eqb_spec (A mod C) 0); [reflexivity|].
  destruct (Z.compare_spec (2 * (A mod C)) C); try lia. reflexivity.
Qed.

Lemma rhe_scale (A C k : Z) : 0 < C -> 0 < k -> rhe (k * A) (k * C) = rhe A C.
Proof.
  intros HC Hk. unfold rhe, loc_of.
  rewrite Z.div_mul_cancel_l by lia.
  rewrite Z.mul_mod_distr_l by lia.
  destruct (Z.eqb_spec (A mod C) 0) as [H0|H0].
  - rewrite H0, Z.mul_0_r. reflexivity.
  - replace (k * (A mod C) =? 0) with false by (symmetry; apply Z.eqb_neq; nia).
    replace (2 * (k * (A mod C)) ?= k * C) with (2 * (A mod C) ?= C); [reflexivity|].
    destruct (Z.compare_spec (2 * (A mod C)) C);
      symmetry; [apply Z.compare_eq_iff|apply Z.compare_lt_iff|apply Z.compare_gt_iff]; nia.
Qed.

Lemma rhe_mono (A A' C : Z) : 0 < C -> A <= A' -> rhe A C <= rhe A' C.
Proof.
  intros HC HAA.
  pose proof (Z.div_le_mono A A' C HC HAA) as Hq.
  destruct (Z.eq_dec (A / C) (A' / C)) as [Heq|Hne].
  - assert (Hr : A mod C <= A' mod C).
    { pose proof (Z.div_mod A C ltac:(lia)). pose proof (Z.div_mod A' C ltac:(lia)).
      rewrite Heq in *. nia. }
    unfold rhe, loc_of, round_nearest_even. rewrite Heq.
    destruct (Z.eqb_spec (A mod C) 0); destruct (Z.eqb_spec (A' mod C) 0);
      destruct (Z.compare_spec (2 * (A mod C)) C);
      destruct (Z.compare_spec (2 * (A' mod C)) C);
      destruct (Z.even (A' / C)); lia.
  - destruct (rhe_cases A C) as [->| ->]; destruct (rhe_cases A' C) as [->| ->]; lia.
Qed.

Lemma rhe_lower (A C : Z) : A / C <= rhe A C.
Proof. destruct (rhe_cases A C) as [->| ->]; lia. Qed.

Lemma rhe_upper (A C : Z) : rhe A C <= A / C + 1.
Proof. destruct (rhe_cases A C) as [->| ->]; lia. Qed.

(** *** Rounding to 53 digits *)

Lemma pow_prec : 2 ^ prec = 9007199254740992.
Proof. reflexivity. Qed.

Lemma pow_prec_1 : 2 ^ (prec - 1) = 4503599627370496.
Proof. reflexivity. Qed.

Lemma fexp_normal (d e : Z) :
  emin64 <= d + e - prec -> fexp prec emax (d + e) = d + e - prec.
Proof. unfold fexp, emin64. intros H. apply Z.max_l. exact H. Qed.

Lemma shr_fexp_represents (A C e : Z) (l : location) :
  0 <= A -> 0 < C -> 0 < A / C ->
  l = loc_of A C ->
  let n := Zdigits2 (A / C) - prec in
  0 <= n -> emin64 <= e + n ->
  exists mrs,
    shr_fexp prec emax (A / C) e l = (mrs, e + n) /\
    represents mrs A (C * 2 ^ n).
Proof.
  intros HA HC Hq -> n Hn He.
  unfold shr_fexp.
  rewrite fexp_normal by (fold n; unfold n in *; lia).
  replace (Zdigits2 (A / C) + e - prec - e) with n by (unfold n; lia).
  destruct (shr_represents (shr_record_of_loc (A / C) (loc_of A C)) e n A C
              HA HC Hn (represents_start A C)) as [Hrep Hsnd].
  exists (fst (shr (shr_record_of_loc (A / C) (loc_of A C)) e n)).
  split; [|exact Hrep].
  rewrite <- Hsnd. apply surjective_pairing.
Qed.

Lemma excess_quotient (A B : Z) :
  0 < B -> 2 ^ (prec - 1) <= A / B ->
  let n := excess A B in
  0 <= n /\ 2 ^ (prec - 1) <= A / (B * 2 ^ n) < 2 ^ prec.
Proof.
  intros HB Hq n.
  assert (Hq0 : 0 < A / B) by (pose proof (Z.pow_pos_nonneg 2 (prec - 1)); unfold prec in *; lia).
  pose proof (Zdigits2_bounds (A / B) Hq0) as [Hlo Hhi].
  assert (Hn : 0 <= n).
  { unfold n, excess.
    destruct (Z.le_gt_cases prec (Zdigits2 (A / B))) as [|Hlt]; [lia|].
    assert (2 ^ Zdigits2 (A / B) <= 2 ^ (prec - 1))
      by (apply Z.pow_le_mono_r; lia).
    lia. }
  split; [assumption|].
  assert (Hp : 0 < 2 ^ n) by (apply Z.pow_pos_nonneg; lia).
  rewrite <- Z.div_div by lia.
  replace (Zdigits2 (A / B)) with (prec + n) in * by (unfold n, excess; lia).
  replace (prec + n - 1) with (prec - 1 + n) in Hlo by lia.
  rewrite Z.pow_add_r in Hlo, Hhi by (unfold prec; lia).
  split.
  - apply Z.div_le_lower_bound; lia.
  - apply Z.div_lt_upper_bound; lia.
Qed.

Lemma rne_mantissa (A B : Z) :
  0 < B -> 2 ^ (prec - 1) <= A / B ->
  2 ^ (prec - 1) <= fst (rne A B) < 2 ^ prec.
Proof.
  intros HB Hq. unfold rne.
  destruct (excess_quotient A B HB Hq) as [Hn [Hlo Hhi]].
  pose proof (rhe_lower A (B * 2 ^ excess A B)).
  pose proof (rhe_upper A (B * 2 ^ excess A B)).
  destruct (Z.eqb_spec (rhe A (B * 2 ^ excess A B)) (2 ^ prec));
    cbn [fst]; rewrite ?pow_prec, ?pow_prec_1 in *; lia.
Qed.

(** The rounding step of [SpecFloat] on a quotient with at least 53
    digits, away from the ends of the exponent range. *)
Lemma binary_round_aux_rne (A B ex : Z) :
  0 <= A -> 0 < B -> 2 ^ (prec - 1) <= A / B ->
  emin64 <= ex + excess A B -> ex + excess A B + 1 <= emax - prec ->
  binary_round_aux prec emax false (A / B) ex (loc_of A B)
  = S754_finite false (Z.to_pos (fst (rne A B))) (ex + snd (rne A B)).
Proof.
  intros HA HB Hq Hlo Hhi.
  destruct (excess_quotient A B HB Hq) as [Hn [Hqlo Hqhi]].
  assert (Hq0 : 0 < A / B)
    by (pose proof (Z.pow_pos_nonneg 2 (prec - 1)); unfold prec in *; lia).
  destruct (shr_fexp_represents A B ex (loc_of A B) HA HB Hq0 eq_refl Hn Hlo)
    as (mrs & Hshr & Hrep).
  fold (excess A B) in Hshr, Hrep.
  unfold binary_round_aux. rewrite Hshr.
  rewrite (round_represents _ _ _ Hrep).
  unfold rne.
  pose proof (rhe_lower A (B * 2 ^ excess A B)) as HMlo.
  pose proof (rhe_upper A (B * 2 ^ excess A B)) as HMhi.
  set (M := rhe A (B * 2 ^ excess A B)) in *.
  set (n := excess A B) in *.
  destruct (Z.eqb_spec M (2 ^ prec)) as [HM|HM].
  - (* the mantissa reached 2^53: one more digit to shift out *)
    rewrite HM. unfold shr_fexp.
    change (Zdigits2 (2 ^ prec)) with (prec + 1).
    rewrite fexp_normal by lia.
    replace (prec + 1 + (ex + n) - prec - (ex + n)) with 1 by lia.
    cbn -[Z.add Z.leb Z.sub].
    replace (ex + n + 1 <=? emax - prec) with true by (symmetry; apply Z.leb_le; lia).
    f_equal. lia.
  - assert (Hd : Zdigits2 M = prec)
      by (apply Zdigits2_unique; unfold prec in *; lia).
    unfold shr_fexp. rewrite Hd.
    rewrite fexp_normal by lia.
    replace (prec + (ex + n) - prec - (ex + n)) with 0 by lia.
    cbn [shr shr_record_of_loc shr_m fst snd].
    destruct M as [|p|p]; try (unfold prec in *; simpl in *; lia).
    replace (ex + n <=? emax - prec) with true by (symmetry; apply Z.leb_le; lia).
    reflexivity.
Qed.

(** *** Division and multiplication *)

Lemma new_location_loc_of (A B : Z) :
  0 < B -> new_location B (A mod B) = loc_of A B.
Proof.
  intros HB. unfold new_location, new_location_even, new_location_odd, loc_of.
  pose proof (Z.mod_pos_bound A B HB) as Hr.
  destruct (Z.even B) eqn:Hev.
  - reflexivity.
  - destruct (Z.eqb_spec (A mod B) 0) as [H0|H0]; [reflexivity|].
    assert (Hodd : B mod 2 = 1).
    { rewrite Zeven_mod in Hev. apply Z.eqb_neq in Hev.
      pose proof (Z.mod_pos_bound B 2 ltac:(lia)). lia. }
    pose proof (Z.div_mod B 2 ltac:(lia)) as HB2.
    f_equal.
    destruct (Z.compare_spec (2 * (A mod B) + 1) B);
      destruct (Z.compare_spec (2 * (A mod B)) B); try reflexivity; lia.
Qed.

Lemma normal53_bounds (m : positive) :
  normal53 m -> 2 ^ (prec - 1) <= Zpos m < 2 ^ prec.
Proof.
  intros H. pose proof (digits2_pos_bounds m) as Hb. rewrite H in Hb. exact Hb.
Qed.

Lemma normal53_of_bounds (m : positive) :
  2 ^ (prec - 1) <= Zpos m < 2 ^ prec -> normal53 m.
Proof.
  intros H. unfold normal53.
  change (Zpos (digits2_pos m)) with (Zdigits2 (Zpos m)).
  apply Zdigits2_unique; [exact H|reflexivity].
Qed.

Lemma div_rne (m1 m2 : positive) (e1 e2 : Z) :
  normal53 m1 -> normal53 m2 ->
  -500 <= e1 <= 400 -> -500 <= e2 <= 400 ->
  let A := Zpos m1 * 2 ^ prec in
  let B := Zpos m2 in
  div (S754_finite false m1 e1) (S754_finite false m2 e2)
  = S754_finite false (Z.to_pos (fst (rne A B))) (e1 - e2 - prec + snd (rne A B)).
Proof.
  intros H1 H2 He1 He2 A B.
  pose proof (normal53_bounds m1 H1) as Hb1.
  pose proof (normal53_bounds m2 H2) as Hb2.
  rewrite pow_prec, pow_prec_1 in *.
  unfold div, SFdiv, SFdiv_core_binary.
  cbn [xorb Zdigits2]. rewrite H1, H2.
  replace (prec + e1 - (prec + e2)) with (0 + (e1 - e2)) by lia.
  rewrite fexp_normal by (unfold emin64, emin, prec, emax; lia).
  replace (Z.min (0 + (e1 - e2) - prec) (e1 - e2)) with (e1 - e2 - prec)
    by (unfold prec; lia).
  replace (e1 - e2 - (e1 - e2 - prec)) with prec by lia.
  change (match prec with
          | 0 => Zpos m1
          | Zpos _ => Z.shiftl (Zpos m1) prec
          | Zneg _ => 0
          end) with (Z.shiftl (Zpos m1) prec).
  rewrite Z.shiftl_mul_pow2 by (unfold prec; lia).
  fold A. change (Zpos m2) with B.
  assert (HB : 0 < B) by (unfold B; lia).
  assert (HA : 0 <= A) by (unfold A; rewrite pow_prec; lia).
  assert (Hq : 2 ^ (prec - 1) <= A / B).
  { rewrite pow_prec_1. apply Z.div_le_lower_bound; [lia|].
    unfold A, B. rewrite pow_prec. lia. }
  assert (Hq2 : A / B < 2 ^ (prec + 1)).
  { apply Z.div_lt_upper_bound; [lia|].
    unfold A, B. change (2 ^ (prec + 1)) with 18014398509481984.
    rewrite pow_prec. lia. }
  assert (Hn : 0 <= excess A B <= 1).
  { destruct (excess_quotient A B HB Hq) as [Hn _]. split; [assumption|].
    unfold excess.
    assert (0 < A / B) by (rewrite pow_prec_1 in Hq; lia).
    pose proof (Zdigits2_bounds (A / B) ltac:(assumption)) as [Hlo _].
    destruct (Z.le_gt_cases (Zdigits2 (A / B)) (prec + 1)) as [|Hgt]; [lia|].
    assert (2 ^ (prec + 1) <= 2 ^ (Zdigits2 (A / B) - 1))
      by (apply Z.pow_le_mono_r; lia).
    lia. }
  change (IntDef.Z.div_eucl A B) with (Z.div_eucl A B).
  destruct (Z.div_eucl A B) as [q r] eqn:Hqr.
  assert (Hq' : q = A / B) by (unfold Z.div; now rewrite Hqr).
  assert (Hr' : r = A mod B) by (unfold Z.modulo; now rewrite Hqr).
  subst q r.
  rewrite new_location_loc_of by assumption.
  apply binary_round_aux_rne; try assumption;
    unfold emin64, emin, prec, emax in *; lia.
Qed.

Lemma loc_of_one (A : Z) : loc_of A 1 = loc_Exact.
Proof. unfold loc_of. now rewrite Z.mod_1_r. Qed.

Lemma mul_rne (m1 m2 : positive) (e1 e2 : Z) :
  normal53 m1 -> normal53 m2 ->
  -500 <= e1 <= 400 -> -500 <= e2 <= 400 ->
  let A := Zpos m1 * Zpos m2 in
  mul (S754_finite false m1 e1) (S754_finite false m2 e2)
  = S754_finite false (Z.to_pos (fst (rne A 1))) (e1 + e2 + snd (rne A 1)).
Proof.
  intros H1 H2 He1 He2 A.
  pose proof (normal53_bounds m1 H1) as Hb1.
  pose proof (normal53_bounds m2 H2) as Hb2.
  rewrite pow_prec, pow_prec_1 in *.
  unfold mul, SFmul. cbn [xorb].
  rewrite Pos2Z.inj_mul. fold A.
  assert (HA : 2 ^ (prec - 1) * 2 ^ (prec - 1) <= A < 2 ^ prec * 2 ^ prec)
    by (rewrite pow_prec, pow_prec_1; unfold A; nia).
  assert (Hq : 2 ^ (prec - 1) <= A / 1) by (rewrite Z.div_1_r, pow_prec_1 in *; lia).
  assert (Hn : prec - 1 <= excess A 1 <= prec).
  { unfold excess. rewrite Z.div_1_r.
    assert (HA0 : 0 < A) by (rewrite pow_prec_1 in HA; lia).
    pose proof (Zdigits2_bounds A HA0) as [Hlo Hhi].
    rewrite <- !Z.pow_add_r in HA by (unfold prec; lia).
    split.
    - destruct (Z.le_gt_cases (prec + prec - 1) (Zdigits2 A)) as [|Hlt]; [lia|].
      assert (2 ^ Zdigits2 A <= 2 ^ (prec - 1 + (prec - 1)))
        by (apply Z.pow_le_mono_r; lia).
      lia.
    - destruct (Z.le_gt_cases (Zdigits2 A) (prec + prec)) as [|Hgt]; [lia|].
      assert (2 ^ (prec + prec) <= 2 ^ (Zdigits2 A - 1))
        by (apply Z.pow_le_mono_r; lia).
      lia. }
  rewrite <- (Z.div_1_r A) at 1. rewrite <- (loc_of_one A).
  apply binary_round_aux_rne; try assumption; try lia;
    unfold emin64, emin, prec, emax in *; lia.
Qed.

(** A full mantissa is not changed by the rounding step. *)
Lemma rne_full (m : Z) :
  2 ^ (prec - 1) <= m < 2 ^ prec -> rne m 1 = (m, 0).
Proof.
  intros Hm. unfold rne, excess. rewrite Z.div_1_r.
  rewrite (Zdigits2_unique m prec) by (try exact Hm; reflexivity).
  replace (prec - prec) with 0 by lia.
  change (1 * 2 ^ 0) with 1.
  rewrite rhe_exact by apply Z.mod_1_r. rewrite Z.div_1_r.
  destruct (Z.eqb_spec m (2 ^ prec)); [lia|reflexivity].
Qed.

Lemma round_full (m : positive) (e : Z) :
  normal53 m -> -1000 <= e <= 900 ->
  binary_round_aux prec emax false (Zpos m) e loc_Exact = S754_finite false m e.
Proof.
  intros Hm He. pose proof (normal53_bounds m Hm) as Hb.
  rewrite <- (Z.div_1_r (Zpos m)) at 1. rewrite <- (loc_of_one (Zpos m)).
  assert (Hex : excess (Zpos m) 1 = 0).
  { unfold excess. rewrite Z.div_1_r.
    change (Zdigits2 (Zpos m)) with (Zpos (digits2_pos m)).
    unfold normal53 in Hm. lia. }
  rewrite binary_round_aux_rne; rewrite ?Z.div_1_r, ?Hex;
    try (unfold emin64, emin, prec, emax in *; lia).
  rewrite rne_full by assumption. simpl. f_equal. lia.
Qed.

Lemma iter_xO (p k : positive) :
  Zpos (Pos.iter xO p k) = Zpos p * 2 ^ Zpos k.
Proof.
  induction k as [|k IH] using Pos.peano_ind.
  - simpl. lia.
  - rewrite Pos.iter_succ, Pos2Z.inj_succ, Z.pow_succ_r by lia.
    rewrite Pos2Z.inj_xO, IH. lia.
Qed.

(** An integer below 2^53 is a number, exactly. *)
Lemma of_int_exact (z : Z) :
  0 < z < 2 ^ prec ->
  let d := Zdigits2 z in
  of_int z = S754_finite false (Z.to_pos (z * 2 ^ (prec - d))) (d - prec) /\
  normal53 (Z.to_pos (z * 2 ^ (prec - d))).
Proof.
  intros Hz d.
  pose proof (Zdigits2_bounds z ltac:(lia)) as Hb. fold d in Hb.
  assert (Hd0 : 0 < d) by (apply Zdigits2_pos; lia).
  assert (Hd : d <= prec).
  { destruct (Z.le_gt_cases d prec) as [|Hgt]; [assumption|].
    assert (2 ^ prec <= 2 ^ (d - 1)) by (apply Z.pow_le_mono_r; lia). lia. }
  assert (Hm : 2 ^ (prec - 1) <= z * 2 ^ (prec - d) < 2 ^ prec).
  { replace (prec - 1) with (d - 1 + (prec - d)) by lia.
    replace prec with (d + (prec - d)) at 4 by lia.
    rewrite !Z.pow_add_r by lia.
    pose proof (Z.pow_pos_nonneg 2 (prec - d) ltac:(lia) ltac:(lia)). nia. }
  assert (Hnorm : normal53 (Z.to_pos (z * 2 ^ (prec - d)))).
  { apply normal53_of_bounds. rewrite Z2Pos.id; [exact Hm|].
    rewrite pow_prec_1 in Hm. lia. }
  split; [|exact Hnorm].
  destruct z as [|p|p]; try lia.
  unfold of_int, binary_normalize, binary_round, shl_align.
  change (Zpos (digits2_pos p)) with d.
  rewrite Z.add_0_r.
  replace (fexp prec emax d) with (d - prec)
    by (unfold fexp, emin, prec, emax in *; lia).
  rewrite Z.sub_0_r.
  destruct (d - prec) as [|q|q] eqn:Hq; try lia.
  - replace (prec - d) with 0 by lia. rewrite Z.mul_1_r. simpl Z.to_pos.
    apply round_full; [|lia].
    apply normal53_of_bounds. replace (prec - d) with 0 in Hm by lia.
    now rewrite Z.mul_1_r in Hm.
  - replace (prec - d) with (Zpos q) in * by lia.
    rewrite <- iter_xO, Pos2Z.id in *.
    apply round_full; [assumption|unfold prec in *; lia].
Qed.

(** *** Order *)

Lemma le_finite (m m' : positive) (e e' : Z) :
  le (S754_finite false m e) (S754_finite false m' e') = true
  <-> lex_le (Zpos m, e) (Zpos m', e').
Proof.
  unfold le, SFleb, SFcompare, lex_le. simpl fst. simpl snd.
  destruct (Z.compare_spec e e') as [He|He|He].
  - change (Pos.compare_cont Eq m m') with (Pos.compare m m').
    destruct (Pos.compare_spec m m') as [Hm|Hm|Hm]; split; intros Hle;
      try reflexivity; try discriminate; try lia.
  - split; [intros _; lia|reflexivity].
  - split; [discriminate|lia].
Qed.

Lemma excess_double (A B : Z) :
  0 < B -> 2 ^ (prec - 1) <= A / B -> excess (2 * A) B = excess A B + 1.
Proof.
  intros HB Hq. unfold excess.
  assert (Hq0 : 0 < A / B) by (rewrite pow_prec_1 in Hq; lia).
  pose proof (Zdigits2_bounds (A / B) Hq0) as [Hlo Hhi].
  pose proof (Zdigits2_pos (A / B) Hq0) as Hd.
  rewrite (Zdigits2_unique (2 * A / B) (Zdigits2 (A / B) + 1)); [lia| |lia].
  replace (Zdigits2 (A / B) + 1 - 1) with (Z.succ (Zdigits2 (A / B) - 1)) by lia.
  replace (Zdigits2 (A / B) + 1) with (Z.succ (Zdigits2 (A / B))) by lia.
  rewrite !Z.pow_succ_r by lia.
  pose proof (Z.div_mod A B ltac:(lia)) as HAB.
  pose proof (Z.mod_pos_bound A B HB) as Hr.
  split.
  - apply Z.div_le_lower_bound; [lia|]. nia.
  - apply Z.div_lt_upper_bound; [lia|]. nia.
Qed.

Lemma rne_double (A B : Z) :
  0 < B -> 2 ^ (prec - 1) <= A / B ->
  rne (2 * A) B = (fst (rne A B), snd (rne A B) + 1).
Proof.
  intros HB Hq. unfold rne.
  rewrite excess_double by assumption.
  destruct (excess_quotient A B HB Hq) as [Hn _].
  rewrite Z.pow_add_r by lia. change (2 ^ 1) with 2.
  replace (B * (2 ^ excess A B * 2)) with (2 * (B * 2 ^ excess A B)) by lia.
  rewrite rhe_scale
    by (try lia; pose proof (Z.pow_pos_nonneg 2 (excess A B)); nia).
  destruct (rhe A (B * 2 ^ excess A B) =? 2 ^ prec); reflexivity.
Qed.

Lemma rne_shift (j : nat) (A B : Z) :
  0 < B -> 2 ^ (prec - 1) <= A / B ->
  rne (2 ^ Z.of_nat j * A) B = (fst (rne A B), snd (rne A B) + Z.of_nat j).
Proof.
  intros HB Hq. induction j as [|j IH].
  - simpl Z.of_nat. rewrite Z.pow_0_r, Z.mul_1_l, Z.add_0_r.
    apply surjective_pairing.
  - rewrite Nat2Z.inj_succ, Z.pow_succ_r by lia.
    replace (2 * 2 ^ Z.of_nat j * A) with (2 * (2 ^ Z.of_nat j * A)) by lia.
    rewrite rne_double, IH; [simpl; f_equal; lia|assumption|].
    pose proof (Z.pow_pos_nonneg 2 (Z.of_nat j) ltac:(lia) ltac:(lia)) as Hp.
    etransitivity; [exact Hq|].
    apply Z.div_le_mono; [assumption|].
    assert (0 <= A); [|nia].
    destruct (Z.le_gt_cases 0 A) as [|Hneg]; [assumption|].
    assert (A / B < 0) by (apply Z.div_lt_upper_bound; lia).
    rewrite pow_prec_1 in Hq. lia.
Qed.

(** Rounding to 53 digits keeps the order. *)
Lemma rne_mono (A A' B : Z) :
  0 < B -> 2 ^ (prec - 1) <= A / B -> A <= A' ->
  lex_le (rne A B) (rne A' B).
Proof.
  intros HB Hq HAA.
  assert (Hq' : 2 ^ (prec - 1) <= A' / B)
    by (etransitivity; [exact Hq|apply Z.div_le_mono; assumption]).
  assert (Hqq : A / B <= A' / B) by (apply Z.div_le_mono; assumption).
  destruct (excess_quotient A B HB Hq) as [Hn [Hlo Hhi]].
  destruct (excess_quotient A' B HB Hq') as [Hn' [Hlo' Hhi']].
  assert (Hnn : excess A B <= excess A' B).
  { unfold excess.
    assert (0 < A / B) by (rewrite pow_prec_1 in Hq; lia).
    pose proof (Zdigits2_mono (A / B) (A' / B) ltac:(assumption) Hqq). lia. }
  pose proof (rhe_lower A (B * 2 ^ excess A B)) as H1.
  pose proof (rhe_upper A (B * 2 ^ excess A B)) as H2.
  pose proof (rhe_lower A' (B * 2 ^ excess A' B)) as H1'.
  pose proof (rhe_upper A' (B * 2 ^ excess A' B)) as H2'.
  assert (Hsame : excess A B = excess A' B ->
                  rhe A (B * 2 ^ excess A B) <= rhe A' (B * 2 ^ excess A' B)).
  { intros <-. apply rhe_mono; [|assumption].
    pose proof (Z.pow_pos_nonneg 2 (excess A B)). nia. }
  unfold rne, lex_le. rewrite pow_prec, pow_prec_1 in *.
  destruct (Z.eqb_spec (rhe A (B * 2 ^ excess A B)) 9007199254740992);
    destruct (Z.eqb_spec (rhe A' (B * 2 ^ excess A' B)) 9007199254740992);
    cbn [fst snd]; lia.
Qed.

(** *** Monotonicity of the quotient and of the product *)

Lemma of_int_normal (z : Z) :
  0 < z < 2 ^ prec -> normal_in (- 52) 0 (of_int z).
Proof.
  intros Hz. destruct (of_int_exact z Hz) as [Heq Hn].
  eexists _, _. split; [exact Heq|]. split; [exact Hn|].
  pose proof (Zdigits2_pos z ltac:(lia)).
  pose proof (Zdigits2_bounds z ltac:(lia)) as [Hlo _].
  destruct (Z.le_gt_cases (Zdigits2 z) prec) as [|Hgt]; [unfold prec in *; lia|].
  assert (2 ^ prec <= 2 ^ (Zdigits2 z - 1)) by (apply Z.pow_le_mono_r; lia). lia.
Qed.

Lemma div_self (m : positive) (e : Z) :
  normal53 m -> -500 <= e <= 400 ->
  div (S754_finite false m e) (S754_finite false m e) = of_int 1.
Proof.
  intros Hm He. rewrite div_rne by assumption.
  pose proof (normal53_bounds m Hm) as Hb. rewrite pow_prec, pow_prec_1 in Hb.
  assert (Hq : Zpos m * 2 ^ prec / Zpos m = 2 ^ prec)
    by (rewrite Z.mul_comm; apply Z.div_mul; lia).
  assert (Hr : rne (Zpos m * 2 ^ prec) (Zpos m) = (2 ^ (prec - 1), 1)).
  { unfold rne, excess. rewrite Hq.
    change (Zdigits2 (2 ^ prec) - prec) with 1. change (2 ^ 1) with 2.
    rewrite rhe_exact.
    - replace (Zpos m * 2 ^ prec) with (2 ^ (prec - 1) * (Zpos m * 2))
        by (rewrite pow_prec, pow_prec_1; lia).
      rewrite Z.div_mul by lia. reflexivity.
    - replace (Zpos m * 2 ^ prec) with (2 ^ (prec - 1) * (Zpos m * 2))
        by (rewrite pow_prec, pow_prec_1; lia).
      apply Z.mod_mul. lia. }
  rewrite Hr. cbn [fst snd].
  replace (e - e - prec + 1) with (-52) by (unfold prec; lia).
  reflexivity.
Qed.

(** The quotient of two counts grows with the numerator. *)
Lemma div_mono (m1 m1' m2 : positive) (e1 e1' e2 : Z) :
  normal53 m1 -> normal53 m1' -> normal53 m2 ->
  -200 <= e1 <= 200 -> -200 <= e1' <= 200 -> -200 <= e2 <= 200 ->
  lex_le (Zpos m1, e1) (Zpos m1', e1') ->
  le (div (S754_finite false m1 e1) (S754_finite false m2 e2))
     (div (S754_finite false m1' e1') (S754_finite false m2 e2)) = true.
Proof.
  intros H1 H1' H2 He1 He1' He2 Hle.
  rewrite !div_rne by (try assumption; lia).
  pose proof (normal53_bounds m1 H1) as Hb1.
  pose proof (normal53_bounds m1' H1') as Hb1'.
  pose proof (normal53_bounds m2 H2) as Hb2.
  rewrite pow_prec, pow_prec_1 in *.
  set (B := Zpos m2).
  assert (HB : 0 < B) by (unfold B; lia).
  assert (Hq : forall m, 4503599627370496 <= m ->
                         2 ^ (prec - 1) <= m * 2 ^ prec / B).
  { intros m Hm. rewrite pow_prec_1, pow_prec.
    apply Z.div_le_lower_bound; [lia|]. unfold B. lia. }
  (* both numerators at the exponent -200 *)
  pose proof (rne_shift (Z.to_nat (e1 + 200)) (Zpos m1 * 2 ^ prec) B HB
                (Hq (Zpos m1) ltac:(lia))) as Hs.
  pose proof (rne_shift (Z.to_nat (e1' + 200)) (Zpos m1' * 2 ^ prec) B HB
                (Hq (Zpos m1') ltac:(lia))) as Hs'.
  rewrite !Z2Nat.id in Hs, Hs' by lia.
  assert (Hmono : lex_le (rne (2 ^ (e1 + 200) * (Zpos m1 * 2 ^ prec)) B)
                         (rne (2 ^ (e1' + 200) * (Zpos m1' * 2 ^ prec)) B)).
  { apply rne_mono; [assumption| |].
    - etransitivity; [apply (Hq (Zpos m1)); lia|].
      apply Z.div_le_mono; [assumption|].
      pose proof (Z.pow_pos_nonneg 2 (e1 + 200) ltac:(lia) ltac:(lia)).
      rewrite pow_prec. nia.
    - rewrite pow_prec.
      destruct Hle as [Hlt|[Heq Hm]]; cbn [fst snd] in *.
      + replace (e1' + 200) with (e1 + 200 + (e1' - e1)) by lia.
        rewrite (Z.pow_add_r 2 (e1 + 200) (e1' - e1)) by lia.
        pose proof (Z.pow_pos_nonneg 2 (e1 + 200) ltac:(lia) ltac:(lia)).
        assert (HQ : 2 ^ 1 <= 2 ^ (e1' - e1)) by (apply Z.pow_le_mono_r; lia).
        change (2 ^ 1) with 2 in HQ.
        set (P := 2 ^ (e1 + 200)) in *. set (Q := 2 ^ (e1' - e1)) in *.
        assert (Hm : Zpos m1 <= Q * Zpos m1') by nia.
        replace (P * Q * (Zpos m1' * 9007199254740992))
          with (P * (Q * Zpos m1' * 9007199254740992)) by ring.
        apply Z.mul_le_mono_nonneg_l; lia.
      + rewrite Heq.
        pose proof (Z.pow_pos_nonneg 2 (e1' + 200) ltac:(lia) ltac:(lia)). nia. }
  rewrite Hs, Hs' in Hmono.
  pose proof (rne_mantissa (Zpos m1 * 2 ^ prec) B HB (Hq (Zpos m1) ltac:(lia))) as Hf.
  pose proof (rne_mantissa (Zpos m1' * 2 ^ prec) B HB (Hq (Zpos m1') ltac:(lia))) as Hf'.
  rewrite pow_prec, pow_prec_1 in Hf, Hf'.
  apply le_finite. rewrite !Z2Pos.id by lia.
  unfold lex_le in *. cbn [fst snd] in *. unfold prec in *.
  change (2 ^ 53) with 9007199254740992 in *. lia.
Qed.

Lemma rne_exponent (A B : Z) :
  snd (rne A B) = excess A B \/ snd (rne A B) = excess A B + 1.
Proof.
  unfold rne. destruct (rhe A (B * 2 ^ excess A B) =? 2 ^ prec); simpl; auto.
Qed.

Lemma excess_bounds (A B lo hi : Z) :
  0 < B -> 0 < lo -> 2 ^ (lo - 1) <= A / B < 2 ^ hi ->
  lo - prec <= excess A B <= hi - prec.
Proof.
  intros HB Hlo [Hl Hh]. unfold excess.
  assert (Hq0 : 0 < A / B) by (pose proof (Z.pow_pos_nonneg 2 (lo - 1)); lia).
  pose proof (Zdigits2_bounds (A / B) Hq0) as [Hdl Hdh].
  split.
  - destruct (Z.le_gt_cases lo (Zdigits2 (A / B))) as [|Hlt]; [lia|].
    assert (2 ^ Zdigits2 (A / B) <= 2 ^ (lo - 1)) by (apply Z.pow_le_mono_r; lia).
    lia.
  - destruct (Z.le_gt_cases (Zdigits2 (A / B)) hi) as [|Hgt]; [lia|].
    assert (2 ^ hi <= 2 ^ (Zdigits2 (A / B) - 1)) by (apply Z.pow_le_mono_r; lia).
    lia.
Qed.

Lemma div_normal (m1 m2 : positive) (e1 e2 : Z) :
  normal53 m1 -> normal53 m2 ->
  -200 <= e1 <= 200 -> -200 <= e2 <= 200 ->
  normal_in (e1 - e2 - 53) (e1 - e2 - 51)
            (div (S754_finite false m1 e1) (S754_finite false m2 e2)).
Proof.
  intros H1 H2 He1 He2.
  rewrite div_rne by (try assumption; lia).
  pose proof (normal53_bounds m1 H1) as Hb1.
  pose proof (normal53_bounds m2 H2) as Hb2.
  rewrite pow_prec, pow_prec_1 in Hb1, Hb2.
  set (A := Zpos m1 * 2 ^ prec). set (B := Zpos m2).
  assert (HB : 0 < B) by (unfold B; lia).
  assert (Hq : 2 ^ (prec - 1) <= A / B < 2 ^ (prec + 1)).
  { change (2 ^ (prec + 1)) with 18014398509481984. rewrite pow_prec_1.
    unfold A, B. rewrite pow_prec. split.
    - apply Z.div_le_lower_bound; lia.
    - apply Z.div_lt_upper_bound; lia. }
  pose proof (rne_mantissa A B HB (proj1 Hq)) as Hf.
  pose proof (excess_bounds A B prec (prec + 1) HB eq_refl Hq) as Hx.
  pose proof (rne_exponent A B) as Hs.
  rewrite pow_prec, pow_prec_1 in Hf.
  eexists _, _. split; [reflexivity|]. split.
  - apply normal53_of_bounds. rewrite Z2Pos.id, pow_prec, pow_prec_1 by lia. lia.
  - unfold prec in *. lia.
Qed.

(** The product with a fixed factor grows with the other factor. *)
Lemma mul_mono (m1 m1' m2 : positive) (e1 e1' e2 : Z) :
  normal53 m1 -> normal53 m1' -> normal53 m2 ->
  -200 <= e1 <= 200 -> -200 <= e1' <= 200 -> -200 <= e2 <= 200 ->
  lex_le (Zpos m1, e1) (Zpos m1', e1') ->
  le (mul (S754_finite false m1 e1) (S754_finite false m2 e2))
     (mul (S754_finite false m1' e1') (S754_finite false m2 e2)) = true.
Proof.
  intros H1 H1' H2 He1 He1' He2 Hle.
  rewrite !mul_rne by (try assumption; lia).
  pose proof (normal53_bounds m1 H1) as Hb1.
  pose proof (normal53_bounds m1' H1') as Hb1'.
  pose proof (normal53_bounds m2 H2) as Hb2.
  rewrite pow_prec, pow_prec_1 in *.
  set (c := Zpos m2) in *.
  assert (Hq : forall m, 4503599627370496 <= m -> 2 ^ (prec - 1) <= m * c / 1).
  { intros m Hm. rewrite pow_prec_1, Z.div_1_r. nia. }
  pose proof (rne_shift (Z.to_nat (e1 + 200)) (Zpos m1 * c) 1 eq_refl
                (Hq (Zpos m1) ltac:(lia))) as Hs.
  pose proof (rne_shift (Z.to_nat (e1' + 200)) (Zpos m1' * c) 1 eq_refl
                (Hq (Zpos m1') ltac:(lia))) as Hs'.
  rewrite !Z2Nat.id in Hs, Hs' by lia.
  assert (Hmono : lex_le (rne (2 ^ (e1 + 200) * (Zpos m1 * c)) 1)
                         (rne (2 ^ (e1' + 200) * (Zpos m1' * c)) 1)).
  { apply rne_mono; [reflexivity| |].
    - etransitivity; [apply (Hq (Zpos m1)); lia|].
      apply Z.div_le_mono; [reflexivity|].
      pose proof (Z.pow_pos_nonneg 2 (e1 + 200) ltac:(lia) ltac:(lia)). nia.
    - destruct Hle as [Hlt|[Heq Hm]]; cbn [fst snd] in *.
      + replace (e1' + 200) with (e1 + 200 + (e1' - e1)) by lia.
        rewrite (Z.pow_add_r 2 (e1 + 200) (e1' - e1)) by lia.
        pose proof (Z.pow_pos_nonneg 2 (e1 + 200) ltac:(lia) ltac:(lia)).
        assert (HQ : 2 ^ 1 <= 2 ^ (e1' - e1)) by (apply Z.pow_le_mono_r; lia).
        change (2 ^ 1) with 2 in HQ.
        set (P := 2 ^ (e1 + 200)) in *. set (Q := 2 ^ (e1' - e1)) in *.
        assert (Hm : Zpos m1 <= Q * Zpos m1') by nia.
        replace (P * Q * (Zpos m1' * c)) with (P * (Q * Zpos m1' * c)) by ring.
        apply Z.mul_le_mono_nonneg_l; [lia|].
        apply Z.mul_le_mono_nonneg_r; lia.
      + rewrite Heq.
        pose proof (Z.pow_pos_nonneg 2 (e1' + 200) ltac:(lia) ltac:(lia)).
        apply Z.mul_le_mono_nonneg_l; [lia|].
        apply Z.mul_le_mono_nonneg_r; lia. }
  rewrite Hs, Hs' in Hmono.
  pose proof (rne_mantissa (Zpos m1 * c) 1 eq_refl (Hq (Zpos m1) ltac:(lia))) as Hf.
  pose proof (rne_mantissa (Zpos m1' * c) 1 eq_refl (Hq (Zpos m1') ltac:(lia))) as Hf'.
  rewrite pow_prec, pow_prec_1 in Hf, Hf'.
  apply le_finite. rewrite !Z2Pos.id by lia.
  unfold lex_le in *. cbn [fst snd] in *. lia.
Qed.

Lemma mul_normal (m1 m2 : positive) (e1 e2 : Z) :
  normal53 m1 -> normal53 m2 ->
  -200 <= e1 <= 200 -> -200 <= e2 <= 200 ->
  normal_in (e1 + e2 + 52) (e1 + e2 + 54)
            (mul (S754_finite false m1 e1) (S754_finite false m2 e2)).
Proof.
  intros H1 H2 He1 He2.
  rewrite mul_rne by (try assumption; lia).
  pose proof (normal53_bounds m1 H1) as Hb1.
  pose proof (normal53_bounds m2 H2) as Hb2.
  rewrite pow_prec, pow_prec_1 in Hb1, Hb2.
  set (A := Zpos m1 * Zpos m2).
  assert (Hq : 2 ^ (2 * prec - 1 - 1) <= A / 1 < 2 ^ (2 * prec)).
  { rewrite Z.div_1_r. unfold A.
    change (2 ^ (2 * prec - 1 - 1)) with (4503599627370496 * 4503599627370496).
    change (2 ^ (2 * prec)) with (9007199254740992 * 9007199254740992). nia. }
  assert (Hq' : 2 ^ (prec - 1) <= A / 1).
  { etransitivity; [|exact (proj1 Hq)]. apply Z.pow_le_mono_r; unfold prec; lia. }
  pose proof (rne_mantissa A 1 eq_refl Hq') as Hf.
  pose proof (excess_bounds A 1 (2 * prec - 1) (2 * prec) eq_refl eq_refl Hq) as Hx.
  pose proof (rne_exponent A 1) as Hs.
  rewrite pow_prec, pow_prec_1 in Hf.
  eexists _, _. split; [reflexivity|]. split.
  - apply normal53_of_bounds. rewrite Z2Pos.id, pow_prec, pow_prec_1 by lia. lia.
  - unfold prec in *. lia.
Qed.

(** *** Math.round *)

Lemma Math_round_finite (m : positive) (e : Z) :
  e < 0 -> Math_round (S754_finite false m e) = of_int (nearest_int m e).
Proof.
  intros He. unfold Math_round.
  replace (0 <=? e) with false by (symmetry; apply Z.leb_gt; lia).
  cbn [cond_Zopp]. fold (nearest_int m e).
  destruct (Z.eqb_spec (nearest_int m e) 0) as [->|]; reflexivity.
Qed.

Lemma nearest_int_nonneg (m : positive) (e : Z) : e < 0 -> 0 <= nearest_int m e.
Proof.
  intros He. unfold nearest_int.
  pose proof (Z.pow_pos_nonneg 2 (- e) ltac:(lia) ltac:(lia)).
  pose proof (Z.pow_pos_nonneg 2 (- e + 1) ltac:(lia) ltac:(lia)).
  apply Z.div_pos; lia.
Qed.

Lemma nearest_int_mono (m m' : positive) (e e' : Z) :
  normal53 m -> normal53 m' -> e < 0 -> e' < 0 ->
  lex_le (Zpos m, e) (Zpos m', e') ->
  nearest_int m e <= nearest_int m' e'.
Proof.
  intros Hm Hm' He He' Hle.
  pose proof (normal53_bounds m Hm) as Hb.
  pose proof (normal53_bounds m' Hm') as Hb'.
  rewrite pow_prec, pow_prec_1 in *.
  unfold nearest_int.
  destruct Hle as [Hlt|[Heq Hmm]]; cbn [fst snd] in *.
  - set (j := e' - e).
    assert (Hj : 2 ^ 1 <= 2 ^ j) by (apply Z.pow_le_mono_r; unfold j; lia).
    change (2 ^ 1) with 2 in Hj.
    assert (Hp : 0 < 2 ^ (- e')) by (apply Z.pow_pos_nonneg; lia).
    assert (Hp1 : 0 < 2 ^ (- e' + 1)) by (apply Z.pow_pos_nonneg; lia).
    rewrite <- (Z.div_mul_cancel_l (2 * Zpos m' + 2 ^ (- e')) (2 ^ (- e' + 1)) (2 ^ j))
      by lia.
    replace (2 ^ j * 2 ^ (- e' + 1)) with (2 ^ (- e + 1))
      by (rewrite <- Z.pow_add_r by (unfold j; lia); f_equal; unfold j; lia).
    replace (2 ^ j * (2 * Zpos m' + 2 ^ (- e')))
      with (2 * (2 ^ j * Zpos m') + 2 ^ (- e)).
    + apply Z.div_le_mono; [apply Z.pow_pos_nonneg; lia|]. nia.
    + replace (2 ^ (- e)) with (2 ^ j * 2 ^ (- e'))
        by (rewrite <- Z.pow_add_r by (unfold j; lia); f_equal; unfold j; lia).
      ring.
  - subst e'. apply Z.div_le_mono; [apply Z.pow_pos_nonneg; lia|]. lia.
Qed.

Lemma of_int_mono (z z' : Z) :
  0 <= z <= z' -> z' < 2 ^ prec -> le (of_int z) (of_int z') = true.
Proof.
  intros Hz Hz'.
  destruct (Z.eq_dec z 0) as [->|Hz0].
  - destruct (Z.eq_dec z' 0) as [->|Hz0']; [reflexivity|].
    destruct (of_int_exact z' ltac:(lia)) as [-> _]. reflexivity.
  - destruct (of_int_exact z ltac:(lia)) as [-> Hn].
    destruct (of_int_exact z' ltac:(lia)) as [-> Hn'].
    apply le_finite.
    pose proof (normal53_bounds _ Hn) as Hb.
    pose proof (normal53_bounds _ Hn') as Hb'.
    rewrite pow_prec_1 in Hb, Hb'.
    rewrite !Z2Pos.id in * by lia.
    pose proof (Zdigits2_mono z z' ltac:(lia) ltac:(lia)) as Hd.
    unfold lex_le. cbn [fst snd].
    destruct (Z.eq_dec (Zdigits2 z) (Zdigits2 z')) as [Heq|Hne]; [right|left; lia].
    split; [lia|]. rewrite Heq.
    apply Z.mul_le_mono_nonneg_r; [|lia].
    apply Z.pow_nonneg. lia.
Qed.

(** *** The progress value *)

Lemma of_int_100 : of_int 100 = S754_finite false hundred_m (-46).
Proof. reflexivity. Qed.

Lemma hundred_normal : normal53 hundred_m.
Proof. reflexivity. Qed.

Lemma of_int_lex (z z' : Z) (m m' : positive) (e e' : Z) :
  0 < z <= z' -> z' < 2 ^ prec ->
  of_int z = S754_finite false m e -> of_int z' = S754_finite false m' e' ->
  lex_le (Zpos m, e) (Zpos m', e').
Proof.
  intros Hz Hz' H1 H2. apply le_finite. rewrite <- H1, <- H2.
  apply of_int_mono; lia.
Qed.

Lemma scaled_top (N : Z) :
  0 < N < 2 ^ prec -> scaled N N = of_int 100.
Proof.
  intros HN. unfold scaled.
  destruct (of_int_normal N HN) as (m & e & -> & Hm & He).
  rewrite div_self by (try assumption; lia). reflexivity.
Qed.

Lemma scaled_mono (k k' N : Z) :
  0 < k <= k' -> k' < 2 ^ prec -> 0 < N < 2 ^ prec ->
  le (scaled k N) (scaled k' N) = true.
Proof.
  intros Hk Hk' HN. unfold scaled.
  destruct (of_int_normal N HN) as (mN & eN & HeqN & HmN & HeN).
  destruct (of_int_normal k ltac:(lia)) as (m & e & Heq & Hm & He).
  destruct (of_int_normal k' ltac:(lia)) as (m' & e' & Heq' & Hm' & He').
  pose proof (of_int_lex k k' m m' e e' Hk Hk' Heq Heq') as Hlex.
  rewrite HeqN, Heq, Heq', of_int_100.
  pose proof (div_mono m m' mN e e' eN Hm Hm' HmN
                ltac:(lia) ltac:(lia) ltac:(lia) Hlex) as Hdiv.
  destruct (div_normal m mN e eN Hm HmN ltac:(lia) ltac:(lia))
    as (q & f & Hq & Hqn & Hf).
  destruct (div_normal m' mN e' eN Hm' HmN ltac:(lia) ltac:(lia))
    as (q' & f' & Hq' & Hqn' & Hf').
  rewrite Hq, Hq' in *.
  apply mul_mono; try assumption; try lia; [apply hundred_normal|].
  now apply le_finite.
Qed.

Lemma scaled_normal (k N : Z) :
  0 < k <= N -> N < 2 ^ prec ->
  exists m e, scaled k N = S754_finite false m e /\ normal53 m /\
              -200 <= e <= -46 /\ nearest_int m e <= 100.
Proof.
  intros Hk HN.
  pose proof (scaled_mono k N N Hk HN ltac:(lia)) as Hle.
  rewrite (scaled_top N) in Hle by lia.
  unfold scaled in *.
  destruct (of_int_normal N ltac:(lia)) as (mN & eN & HeqN & HmN & HeN).
  destruct (of_int_normal k ltac:(lia)) as (m & e & Heq & Hm & He).
  rewrite HeqN, Heq in *. rewrite of_int_100 in *.
  destruct (div_normal m mN e eN Hm HmN ltac:(lia) ltac:(lia))
    as (q & f & Hq & Hqn & Hf).
  rewrite Hq in *.
  destruct (mul_normal q hundred_m f (-46) Hqn hundred_normal ltac:(lia) ltac:(lia))
    as (p & g & Hp & Hpn & Hg).
  rewrite Hp in *. apply le_finite in Hle.
  exists p, g. split; [reflexivity|]. split; [assumption|].
  assert (Hg46 : g <= -46) by (unfold lex_le in Hle; cbn [fst snd] in Hle; lia).
  split; [lia|].
  change 100 with (nearest_int hundred_m (-46)).
  apply nearest_int_mono; try assumption; try lia. apply hundred_normal.
Qed.

(** The last pass sets the progress to 100. *)
Lemma progress_after_last (N : Z) :
  0 < N < 2 ^ prec -> progress_after (N - 1) N = of_int 100.
Proof.
  intros HN. unfold progress_after.
  replace (N - 1 + 1) with N by lia.
  fold (scaled N N). rewrite scaled_top by assumption. reflexivity.
Qed.

(** The progress is an integer between 0 and 100. *)
Lemma progress_after_integer (i N : Z) :
  0 <= i < N -> N < 2 ^ prec ->
  exists z, 0 <= z <= 100 /\ progress_after i N = of_int z.
Proof.
  intros Hi HN. unfold progress_after. fold (scaled (i + 1) N).
  destruct (scaled_normal (i + 1) N ltac:(lia) HN) as (m & e & -> & Hm & He & Hz).
  rewrite Math_round_finite by lia.
  exists (nearest_int m e). split; [|reflexivity].
  split; [apply nearest_int_nonneg; lia|assumption].
Qed.

(** The progress never goes down from one pass to a later one. *)
Lemma progress_after_mono (i j N : Z) :
  0 <= i <= j -> j < N -> N < 2 ^ prec ->
  le (progress_after i N) (progress_after j N) = true.
Proof.
  intros Hi Hj HN. unfold progress_after.
  fold (scaled (i + 1) N). fold (scaled (j + 1) N).
  pose proof (scaled_mono (i + 1) (j + 1) N ltac:(lia) ltac:(lia) ltac:(lia)) as Hle.
  destruct (scaled_normal (i + 1) N ltac:(lia) HN) as (m & e & Hs & Hm & He & Hz).
  destruct (scaled_normal (j + 1) N ltac:(lia) HN) as (m' & e' & Hs' & Hm' & He' & Hz').
  rewrite Hs, Hs' in *.
  rewrite !Math_round_finite by lia.
  apply of_int_mono.
  - split; [apply nearest_int_nonneg; lia|].
    apply nearest_int_mono; try assumption; try lia. now apply le_finite.
  - rewrite pow_prec. lia.
Qed.

(** ** Strings *)

Section SplitJoin.

Variable sep : N.

Lemma split_not_nil (s : jsstring) : split sep s <> [].
Proof.
  destruct s as [|c s]; simpl; [discriminate|].
  destruct (N.eqb c sep); [discriminate|].
  destruct (split sep s); discriminate.
Qed.

Lemma split_free (s : jsstring) : ~ In sep s -> split sep s = [s].
Proof.
  induction s as [|c s IH]; intros Hfree; simpl; [reflexivity|].
  destruct (N.eqb_spec c sep) as [->|Hne].
  - exfalso. apply Hfree. now left.
  - rewrite IH; [reflexivity|]. intros Hin. apply Hfree. now right.
Qed.

Lemma split_at_sep (t rest : jsstring) :
  ~ In sep t -> split sep (t ++ sep :: rest) = t :: split sep rest.
Proof.
  induction t as [|c t IH]; intros Hfree; simpl.
  - now rewrite N.eqb_refl.
  - destruct (N.eqb_spec c sep) as [->|Hne].
    + exfalso. apply Hfree. now left.
    + rewrite IH; [reflexivity|]. intros Hin. apply Hfree. now right.
Qed.

Lemma split_join (parts : list jsstring) :
  parts <> [] ->
  Forall (fun p => ~ In sep p) parts ->
  split sep (join sep parts) = parts.
Proof.
  induction parts as [|p ps IH]; intros Hne Hall; [congruence|].
  inversion Hall as [|? ? Hp Hps]; subst.
  destruct ps as [|q ps].
  - simpl. now apply split_free.
  - change (join sep (p :: q :: ps)) with (p ++ sep :: join sep (q :: ps)).
    rewrite split_at_sep by assumption.
    rewrite IH; [reflexivity|discriminate|assumption].
Qed.

End SplitJoin.

Lemma trim_start_nil (s : jsstring) :
  trim_start s = [] <-> forallb is_ws s = true.
Proof.
  induction s as [|c s IH]; simpl; [tauto|].
  destruct (is_ws c) eqn:Hc; simpl; [exact IH|].
  split; discriminate.
Qed.

Lemma trim_start_all_ws (s : jsstring) :
  forallb is_ws (trim_start s) = true -> trim_start s = [].
Proof.
  induction s as [|c s IH]; simpl; [reflexivity|].
  destruct (is_ws c) eqn:Hc; [exact IH|].
  simpl. rewrite Hc. discriminate.
Qed.

Lemma forallb_rev {A} (f : A -> bool) (l : list A) :
  forallb f (rev l) = forallb f l.
Proof.
  induction l as [|a l IH]; simpl; [reflexivity|].
  rewrite forallb_app, IH. simpl. rewrite andb_true_r. apply andb_comm.
Qed.

(** A line is kept by the filter of the import exactly when one of its
    code units is not white space. *)
Lemma truthy_trim (s : jsstring) :
  truthy (trim s) = negb (forallb is_ws s).
Proof.
  unfold trim.
  destruct (forallb is_ws s) eqn:Hs; simpl.
  - apply trim_start_nil in Hs. now rewrite Hs.
  - destruct (rev (trim_start (rev (trim_start s)))) as [|c r] eqn:Hr;
      [|reflexivity].
    exfalso.
    apply (f_equal (@rev N)) in Hr. rewrite rev_involutive in Hr. simpl in Hr.
    apply trim_start_nil in Hr. rewrite forallb_rev in Hr.
    apply trim_start_all_ws in Hr. apply trim_start_nil in Hr. congruence.
Qed.

Lemma truthy_trim_with (c : N) (s : jsstring) :
  is_ws c = false -> In c s -> truthy (trim s) = true.
Proof.
  intros Hc Hin. rewrite truthy_trim.
  destruct (forallb is_ws s) eqn:Hs; [|reflexivity].
  rewrite forallb_forall in Hs. specialize (Hs c Hin). congruence.
Qed.

(** ** Import of one line *)

Lemma before_pipe_free (line : jsstring) : ~ In pipe (before_pipe line).
Proof.
  induction line as [|c s IH]; simpl; [tauto|].
  destruct (N.eqb_spec c pipe) as [->|Hne]; simpl; [tauto|].
  intros [H|H]; [congruence|tauto].
Qed.

Lemma pipe_decompose (line : jsstring) :
  In pipe line -> line = before_pipe line ++ pipe :: after_pipe line.
Proof.
  induction line as [|c s IH]; simpl; [tauto|].
  destruct (N.eqb_spec c pipe) as [->|Hne]; [reflexivity|].
  intros [H|H]; [congruence|]. simpl. f_equal. now apply IH.
Qed.

Lemma parse_line_no_pipe (line : jsstring) :
  ~ In pipe line ->
  parse_line line = mkBlog (or_else (Some line) default_title) line.
Proof.
  intros Hfree. unfold parse_line. rewrite split_free by assumption.
  reflexivity.
Qed.

Lemma parse_line_pipe (line : jsstring) :
  In pipe line ->
  parse_line line =
    mkBlog (or_else (Some (before_pipe line)) default_title)
           (or_else (Some (before_pipe (after_pipe line))) line).
Proof.
  intros Hin. unfold parse_line.
  rewrite (pipe_decompose line Hin) at 1 2.
  rewrite split_at_sep by apply before_pipe_free.
  simpl nth_error at 1.
  f_equal. f_equal.
  destruct (in_dec N.eq_dec pipe (after_pipe line)) as [Hin2|Hfree2].
  - rewrite (pipe_decompose _ Hin2) at 1.
    rewrite split_at_sep by apply before_pipe_free. reflexivity.
  - rewrite split_free by assumption. simpl.
    f_equal. clear Hin.
    induction (after_pipe line) as [|c s IH]; simpl; [reflexivity|].
    destruct (N.eqb_spec c pipe) as [->|Hne].
    + exfalso. apply Hfree2. now left.
    + f_equal. apply IH. intros H. apply Hfree2. now right.
Qed.

(** A text that is one line: the import sees that line alone. *)
Lemma import_lines_single (line : jsstring) :
  ~ In newline line -> forallb is_ws line = false ->
  import_lines line = [line].
Proof.
  intros Hnl Hws. unfold import_lines.
  rewrite split_free by assumption. simpl.
  now rewrite truthy_trim, Hws.
Qed.

(** C5, as the code has it: a line without a pipe gives a target whose
    url is the whole line and whose title is the whole line too; the
    placeholder title is not used. *)
Theorem import_line_without_pipe (line : jsstring) :
  ~ In pipe line -> ~ In newline line -> forallb is_ws line = false ->
  import_text line = [mkBlog line line].
Proof.
  intros Hpipe Hnl Hws. unfold import_text.
  rewrite import_lines_single by assumption. simpl.
  rewrite parse_line_no_pipe by assumption.
  destruct line as [|c s]; [discriminate|reflexivity].
Qed.

Lemma import_line_without_pipe_witness :
  import_text (lit "https://a.blogspot.com/1")
  = [mkBlog (lit "https://a.blogspot.com/1") (lit "https://a.blogspot.com/1")].
Proof.
  apply import_line_without_pipe.
  - vm_compute. intuition discriminate.
  - vm_compute. intuition discriminate.
  - reflexivity.
Defined.

(** C5 as stated fails: the line [https://a.blogspot.com/1] has no pipe,
    and its title is the line, not the placeholder. *)
Lemma import_line_without_pipe_title_not_default :
  let line := lit "https://a.blogspot.com/1" in
  ~ In pipe line /\
  import_text line = [mkBlog line line] /\
  import_text line <> [mkBlog default_title line].
Proof.
  split; [|split].
  - vm_compute. intuition discriminate.
  - reflexivity.
  - vm_compute. discriminate.
Qed.

(** C10, as the code has it: on a line with a pipe the title is the text
    before the first pipe, or the placeholder when that text is empty; the
    url is the text between the first pipe and the second (or the end of
    the line), or the whole line when that text is empty. What follows a
    second pipe is dropped. *)
Theorem import_line_with_pipe (line : jsstring) :
  In pipe line ->
  title (parse_line line)
  = (if truthy (before_pipe line) then before_pipe line else default_title) /\
  url (parse_line line)
  = (if truthy (before_pipe (after_pipe line))
     then before_pipe (after_pipe line) else line).
Proof.
  intros Hin. rewrite parse_line_pipe by assumption. split; reflexivity.
Qed.

Lemma import_line_with_pipe_witness :
  let line := lit "Post A|https://a.blogspot.com/1|extra" in
  title (parse_line line) = lit "Post A" /\
  url (parse_line line) = lit "https://a.blogspot.com/1".
Proof.
  apply (import_line_with_pipe (lit "Post A|https://a.blogspot.com/1|extra")).
  vm_compute. tauto.
Defined.

(** The url falls back to the whole line, pipe included, when nothing
    stands between the first pipe and the second. *)
Example import_trailing_pipe :
  parse_line (lit "Post A|") = mkBlog (lit "Post A") (lit "Post A|").
Proof. reflexivity. Qed.

(** C10 as stated fails on a line that starts with a pipe: the text before
    the first pipe is empty, the title is the placeholder. *)
Lemma import_line_with_pipe_empty_title :
  let line := lit "|https://a.blogspot.com/1" in
  In pipe line /\
  before_pipe line = [] /\
  title (parse_line line) = default_title /\
  title (parse_line line) <> before_pipe line.
Proof.
  repeat split.
  - vm_compute. tauto.
  - vm_compute. discriminate.
Qed.

(** ** The file: what is read back *)

(** *** Bits *)

Ltac nlia := zify; Z.to_euclidean_division_equations; lia.

Lemma land_low (a k : N) : N.land a (N.ones k) = (a mod 2 ^ k)%N.
Proof. apply N.land_ones. Qed.

Lemma lor_shiftl (a b k : N) :
  (b < 2 ^ k)%N -> N.lor (N.shiftl a k) b = (a * 2 ^ k + b)%N.
Proof.
  intros Hb.
  assert (H0 : N.land (N.shiftl a k) b = 0%N).
  { rewrite <- (N.mod_small b (2 ^ k)) by assumption.
    rewrite <- N.land_ones, N.land_assoc, (N.land_comm _ b), <- N.land_assoc.
    rewrite N.land_ones, N.shiftl_mul_pow2, N.Div0.mod_mul.
    apply N.land_0_r. }
  rewrite <- N.lxor_lor, <- N.add_nocarry_lxor by assumption.
  now rewrite N.shiftl_mul_pow2.
Qed.

Lemma lor_0x80 (y : N) : (y < 64)%N -> N.lor 0x80 y = (128 + y)%N.
Proof.
  intros Hy. change 0x80%N with (N.shiftl 2 6).
  rewrite lor_shiftl by exact Hy. reflexivity.
Qed.

Lemma land_0x3F (a : N) : N.land a 0x3F = (a mod 64)%N.
Proof. apply (land_low a 6). Qed.
Lemma land_0x1F (a : N) : N.land a 0x1F = (a mod 32)%N.
Proof. apply (land_low a 5). Qed.
Lemma land_0xF (a : N) : N.land a 0xF = (a mod 16)%N.
Proof. apply (land_low a 4). Qed.
Lemma land_0x7 (a : N) : N.land a 0x7 = (a mod 8)%N.
Proof. apply (land_low a 3). Qed.
Lemma land_0x3FF (a : N) : N.land a 0x3FF = (a mod 1024)%N.
Proof. apply (land_low a 10). Qed.

Lemma continuation (c b : N) :
  N.lor (N.shiftl c 6) (N.land b 0x3F) = (c * 64 + b mod 64)%N.
Proof.
  rewrite land_0x3F, lor_shiftl; [reflexivity|].
  change (2 ^ 6)%N with 64%N. nlia.
Qed.

Lemma trailing (x : N) : N.lor 0x80 (N.land x 0x3F) = (128 + x mod 64)%N.
Proof. rewrite land_0x3F. apply lor_0x80. nlia. Qed.

(** *** One code point *)

Lemma utf8_bytes_1 (cp : N) : (cp <= 0x7F)%N -> utf8_bytes cp = [cp].
Proof.
  intros H. unfold utf8_bytes.
  destruct (N.leb_spec cp 0x7F); [reflexivity|lia].
Qed.

Lemma utf8_bytes_2 (cp : N) :
  (0x7F < cp <= 0x7FF)%N ->
  utf8_bytes cp = [(cp / 64 + 192)%N; (128 + cp mod 64)%N].
Proof.
  intros H. unfold utf8_bytes.
  destruct (N.leb_spec cp 0x7F); [lia|].
  destruct (N.leb_spec cp 0x7FF); [|lia].
  rewrite trailing, N.shiftr_div_pow2. reflexivity.
Qed.

Lemma utf8_bytes_3 (cp : N) :
  (0x7FF < cp <= 0xFFFF)%N ->
  utf8_bytes cp
  = [(cp / 4096 + 224)%N; (128 + (cp / 64) mod 64)%N; (128 + cp mod 64)%N].
Proof.
  intros H. unfold utf8_bytes.
  destruct (N.leb_spec cp 0x7F); [lia|].
  destruct (N.leb_spec cp 0x7FF); [lia|].
  destruct (N.leb_spec cp 0xFFFF); [|lia].
  rewrite !trailing, !N.shiftr_div_pow2. reflexivity.
Qed.

Lemma utf8_bytes_4 (cp : N) :
  (0xFFFF < cp)%N ->
  utf8_bytes cp
  = [(cp / 262144 + 240)%N; (128 + (cp / 4096) mod 64)%N;
     (128 + (cp / 64) mod 64)%N; (128 + cp mod 64)%N].
Proof.
  intros H. unfold utf8_bytes.
  destruct (N.leb_spec cp 0x7F); [lia|].
  destruct (N.leb_spec cp 0x7FF); [lia|].
  destruct (N.leb_spec cp 0xFFFF); [lia|].
  rewrite !trailing, !N.shiftr_div_pow2. reflexivity.
Qed.

(** The decoder on a byte that continues a code point. *)
Lemma utf8_handler_next (c seen needed lo hi b : N) :
  needed <> 0%N -> (lo <= b <= hi)%N ->
  utf8_handler (mkUtf8 c seen needed lo hi) b
  = if (seen + 1 =? needed)%N then ([(c * 64 + b mod 64)%N], utf8_initial)
    else ([], mkUtf8 (c * 64 + b mod 64) (seen + 1) needed 0x80 0xBF).
Proof.
  intros Hn Hb. unfold utf8_handler.
  cbn [bytes_needed lower_boundary upper_boundary code_point bytes_seen].
  destruct (N.eqb_spec needed 0); [contradiction|].
  destruct (N.leb_spec lo b); [|lia]. destruct (N.leb_spec b hi); [|lia].
  cbn [andb negb]. rewrite continuation. reflexivity.
Qed.

Lemma utf8_lead_1 (b : N) : (b <= 0x7F)%N -> utf8_lead b = ([b], utf8_initial).
Proof.
  intros H. unfold utf8_lead. destruct (N.leb_spec b 0x7F); [reflexivity|lia].
Qed.

Lemma utf8_lead_2 (a : N) :
  (2 <= a < 32)%N -> utf8_lead (a + 192) = ([], mkUtf8 a 0 1 0x80 0xBF).
Proof.
  intros H. unfold utf8_lead.
  destruct (N.leb_spec (a + 192) 0x7F); [lia|].
  destruct (N.leb_spec 0xC2 (a + 192)); [|lia].
  destruct (N.leb_spec (a + 192) 0xDF); [|lia].
  cbn [andb]. rewrite land_0x1F. f_equal. f_equal. nlia.
Qed.

Lemma utf8_lead_3 (a : N) :
  (a < 16)%N ->
  utf8_lead (a + 224)
  = ([], mkUtf8 a 0 2 (if (a =? 0)%N then 0xA0 else 0x80)
                      (if (a =? 13)%N then 0x9F else 0xBF)).
Proof.
  intros H. unfold utf8_lead.
  destruct (N.leb_spec (a + 224) 0x7F); [lia|].
  destruct (N.leb_spec 0xC2 (a + 224)); [|lia].
  destruct (N.leb_spec (a + 224) 0xDF); [lia|].
  destruct (N.leb_spec 0xE0 (a + 224)); [|lia].
  destruct (N.leb_spec (a + 224) 0xEF); [|lia].
  cbn [andb]. rewrite land_0xF.
  replace ((a + 224) mod 16)%N with a by nlia.
  f_equal. f_equal.
  - destruct (N.eqb_spec (a + 224) 0xE0), (N.eqb_spec a 0); try reflexivity; lia.
  - destruct (N.eqb_spec (a + 224) 0xED), (N.eqb_spec a 13); try reflexivity; lia.
Qed.

Lemma utf8_lead_4 (a : N) :
  (a < 5)%N ->
  utf8_lead (a + 240)
  = ([], mkUtf8 a 0 3 (if (a =? 0)%N then 0x90 else 0x80)
                      (if (a =? 4)%N then 0x8F else 0xBF)).
Proof.
  intros H. unfold utf8_lead.
  destruct (N.leb_spec (a + 240) 0x7F); [lia|].
  destruct (N.leb_spec 0xC2 (a + 240)); [|lia].
  destruct (N.leb_spec (a + 240) 0xDF); [lia|].
  destruct (N.leb_spec 0xE0 (a + 240)); [|lia].
  destruct (N.leb_spec (a + 240) 0xEF); [lia|].
  destruct (N.leb_spec 0xF0 (a + 240)); [|lia].
  destruct (N.leb_spec (a + 240) 0xF4); [|lia].
  cbn [andb]. rewrite land_0x7.
  replace ((a + 240) mod 8)%N with a by nlia.
  f_equal. f_equal.
  - destruct (N.eqb_spec (a + 240) 0xF0), (N.eqb_spec a 0); try reflexivity; lia.
  - destruct (N.eqb_spec (a + 240) 0xF4), (N.eqb_spec a 4); try reflexivity; lia.
Qed.

Lemma utf8_decode_lead (b : N) (rest : list N) :
  utf8_decode utf8_initial (b :: rest)
  = fst (utf8_lead b) ++ utf8_decode (snd (utf8_lead b)) rest.
Proof.
  cbn [utf8_decode]. unfold utf8_handler. cbn [bytes_needed utf8_initial N.eqb].
  destruct (utf8_lead b). reflexivity.
Qed.

Lemma utf8_decode_next (c seen needed lo hi b : N) (rest : list N) :
  needed <> 0%N -> (lo <= b <= hi)%N ->
  utf8_decode (mkUtf8 c seen needed lo hi) (b :: rest)
  = if (seen + 1 =? needed)%N
    then (c * 64 + b mod 64)%N :: utf8_decode utf8_initial rest
    else utf8_decode (mkUtf8 (c * 64 + b mod 64) (seen + 1) needed 0x80 0xBF) rest.
Proof.
  intros Hn Hb. cbn [utf8_decode]. rewrite utf8_handler_next by assumption.
  destruct (seen + 1 =? needed)%N; reflexivity.
Qed.

(** The decoder gives back an encoded code point. *)
Lemma utf8_decode_bytes (cp : N) (rest : list N) :
  scalar cp ->
  utf8_decode utf8_initial (utf8_bytes cp ++ rest)
  = cp :: utf8_decode utf8_initial rest.
Proof.
  unfold scalar. intros Hs.
  destruct (N.le_gt_cases cp 0x7F) as [H1|H1].
  { rewrite utf8_bytes_1 by assumption. cbn [List.app].
    rewrite utf8_decode_lead, utf8_lead_1 by assumption. reflexivity. }
  destruct (N.le_gt_cases cp 0x7FF) as [H2|H2].
  { rewrite utf8_bytes_2 by lia. cbn [List.app].
    rewrite utf8_decode_lead, utf8_lead_2 by nlia. cbn [fst snd List.app].
    rewrite utf8_decode_next by (try discriminate; nlia).
    change (0 + 1 =? 1)%N with true. cbv iota. f_equal. nlia. }
  destruct (N.le_gt_cases cp 0xFFFF) as [H3|H3].
  { rewrite utf8_bytes_3 by lia. cbn [List.app].
    rewrite utf8_decode_lead, utf8_lead_3 by nlia. cbn [fst snd List.app].
    rewrite utf8_decode_next;
      [|discriminate
       |destruct (N.eqb_spec (cp / 4096) 0), (N.eqb_spec (cp / 4096) 13); nlia].
    change (0 + 1 =? 2)%N with false. cbv iota.
    rewrite utf8_decode_next by (try discriminate; nlia).
    change (0 + 1 + 1 =? 2)%N with true. cbv iota. f_equal. nlia. }
  rewrite utf8_bytes_4 by lia. cbn [List.app].
  rewrite utf8_decode_lead, utf8_lead_4 by nlia. cbn [fst snd List.app].
  rewrite utf8_decode_next;
    [|discriminate
     |destruct (N.eqb_spec (cp / 262144) 0), (N.eqb_spec (cp / 262144) 4); nlia].
  change (0 + 1 =? 3)%N with false. cbv iota.
  rewrite utf8_decode_next by (try discriminate; nlia).
  change (0 + 1 + 1 =? 3)%N with false. cbv iota.
  rewrite utf8_decode_next by (try discriminate; nlia).
  change (0 + 1 + 1 + 1 =? 3)%N with true. cbv iota. f_equal. nlia.
Qed.

Lemma utf8_decode_encode (cps : list N) :
  Forall scalar cps -> utf8_decode utf8_initial (utf8_encode cps) = cps.
Proof.
  induction 1 as [|cp cps Hcp _ IH]; [reflexivity|].
  unfold utf8_encode in *. cbn [flat_map].
  rewrite utf8_decode_bytes by assumption. now rewrite IH.
Qed.

(** *** A whole text *)

(** Induction on a string, a code unit or a pair of code units at a time. *)
Lemma pairs_ind (P : jsstring -> Prop) :
  P [] -> (forall c, P [c]) ->
  (forall c d s, P s -> P (d :: s) -> P (c :: d :: s)) ->
  forall s, P s.
Proof.
  intros H0 H1 H2 s.
  enough (H : P s /\ forall c, P (c :: s)) by apply H.
  induction s as [|d s [IHs IHc]]; split; auto.
Qed.

Lemma surrogate_cases (c : N) :
  (is_lead_surrogate c = true /\ (0xD800 <= c <= 0xDBFF)%N) \/
  (is_lead_surrogate c = false /\ is_trail_surrogate c = true
   /\ (0xDC00 <= c <= 0xDFFF)%N) \/
  (is_lead_surrogate c = false /\ is_trail_surrogate c = false
   /\ (c < 0xD800 \/ 0xDFFF < c)%N).
Proof.
  unfold is_lead_surrogate, is_trail_surrogate.
  destruct (N.leb_spec 0xD800 c), (N.leb_spec c 0xDBFF),
    (N.leb_spec 0xDC00 c), (N.leb_spec c 0xDFFF); cbn [andb]; lia.
Qed.

Lemma pair_value (c d : N) :
  (0xD800 <= c <= 0xDBFF)%N -> (0xDC00 <= d <= 0xDFFF)%N ->
  let cp := (0x10000 + N.shiftl (c - 0xD800) 10 + (d - 0xDC00))%N in
  (0x10000 <= cp < 0x110000)%N /\ code_units cp = [c; d].
Proof.
  intros Hc Hd cp. unfold cp. rewrite N.shiftl_mul_pow2.
  change (2 ^ 10)%N with 1024%N. split; [lia|].
  unfold code_units.
  destruct (N.ltb_spec (0x10000 + (c - 0xD800) * 1024 + (d - 0xDC00)) 0x10000);
    [lia|].
  rewrite land_0x3FF, N.shiftr_div_pow2. change (2 ^ 10)%N with 1024%N.
  f_equal; [|f_equal]; nlia.
Qed.

Lemma scalar_values_scalar (s : jsstring) :
  units s -> Forall scalar (scalar_values s).
Proof.
  unfold units.
  induction s as [|c|c d s IHs IHd] using pairs_ind; intros Hu.
  - constructor.
  - apply Forall_inv in Hu. cbn [scalar_values].
    destruct (surrogate_cases c) as [(-> & _)|[(-> & -> & _)|(-> & -> & Hc)]];
      cbv iota; (constructor; [|constructor]); unfold scalar, replacement; lia.
  - pose proof (Forall_inv Hu) as Hc. cbv beta in Hc. apply Forall_inv_tail in Hu.
    pose proof (Forall_inv_tail Hu) as Hs.
    change (scalar_values (c :: d :: s))
      with (if is_lead_surrogate c then
              if is_trail_surrogate d
              then (0x10000 + N.shiftl (c - 0xD800) 10 + (d - 0xDC00))%N
                   :: scalar_values s
              else replacement :: scalar_values (d :: s)
            else if is_trail_surrogate c then replacement :: scalar_values (d :: s)
            else c :: scalar_values (d :: s)).
    destruct (surrogate_cases c) as [(-> & Hc')|[(-> & -> & _)|(-> & -> & Hc')]];
      cbv iota.
    + destruct (surrogate_cases d) as [(_ & Hd)|[(_ & -> & Hd)|(_ & -> & Hd)]];
        cbv iota.
      * replace (is_trail_surrogate d) with false
          by (unfold is_trail_surrogate;
              destruct (N.leb_spec 0xDC00 d), (N.leb_spec d 0xDFFF);
              cbn [andb]; lia).
        constructor; [unfold scalar, replacement; lia|auto].
      * constructor; [|auto].
        destruct (pair_value c d Hc' Hd) as [Hv _]. unfold scalar. lia.
      * constructor; [unfold scalar, replacement; lia|auto].
    + constructor; [unfold scalar, replacement; lia|auto].
    + constructor; [unfold scalar; lia|auto].
Qed.

Lemma well_formed_units (s : jsstring) : well_formed s = true -> units s.
Proof.
  unfold units.
  induction s as [|c|c d s IHs IHd] using pairs_ind; intros Hw.
  - constructor.
  - cbn [well_formed] in Hw. apply andb_true_iff in Hw. destruct Hw as [Hc _].
    constructor; [now apply N.ltb_lt|constructor].
  - change (well_formed (c :: d :: s))
      with ((c <? 0x10000)%N &&
            (if is_lead_surrogate c then is_trail_surrogate d && well_formed s
             else negb (is_trail_surrogate c) && well_formed (d :: s))) in Hw.
    apply andb_true_iff in Hw. destruct Hw as [Hc Hw].
    apply N.ltb_lt in Hc. constructor; [assumption|].
    destruct (is_lead_surrogate c).
    + apply andb_true_iff in Hw. destruct Hw as [Hd Hw].
      constructor; [|auto].
      destruct (surrogate_cases d) as [(_ & H)|[(_ & _ & H)|(_ & E & _)]];
        [lia|lia|congruence].
    + apply andb_true_iff in Hw. destruct Hw as [_ Hw]. auto.
Qed.

(** A well-formed string is the string of its scalar values. *)
Lemma well_formed_scalar_values (s : jsstring) :
  well_formed s = true -> flat_map code_units (scalar_values s) = s.
Proof.
  induction s as [|c|c d s IHs IHd] using pairs_ind; intros Hw.
  - reflexivity.
  - cbn [well_formed] in Hw. apply andb_true_iff in Hw. destruct Hw as [Hc Hw].
    cbn [scalar_values].
    destruct (surrogate_cases c) as [(E & _)|[(E & E' & _)|(E & E' & _)]];
      rewrite E in *; try rewrite E' in *; try discriminate.
    cbn [flat_map]. unfold code_units. rewrite Hc. reflexivity.
  - change (well_formed (c :: d :: s))
      with ((c <? 0x10000)%N &&
            (if is_lead_surrogate c then is_trail_surrogate d && well_formed s
             else negb (is_trail_surrogate c) && well_formed (d :: s))) in Hw.
    change (scalar_values (c :: d :: s))
      with (if is_lead_surrogate c then
              if is_trail_surrogate d
              then (0x10000 + N.shiftl (c - 0xD800) 10 + (d - 0xDC00))%N
                   :: scalar_values s
              else replacement :: scalar_values (d :: s)
            else if is_trail_surrogate c then replacement :: scalar_values (d :: s)
            else c :: scalar_values (d :: s)).
    apply andb_true_iff in Hw. destruct Hw as [Hc Hw].
    destruct (surrogate_cases c) as [(E & Hc')|[(E & E' & _)|(E & E' & _)]];
      rewrite E in *; try rewrite E' in *.
    + apply andb_true_iff in Hw. destruct Hw as [Hd Hw]. rewrite Hd.
      assert (Hd' : (0xDC00 <= d <= 0xDFFF)%N).
      { destruct (surrogate_cases d) as [(_ & H)|[(_ & _ & H)|(_ & F & _)]];
          [|lia|congruence].
        unfold is_trail_surrogate in Hd.
        destruct (N.leb_spec 0xDC00 d), (N.leb_spec d 0xDFFF);
          cbn [andb] in Hd; try discriminate; lia. }
      cbn [flat_map]. destruct (pair_value c d Hc' Hd') as [_ ->].
      cbn [List.app]. now rewrite IHs.
    + discriminate.
    + cbn [negb andb] in Hw. cbn [flat_map]. rewrite IHd by assumption.
      unfold code_units. rewrite Hc. reflexivity.
Qed.

(** *** The byte order mark *)

Lemma utf8_bytes_mark : utf8_bytes byte_order_mark = [0xEF; 0xBB; 0xBF]%N.
Proof. reflexivity. Qed.

(** The encoding of a text starts with a byte order mark only when the
    text starts with U+FEFF. *)
Lemma BOM_sniff_encode (cp : N) (cps : list N) :
  scalar cp -> Forall scalar cps ->
  BOM_sniff (utf8_encode (cp :: cps))
  = if (cp =? byte_order_mark)%N then Some UTF_8 else None.
Proof.
  unfold scalar, byte_order_mark. intros Hs Hall.
  unfold utf8_encode. cbn [flat_map]. fold (utf8_encode cps).
  assert (Hnext : forall b1 more,
             (b1 < 0xEF)%N -> BOM_sniff (b1 :: more) = None).
  { intros b1 more Hb. unfold BOM_sniff. destruct more as [|b2 more'];
      [reflexivity|].
    destruct (N.eqb_spec b1 0xEF); [lia|].
    destruct (N.eqb_spec b1 0xFE); [lia|].
    destruct (N.eqb_spec b1 0xFF); [lia|]. reflexivity. }
  destruct (N.eqb_spec cp 0xFEFF) as [->|Hne].
  { reflexivity. }
  destruct (N.le_gt_cases cp 0x7F) as [H1|H1].
  { rewrite utf8_bytes_1 by assumption. apply Hnext. lia. }
  destruct (N.le_gt_cases cp 0x7FF) as [H2|H2].
  { rewrite utf8_bytes_2 by lia. apply Hnext. nlia. }
  destruct (N.le_gt_cases cp 0xFFFF) as [H3|H3].
  { rewrite utf8_bytes_3 by lia. cbn [List.app]. unfold BOM_sniff.
    destruct (N.eqb_spec (cp / 4096 + 224) 0xEF) as [E1|E1].
    - destruct (N.eqb_spec (128 + (cp / 64) mod 64) 0xBB) as [E2|E2].
      + destruct (N.eqb_spec (128 + cp mod 64) 0xBF) as [E3|E3]; [exfalso; nlia|].
        cbn [andb].
        destruct (N.eqb_spec (cp / 4096 + 224) 0xFE); [lia|].
        destruct (N.eqb_spec (cp / 4096 + 224) 0xFF); [lia|]. reflexivity.
      + cbn [andb].
        destruct (N.eqb_spec (cp / 4096 + 224) 0xFE); [lia|].
        destruct (N.eqb_spec (cp / 4096 + 224) 0xFF); [lia|]. reflexivity.
    - cbn [andb].
      destruct (N.eqb_spec (cp / 4096 + 224) 0xFE); [exfalso; nlia|].
      destruct (N.eqb_spec (cp / 4096 + 224) 0xFF); [exfalso; nlia|].
      reflexivity. }
  rewrite utf8_bytes_4 by lia. cbn [List.app]. unfold BOM_sniff.
  destruct (N.eqb_spec (cp / 262144 + 240) 0xEF); [exfalso; nlia|].
  destruct (N.eqb_spec (cp / 262144 + 240) 0xFE); [exfalso; nlia|].
  destruct (N.eqb_spec (cp / 262144 + 240) 0xFF); [exfalso; nlia|].
  reflexivity.
Qed.

(** Decoding the encoding of a text gives the text without the byte
    order mark at its start. *)
Lemma decode_encode (cps : list N) :
  Forall scalar cps -> decode (utf8_encode cps) = strip_mark cps.
Proof.
  intros Hall. destruct cps as [|cp cps]; [reflexivity|].
  pose proof (Forall_inv Hall) as Hcp. pose proof (Forall_inv_tail Hall) as Hcps.
  unfold decode. rewrite BOM_sniff_encode by assumption.
  unfold strip_mark.
  destruct (N.eqb_spec cp byte_order_mark) as [->|Hne].
  - unfold utf8_encode. cbn [flat_map]. rewrite utf8_bytes_mark.
    cbn [List.app skipn]. now apply utf8_decode_encode.
  - now apply utf8_decode_encode.
Qed.

Lemma Blob_one (content : jsstring) :
  Blob [content] = utf8_encode (scalar_values content).
Proof. unfold Blob. cbn [flat_map]. apply app_nil_r. Qed.

(** What is read back from the file of a text. *)
Lemma read_back (content : jsstring) :
  units content ->
  readAsText (Blob [content])
  = flat_map code_units (strip_mark (scalar_values content)).
Proof.
  intros Hu. unfold readAsText. rewrite Blob_one.
  rewrite decode_encode by now apply scalar_values_scalar. reflexivity.
Qed.

Lemma scalar_values_head (c : N) (s : jsstring) :
  is_lead_surrogate c = false -> is_trail_surrogate c = false ->
  scalar_values (c :: s) = c :: scalar_values s.
Proof. intros E E'. cbn [scalar_values]. now rewrite E, E'. Qed.

(** A well-formed text that does not start with U+FEFF is read back as
    it is. *)
Lemma read_back_well_formed (content : jsstring) :
  well_formed content = true ->
  readAsText (Blob [content]) = strip_mark content.
Proof.
  intros Hw. rewrite read_back by now apply well_formed_units.
  destruct content as [|c s]; [reflexivity|].
  unfold strip_mark at 2.
  destruct (N.eqb_spec c byte_order_mark) as [->|Hne].
  - rewrite scalar_values_head by reflexivity. cbn [strip_mark].
    change (byte_order_mark =? byte_order_mark)%N with true. cbv iota.
    change (well_formed (byte_order_mark :: s)) with (well_formed s) in Hw.
    now apply well_formed_scalar_values.
  - rewrite <- (well_formed_scalar_values (c :: s) Hw) at 2.
    f_equal.
    destruct (scalar_values (c :: s)) as [|cp cps] eqn:Hsv; [reflexivity|].
    unfold strip_mark.
    destruct (N.eqb_spec cp byte_order_mark) as [->|]; [|reflexivity].
    exfalso.
    pose proof (well_formed_scalar_values (c :: s) Hw) as Hback.
    rewrite Hsv in Hback. cbn [flat_map] in Hback.
    change (code_units byte_order_mark) with [byte_order_mark] in Hback.
    cbn [List.app] in Hback. congruence.
Qed.

(** *** The exported text *)

Lemma well_formed_cons (c : N) (s : jsstring) :
  (c < 0xD800)%N -> well_formed (c :: s) = well_formed s.
Proof.
  intros Hc. cbn [well_formed].
  destruct (surrogate_cases c) as [(_ & H)|[(_ & _ & H)|(-> & -> & _)]];
    [lia|lia|].
  destruct (N.ltb_spec c 0x10000); [reflexivity|lia].
Qed.

Lemma well_formed_app (a b : jsstring) :
  well_formed a = true -> well_formed b = true -> well_formed (a ++ b) = true.
Proof.
  intros Ha Hb. revert Ha.
  induction a as [|c|c d s IHs IHd] using pairs_ind; intros Ha.
  - exact Hb.
  - cbn [well_formed] in Ha. apply andb_true_iff in Ha. destruct Ha as [Hc Ha].
    destruct (is_lead_surrogate c) eqn:E; [discriminate|].
    rewrite andb_true_r in Ha. apply negb_true_iff in Ha.
    cbn [List.app well_formed]. now rewrite Hc, E, Ha, Hb.
  - change (well_formed (c :: d :: s))
      with ((c <? 0x10000)%N &&
            (if is_lead_surrogate c then is_trail_surrogate d && well_formed s
             else negb (is_trail_surrogate c) && well_formed (d :: s))) in Ha.
    change (well_formed ((c :: d :: s) ++ b))
      with ((c <? 0x10000)%N &&
            (if is_lead_surrogate c
             then is_trail_surrogate d && well_formed (s ++ b)
             else negb (is_trail_surrogate c) && well_formed ((d :: s) ++ b))).
    apply andb_true_iff in Ha. destruct Ha as [-> Ha]. cbn [andb].
    destruct (is_lead_surrogate c).
    + apply andb_true_iff in Ha. destruct Ha as [-> Ha]. now apply IHs.
    + apply andb_true_iff in Ha. destruct Ha as [-> Ha]. now apply IHd.
Qed.

Lemma export_line_well_formed (r : BlogResult) :
  text_target r -> well_formed (export_line r) = true.
Proof.
  intros [Ht Hu]. unfold export_line. apply well_formed_app; [assumption|].
  now rewrite well_formed_cons by reflexivity.
Qed.

Lemma export_content_well_formed (found : list BlogResult) :
  Forall text_target found -> well_formed (export_content found) = true.
Proof.
  unfold export_content.
  induction 1 as [|r rs Hr Hrs IH]; [reflexivity|].
  cbn [List.map join]. destruct (List.map export_line rs) as [|l ls] eqn:E.
  - now apply export_line_well_formed.
  - apply well_formed_app; [now apply export_line_well_formed|].
    now rewrite well_formed_cons by reflexivity.
Qed.

Lemma export_content_head (r : BlogResult) (others : list BlogResult) (c : N)
    (t : jsstring) :
  title r = c :: t -> exists s, export_content (r :: others) = c :: s.
Proof.
  intros Ht. unfold export_content, export_line. cbn [List.map join].
  rewrite Ht. destruct (List.map _ others); eexists; reflexivity.
Qed.

(** The file of an export is read back as the exported text. *)
Lemma export_read_back (found : list BlogResult) :
  Forall plain_target found -> Forall text_target found ->
  ~ starts_with_mark found ->
  readAsText (Blob [export_content found]) = export_content found.
Proof.
  intros Hplain Htext Hmark.
  rewrite read_back_well_formed by now apply export_content_well_formed.
  destruct found as [|r others]; [reflexivity|].
  apply Forall_inv in Hplain. destruct Hplain as [(Ht & _) _].
  destruct (title r) as [|c t] eqn:Etitle; [congruence|].
  destruct (export_content_head r others c t Etitle) as [s ->].
  unfold strip_mark.
  destruct (N.eqb_spec c byte_order_mark) as [->|]; [|reflexivity].
  exfalso. apply Hmark. now exists r, others, t.
Qed.

(** ** Export, then import *)

Lemma export_line_free (r : BlogResult) :
  plain_target r -> ~ In newline (export_line r).
Proof.
  intros [(_ & _ & Ht) (_ & _ & Hu)] Hin. unfold export_line in Hin.
  apply in_app_or in Hin. destruct Hin as [H|[H|H]]; [tauto|discriminate|tauto].
Qed.

Lemma export_line_kept (r : BlogResult) :
  truthy (trim (export_line r)) = true.
Proof.
  apply (truthy_trim_with pipe); [reflexivity|].
  unfold export_line. apply in_or_app. right. now left.
Qed.

Lemma parse_export_line (r : BlogResult) :
  plain_target r -> parse_line (export_line r) = r.
Proof.
  intros [(Ht0 & Htp & _) (Hu0 & Hup & _)].
  unfold parse_line, export_line.
  rewrite split_at_sep by assumption. rewrite split_free by assumption.
  destruct r as [t u]; simpl in *.
  destruct t; [congruence|]. destruct u; [congruence|]. reflexivity.
Qed.

Lemma filter_all {A} (f : A -> bool) (l : list A) :
  Forall (fun x => f x = true) l -> filter f l = l.
Proof.
  induction 1 as [|x l Hx _ IH]; simpl; [reflexivity|]. now rewrite Hx, IH.
Qed.

Lemma import_export_content (found : list BlogResult) :
  found <> [] -> Forall plain_target found ->
  import_text (export_content found) = found.
Proof.
  intros Hne Hall. unfold import_text, import_lines, export_content.
  rewrite split_join.
  - rewrite filter_all.
    + rewrite map_map. rewrite <- (map_id found) at 2.
      apply map_ext_in. intros x Hx. apply parse_export_line.
      rewrite Forall_forall in Hall. now apply Hall.
    + apply Forall_forall. intros l Hl. apply in_map_iff in Hl.
      destruct Hl as (x & <- & _). apply export_line_kept.
  - destruct found; [congruence|discriminate].
  - apply Forall_forall. intros l Hl. apply in_map_iff in Hl.
    destruct Hl as (x & <- & Hx). apply export_line_free.
    rewrite Forall_forall in Hall. now apply Hall.
Qed.

(** C6, as the code has it: when every title and every url of the
    exported list is non-empty, free of the pipe and of the newline and
    well-formed UTF-16, and the first title does not start with U+FEFF,
    uploading the downloaded file gives back the list, pair by pair and
    in order. *)
Theorem export_import_roundtrip (st st' : AppState) (file : list N) :
  Forall plain_target (searchResults st) ->
  Forall text_target (searchResults st) ->
  ~ starts_with_mark (searchResults st) ->
  downloaded_file st = Some file ->
  bulkTargets (upload_files [file] st') = searchResults st.
Proof.
  intros Hplain Htext Hmark Hfile. unfold downloaded_file, exportToTxt in Hfile.
  destruct (searchResults st) as [|r rs] eqn:Hfound; [discriminate|].
  assert (file = Blob [export_content (r :: rs)]) by congruence. subst file.
  unfold upload_files. rewrite export_read_back by assumption.
  unfold handleFileUpload. cbn [bulkTargets set_success set_bulkTargets].
  apply import_export_content; [discriminate|assumption].
Qed.

Lemma export_import_roundtrip_witness :
  bulkTargets
    (upload_files
       [Blob [lit "Post A|https://a.blogspot.com/1" ++ newline
              :: lit "Post B|https://b.blogspot.com/2"]]
       (sample_state [] [] false))
  = [post_a; post_b].
Proof.
  apply (export_import_roundtrip (finder_state [post_a; post_b])
           (sample_state [] [] false)).
  - repeat constructor; vm_compute; intuition discriminate.
  - repeat constructor.
  - intros (r & others & t & Hfound & Ht).
    injection Hfound as <- _. discriminate.
  - reflexivity.
Defined.

(** C6 as stated fails: no title holds a pipe, the url does, and the
    import cuts the url at it. *)
Lemma export_import_url_with_pipe :
  let found := [mkBlog (lit "Post A") (lit "https://a.blogspot.com/1?tag=x|y")] in
  let file := Blob [lit "Post A|https://a.blogspot.com/1?tag=x|y"] in
  Forall (fun r => ~ In pipe (title r)) found /\
  downloaded_file (finder_state found) = Some file /\
  bulkTargets (upload_files [file] (finder_state found))
  = [mkBlog (lit "Post A") (lit "https://a.blogspot.com/1?tag=x")] /\
  bulkTargets (upload_files [file] (finder_state found)) <> found.
Proof.
  repeat split.
  - repeat constructor. vm_compute. intuition discriminate.
  - vm_compute. discriminate.
Qed.

(** The other fields the round trip loses: an empty url comes back as the
    whole line, an empty title as the placeholder, and a newline inside a
    field splits the record. *)
Example export_import_empty_url :
  import_text (lit "Post A|") = [mkBlog (lit "Post A") (lit "Post A|")].
Proof. reflexivity. Qed.

Example export_import_empty_title :
  import_text (lit "|https://a.blogspot.com/1")
  = [mkBlog default_title (lit "https://a.blogspot.com/1")].
Proof. reflexivity. Qed.

(** What the file itself loses: a byte order mark at the start of the
    first title, and a surrogate without its partner, which comes back as
    U+FFFD. *)
Example export_import_mark :
  let found := [mkBlog (byte_order_mark :: lit "Post A")
                       (lit "https://a.blogspot.com/1")] in
  well_formed (export_content found) = true /\
  downloaded_file (finder_state found) = Some (Blob [export_content found]) /\
  bulkTargets (upload_files [Blob [export_content found]] (finder_state found))
  = [post_a].
Proof. repeat split; reflexivity. Qed.

Example export_import_lone_surrogate :
  let found := [mkBlog (lit "Post " ++ [0xD83D%N]) (lit "https://a.blogspot.com/1")] in
  well_formed (export_content found) = false /\
  downloaded_file (finder_state found) = Some (Blob [export_content found]) /\
  bulkTargets (upload_files [Blob [export_content found]] (finder_state found))
  = [mkBlog (lit "Post " ++ [replacement]) (lit "https://a.blogspot.com/1")].
Proof. repeat split; reflexivity. Qed.

(** ** The bulk runner: the shape of a run *)

Section Loop.

Variable env : Env.
Variable N : Z.

Lemma events_from_length (rest : list BlogResult) :
  forall i c n, List.length (events_from env N rest i c n) = List.length rest.
Proof.
  induction rest as [|t rest IH]; intros i c n; simpl; [reflexivity|].
  now rewrite IH.
Qed.

Lemma events_from_urls (rest : list BlogResult) :
  forall i c n,
    List.map (fun ev => log_url (ev_entry ev)) (events_from env N rest i c n)
    = List.map url rest.
Proof.
  induction rest as [|t rest IH]; intros i c n; simpl; [reflexivity|].
  now rewrite IH.
Qed.

(** The event of the pass over the target at position [j] of [rest]. *)
Lemma events_from_nth (rest : list BlogResult) :
  forall i c n j target,
    nth_error rest j = Some target ->
    nth_error (events_from env N rest i c n) j
    = Some (iteration_event env N (i + Z.of_nat j) target (c + 2 * j) (n + j)).
Proof.
  induction rest as [|t rest IH]; intros i c n j target Hj.
  - destruct j; discriminate.
  - destruct j as [|j]; simpl in *.
    + injection Hj as ->. rewrite Z.add_0_r, !Nat.add_0_r. reflexivity.
    + rewrite (IH _ _ _ _ _ Hj). f_equal. f_equal; lia.
Qed.

Lemma events_from_progress (rest : list BlogResult) :
  forall i c n,
    List.map ev_progress (events_from env N rest i c n)
    = List.map (fun j => progress_after (i + Z.of_nat j) N)
               (seq 0 (List.length rest)).
Proof.
  induction rest as [|t rest IH]; intros i c n; simpl; [reflexivity|].
  rewrite Z.add_0_r. f_equal.
  rewrite IH, <- seq_shift, map_map.
  apply map_ext. intros j. f_equal. lia.
Qed.

(** The loop makes its passes in list order: it adds the events of
    [rest] to the events so far and applies them to the state. *)
Lemma bulk_loop_run (rest : list BlogResult) :
  forall i r,
    bulk_loop env N rest i r
    = let evs := events_from env N rest i (rand_calls r) (now_calls r) in
      mkRun (fold_left apply_event evs (app r))
            (rand_calls r + 2 * List.length rest)
            (now_calls r + List.length rest)
            (delays r ++ repeat 800 (List.length rest))
            (emitted r ++ evs).
Proof.
  induction rest as [|t rest IH]; intros i r; simpl.
  - destruct r; simpl. now rewrite !Nat.add_0_r, !app_nil_r.
  - rewrite IH. unfold bulk_iteration. cbv zeta. simpl.
    rewrite <- !app_assoc. simpl.
    f_equal; lia.
Qed.

End Loop.

Lemma last_default {A} (l : list A) (a d d' : A) :
  last (a :: l) d = last (a :: l) d'.
Proof.
  revert a. induction l as [|b l IH]; intros a; [reflexivity|].
  change (last (b :: l) d = last (b :: l) d'). apply IH.
Qed.

Lemma fold_apply_event_fields (evs : list RunEvent) :
  forall st,
    let st' := fold_left apply_event evs st in
    error st' = error st /\ success st' = success st /\
    searchResults st' = searchResults st /\
    generatedCommentText st' = generatedCommentText st /\
    bulkTargets st' = bulkTargets st /\ isBulking st' = isBulking st /\
    logs st' = rev (List.map ev_entry evs) ++ logs st /\
    progress st' = last (List.map ev_progress evs) (progress st).
Proof.
  induction evs as [|ev evs IH]; intros st; simpl.
  - repeat split; reflexivity.
  - destruct (IH (apply_event st ev)) as (H1 & H2 & H3 & H4 & H5 & H6 & H7 & H8).
    repeat split; try assumption.
    + rewrite H7. simpl. now rewrite <- app_assoc.
    + rewrite H8. destruct evs as [|e evs]; [reflexivity|].
      change (last (List.map ev_progress (ev :: e :: evs)) (progress st))
        with (last (List.map ev_progress (e :: evs)) (progress st)).
      apply last_default.
Qed.

(** A run that passes both guards. *)
Lemma startBulk_run (env : Env) (st : AppState) :
  bulkTargets st <> [] -> generatedCommentText st <> [] ->
  let N := List.length (bulkTargets st) in
  let evs := events_from env (Z.of_nat N) (bulkTargets st) 0 0 0 in
  startBulk env st
  = mkRun (set_isBulking false
             (fold_left apply_event evs
                (set_progress (of_int 0) (set_logs [] (set_isBulking true st)))))
          (2 * N) N (repeat 800 N) evs.
Proof.
  intros Ht Hc. unfold startBulk.
  destruct (bulkTargets st) as [|t ts] eqn:Hts; [congruence|].
  destruct (generatedCommentText st) as [|c cs] eqn:Hcs; [congruence|].
  replace (Z.of_nat (List.length (t :: ts)) =? 0) with false
    by (symmetry; apply Z.eqb_neq; simpl; lia).
  cbv zeta. simpl negb. cbv iota.
  rewrite bulk_loop_run. reflexivity.
Qed.

(** ** The guards of the bulk runner *)

(** C3: with no target the run fails with EmptyTargetList, and nothing
    else happens: no event, no oracle call, no suspension, and the
    progress, the running flag, the log and the other fields stay. *)
Theorem startBulk_empty_targets (env : Env) (st : AppState) :
  bulkTargets st = [] ->
  let r := startBulk env st in
  error (app r) = Some EmptyTargetList /\
  emitted r = [] /\ rand_calls r = 0%nat /\ now_calls r = 0%nat /\ delays r = [] /\
  progress (app r) = progress st /\ isBulking (app r) = isBulking st /\
  logs (app r) = logs st /\ bulkTargets (app r) = bulkTargets st /\
  generatedCommentText (app r) = generatedCommentText st /\
  success (app r) = success st /\ searchResults (app r) = searchResults st.
Proof.
  intros Ht. unfold startBulk. rewrite Ht. simpl. repeat split; assumption.
Qed.

Lemma startBulk_empty_targets_witness :
  let r := startBulk sample_env (sample_state [] (lit "x") false) in
  error (app r) = Some EmptyTargetList /\
  emitted r = [] /\ rand_calls r = 0%nat /\ now_calls r = 0%nat /\ delays r = [] /\
  progress (app r) = of_int 0 /\ isBulking (app r) = false /\
  logs (app r) = [] /\ bulkTargets (app r) = [] /\
  generatedCommentText (app r) = lit "x" /\
  success (app r) = None /\ searchResults (app r) = [].
Proof.
  apply (startBulk_empty_targets sample_env (sample_state [] (lit "x") false)).
  reflexivity.
Defined.

(** C4, as the code has it: an empty comment text fails with
    MissingComment when there is a target, whatever their number; the
    check of the targets comes first. Nothing else happens. *)
Theorem startBulk_missing_comment (env : Env) (st : AppState) :
  bulkTargets st <> [] -> generatedCommentText st = [] ->
  let r := startBulk env st in
  error (app r) = Some MissingComment /\
  emitted r = [] /\ rand_calls r = 0%nat /\ now_calls r = 0%nat /\ delays r = [] /\
  progress (app r) = progress st /\ isBulking (app r) = isBulking st /\
  logs (app r) = logs st.
Proof.
  intros Ht Hc. unfold startBulk. rewrite Hc.
  destruct (bulkTargets st) as [|t ts]; [congruence|].
  simpl. repeat split; reflexivity.
Qed.

Lemma startBulk_missing_comment_witness :
  let r := startBulk sample_env (sample_state [post_a; post_b] [] false) in
  error (app r) = Some MissingComment /\
  emitted r = [] /\ rand_calls r = 0%nat /\ now_calls r = 0%nat /\ delays r = [] /\
  progress (app r) = of_int 0 /\ isBulking (app r) = false /\
  logs (app r) = [].
Proof.
  apply (startBulk_missing_comment sample_env (sample_state [post_a; post_b] [] false)).
  - discriminate.
  - reflexivity.
Defined.

(** C4 as stated fails at size zero: with no target and no comment text
    the error is EmptyTargetList. *)
Lemma startBulk_missing_comment_no_target :
  let st := sample_state [] [] false in
  generatedCommentText st = [] /\
  error (app (startBulk sample_env st)) = Some EmptyTargetList /\
  error (app (startBulk sample_env st)) <> Some MissingComment.
Proof.
  repeat split. vm_compute. discriminate.
Qed.

(** C9, as the code has it: while a run is in progress the button is
    disabled, a click does not reach [startBulk], nothing is done and no
    error is set. *)
Theorem click_start_while_running (env : Env) (st : AppState) :
  isBulking st = true -> click_start env st = idle st.
Proof.
  intros Hrun. unfold click_start, start_disabled. now rewrite Hrun.
Qed.

Lemma click_start_while_running_witness :
  click_start sample_env (sample_state [post_a] (lit "x") true)
  = idle (sample_state [post_a] (lit "x") true).
Proof.
  apply click_start_while_running. reflexivity.
Defined.

(** C9 as stated fails: [startBulk] does not look at the running flag.
    Called during a run it reports no error and makes its passes. *)
Lemma startBulk_while_running :
  let st := sample_state [post_a] (lit "x") true in
  let r := startBulk sample_env st in
  isBulking st = true /\
  error (app r) = None /\
  List.length (emitted r) = 1%nat /\ rand_calls r = 2%nat.
Proof.
  repeat split.
Qed.

(** ** The Blog Finder *)

Lemma slice0_length {A} (count : Z) (l : list A) :
  0 <= count -> Z.of_nat (List.length (slice0 count l)) <= count.
Proof.
  intros Hc. unfold slice0.
  replace (count <? 0) with false by (symmetry; apply Z.ltb_ge; lia).
  pose proof (firstn_le_length
                (Z.to_nat (Z.min count (Z.of_nat (List.length l)))) l).
  lia.
Qed.

Lemma slice0_incl {A} (count : Z) (l : list A) (x : A) :
  In x (slice0 count l) -> In x l.
Proof.
  unfold slice0. intros Hin.
  rewrite <- (firstn_skipn
                (Z.to_nat (if count <? 0
                           then Z.max (Z.of_nat (List.length l) + count) 0
                           else Z.min count (Z.of_nat (List.length l)))) l).
  apply in_or_app. now left.
Qed.

(** C8, as the code has it: for a count that is not negative the list
    has at most [count] entries, all of them with an article-like url; it
    is a prefix of the article-like candidates in the order of the
    service's answer, with nothing removed from it. *)
Theorem searchBlogs_capped_and_filtered
    (render : Z -> jsstring) (generateContent : jsstring -> Response)
    (keyword : jsstring) (count : Z) :
  0 <= count ->
  let found := results (searchBlogs render generateContent keyword count) in
  Z.of_nat (List.length found) <= count /\
  Forall (fun r => article_like r = true) found /\
  exists k,
    found = firstn k (article_candidates
                        (generateContent (search_query render keyword count))).
Proof.
  intros Hc. unfold searchBlogs, article_candidates. simpl.
  destruct (groundingChunks _) as [chunks|].
  - split; [|split].
    + now apply slice0_length.
    + apply Forall_forall. intros r Hr. apply slice0_incl in Hr.
      apply filter_In in Hr. tauto.
    + unfold slice0. eexists. reflexivity.
  - split; [simpl; lia|]. split; [constructor|]. exists 0%nat. reflexivity.
Qed.

Lemma searchBlogs_capped_and_filtered_witness :
  let found := results (searchBlogs sample_render twice_the_same (lit "tekno") 1) in
  Z.of_nat (List.length found) <= 1 /\
  Forall (fun r => article_like r = true) found /\
  exists k,
    found = firstn k (article_candidates
                        (twice_the_same (search_query sample_render (lit "tekno") 1))).
Proof.
  apply (searchBlogs_capped_and_filtered sample_render twice_the_same (lit "tekno") 1).
  lia.
Defined.

(** C8 as stated fails: nothing removes duplicates. Two equal grounding
    chunks give two equal results. *)
Lemma searchBlogs_keeps_duplicates :
  let found := results (searchBlogs sample_render twice_the_same (lit "tekno") 10) in
  found = [chunk_result article_chunk; chunk_result article_chunk] /\
  ~ NoDup found.
Proof.
  split; [reflexivity|].
  intros Hnd. inversion Hnd as [|x l Hnotin _]; subst.
  apply Hnotin. now left.
Qed.

(** A negative count is not a cap either: [slice(0, -1)] drops the last
    candidate and keeps the rest. *)
Example searchBlogs_negative_count :
  List.length (results (searchBlogs sample_render twice_the_same (lit "tekno") (-1)))
  = 1%nat.
Proof. reflexivity. Qed.

(** ** The bulk runner: a completed run *)

(** C1: with at least one target and a comment text, the run emits one
    entry per target, in the order of the list, leaves them in the log
    newest first, and ends with the progress at 100 and [isBulking] false.
    (An array has at most 2^32 - 1 elements.) *)
Theorem startBulk_completes (env : Env) (st : AppState) :
  bulkTargets st <> [] -> generatedCommentText st <> [] ->
  Z.of_nat (List.length (bulkTargets st)) <= max_length ->
  let r := startBulk env st in
  List.length (emitted r) = List.length (bulkTargets st) /\
  List.map (fun ev => log_url (ev_entry ev)) (emitted r)
  = List.map url (bulkTargets st) /\
  logs (app r) = rev (List.map ev_entry (emitted r)) /\
  progress (app r) = of_int 100 /\
  isBulking (app r) = false.
Proof.
  intros Ht Hc HN. cbv zeta. rewrite startBulk_run by assumption.
  cbn [emitted app].
  set (N := Z.of_nat (List.length (bulkTargets st))) in *.
  set (evs := events_from env N (bulkTargets st) 0 0 0).
  destruct (fold_apply_event_fields evs
              (set_progress (of_int 0) (set_logs [] (set_isBulking true st))))
    as (_ & _ & _ & _ & _ & _ & Hlogs & Hprog).
  split; [apply events_from_length|].
  split; [apply events_from_urls|].
  split; [cbn [logs set_isBulking]; rewrite Hlogs; apply app_nil_r|].
  split; [|reflexivity].
  cbn [progress set_isBulking]. rewrite Hprog.
  unfold evs. rewrite events_from_progress.
  destruct (bulkTargets st) as [|t ts] eqn:Hts; [congruence|].
  assert (HN' : 0 < N < 2 ^ prec).
  { unfold N, max_length in *. simpl List.length in *. rewrite pow_prec.
    change (2 ^ 32 - 1) with 4294967295 in HN. lia. }
  replace (List.length (t :: ts)) with (S (List.length ts)) by reflexivity.
  rewrite seq_S, map_app. cbn [List.map]. rewrite last_last.
  rewrite Z.add_0_l, Nat.add_0_l.
  replace (Z.of_nat (List.length ts)) with (N - 1)
    by (unfold N; simpl List.length; lia).
  now apply progress_after_last.
Qed.

Lemma startBulk_completes_witness :
  let r := startBulk sample_env (sample_state [post_a; post_b] (lit "x") false) in
  List.length (emitted r) = 2%nat /\
  List.map (fun ev => log_url (ev_entry ev)) (emitted r)
  = [lit "https://a.blogspot.com/1"; lit "https://b.blogspot.com/2"] /\
  logs (app r) = rev (List.map ev_entry (emitted r)) /\
  progress (app r) = of_int 100 /\
  isBulking (app r) = false.
Proof.
  apply (startBulk_completes sample_env
           (sample_state [post_a; post_b] (lit "x") false)).
  - discriminate.
  - discriminate.
  - vm_compute. discriminate.
Defined.

(** ** The outcome of a pass *)

(** The comparison [x > 0.1] of the source compares the values: for a
    positive binary64 number [m * 2^e], the draw succeeds exactly when
    that value is above the value of the double 0.1. *)
Lemma draw_success_value (m : positive) (e : Z) :
  valid_binary prec emax (S754_finite false m e) = true ->
  (draw_success (S754_finite false m e) = true
   <-> scaled_value 7205759403792794 (-56) < scaled_value m e).
Proof.
  intros Hv. unfold valid_binary, bounded, canonical_mantissa in Hv.
  apply andb_true_iff in Hv. destruct Hv as [Hc _].
  apply Z.eqb_eq in Hc. unfold fexp, emin, prec, emax in Hc.
  pose proof (digits2_pos_bounds m) as [Hlo Hhi].
  set (d := Zpos (digits2_pos m)) in *.
  assert (Hd0 : 0 < d) by (unfold d; lia).
  assert (He : -1074 <= e) by lia.
  assert (Hd : d <= 53) by lia.
  assert (Hm53 : Zpos m < 2 ^ 53).
  { eapply Z.lt_le_trans; [exact Hhi|]. apply Z.pow_le_mono_r; lia. }
  unfold draw_success, gt, lit_0_1, SFltb, SFcompare, scaled_value.
  change (2 ^ 53) with 9007199254740992 in Hm53.
  destruct (Z.compare_spec (-56) e) as [Heq|Hlt|Hgt].
  - subst e.
    change (Pos.compare_cont Eq 7205759403792794 m)
      with (Pos.compare 7205759403792794 m).
    rewrite <- Z.mul_lt_mono_pos_r by (apply Z.pow_pos_nonneg; lia).
    change (7205759403792794 < Zpos m)
      with ((7205759403792794 ?= m)%positive = Lt).
    destruct (7205759403792794 ?= m)%positive; split; intros H';
      try reflexivity; discriminate.
  - (* a larger exponent: the mantissa is full *)
    split; [intros _|reflexivity].
    assert (d = 53) by lia.
    assert (Hm52 : 2 ^ 52 <= Zpos m) by (replace 52 with (d - 1) by lia; exact Hlo).
    change (2 ^ 52) with 4503599627370496 in Hm52.
    replace (e + 1074) with (e + 56 + (-56 + 1074)) by lia.
    rewrite (Z.pow_add_r 2 (e + 56) (-56 + 1074)) by lia.
    assert (HQ : 2 ^ 1 <= 2 ^ (e + 56)) by (apply Z.pow_le_mono_r; lia).
    change (2 ^ 1) with 2 in HQ.
    rewrite Z.mul_assoc.
    apply Z.mul_lt_mono_pos_r; [apply Z.pow_pos_nonneg; lia|].
    set (Q := 2 ^ (e + 56)) in *. clearbody Q. nia.
  - split; [discriminate|intros H'; exfalso].
    replace (-56 + 1074) with (-56 - e + (e + 1074)) in H' by lia.
    rewrite (Z.pow_add_r 2 (-56 - e) (e + 1074)), Z.mul_assoc in H' by lia.
    apply Z.mul_lt_mono_pos_r in H'; [|apply Z.pow_pos_nonneg; lia].
    assert (HQ : 2 ^ 1 <= 2 ^ (-56 - e)) by (apply Z.pow_le_mono_r; lia).
    change (2 ^ 1) with 2 in HQ.
    set (Q := 2 ^ (-56 - e)) in *. clearbody Q. nia.
Qed.

(** *** The value of the draw *)

Lemma threshold_positive : 0 < scaled_value 7205759403792794 (-56).
Proof.
  unfold scaled_value. apply Z.mul_pos_pos; [reflexivity|].
  apply Z.pow_pos_nonneg; lia.
Qed.

(** The test [x > 0.1] on a finite number compares the values. *)
Lemma draw_success_finite (x : number) :
  valid_binary prec emax x = true -> is_finite x = true ->
  (draw_success x = true
   <-> scaled_value 7205759403792794 (-56) < value1074 x).
Proof.
  intros Hv Hf. pose proof threshold_positive as HT.
  destruct x as [s|s| |s m e]; try discriminate.
  { cbn [value1074]. split; [discriminate|lia]. }
  unfold valid_binary, bounded, canonical_mantissa in Hv.
  apply andb_true_iff in Hv. destruct Hv as [Hc _].
  apply Z.eqb_eq in Hc. unfold fexp, emin, prec, emax in Hc.
  assert (He : -1074 <= e) by lia.
  destruct s; cbn [value1074 cond_Zopp].
  { assert (0 < scaled_value m e).
    { unfold scaled_value. apply Z.mul_pos_pos; [reflexivity|].
      apply Z.pow_pos_nonneg; lia. }
    split; [discriminate|lia]. }
  clear HT.
  pose proof (digits2_pos_bounds m) as [Hlo Hhi].
  set (d := Zpos (digits2_pos m)) in *.
  assert (Hd0 : 0 < d) by (unfold d; lia).
  assert (Hd : d <= 53) by lia.
  assert (Hm53 : Zpos m < 2 ^ 53).
  { eapply Z.lt_le_trans; [exact Hhi|]. apply Z.pow_le_mono_r; lia. }
  unfold draw_success, gt, lit_0_1, SFltb, SFcompare, scaled_value.
  change (2 ^ 53) with 9007199254740992 in Hm53.
  destruct (Z.compare_spec (-56) e) as [Heq|Hlt|Hgt].
  - (* the exponent of 0.1: the mantissas decide *)
    subst e.
    change (Pos.compare_cont Eq 7205759403792794 m)
      with (Pos.compare 7205759403792794 m).
    rewrite <- Z.mul_lt_mono_pos_r by (apply Z.pow_pos_nonneg; lia).
    change (7205759403792794 < Zpos m)
      with ((7205759403792794 ?= m)%positive = Lt).
    destruct (7205759403792794 ?= m)%positive; split; intros H';
      try reflexivity; discriminate.
  - (* a larger exponent: the mantissa has its 53 digits *)
    split; [intros _|reflexivity].
    assert (d = 53) by lia.
    assert (Hm52 : 2 ^ 52 <= Zpos m) by (replace 52 with (d - 1) by lia; exact Hlo).
    change (2 ^ 52) with 4503599627370496 in Hm52.
    replace (e + 1074) with (e + 56 + (-56 + 1074)) by lia.
    rewrite (Z.pow_add_r 2 (e + 56) (-56 + 1074)) by lia.
    assert (HQ : 2 ^ 1 <= 2 ^ (e + 56)) by (apply Z.pow_le_mono_r; lia).
    change (2 ^ 1) with 2 in HQ.
    rewrite Z.mul_assoc.
    apply Z.mul_lt_mono_pos_r; [apply Z.pow_pos_nonneg; lia|].
    set (Q := 2 ^ (e + 56)) in *. clearbody Q. nia.
  - (* a smaller exponent *)
    split; [discriminate|intros H'; exfalso].
    replace (-56 + 1074) with (-56 - e + (e + 1074)) in H' by lia.
    rewrite (Z.pow_add_r 2 (-56 - e) (e + 1074)), Z.mul_assoc in H' by lia.
    apply Z.mul_lt_mono_pos_r in H'; [|apply Z.pow_pos_nonneg; lia].
    assert (HQ : 2 ^ 1 <= 2 ^ (-56 - e)) by (apply Z.pow_le_mono_r; lia).
    change (2 ^ 1) with 2 in HQ.
    set (Q := 2 ^ (-56 - e)) in *. clearbody Q. nia.
Qed.

(** *** Equally spaced draws *)

(** The number [k / 2^p] in binary64: a mantissa of 53 digits and the
    exponent that goes with it. *)
Lemma grid_point_exact (p k : Z) :
  0 <= p <= 53 -> 0 < k < 2 ^ prec ->
  let d := Zdigits2 k in
  grid_point p k
  = S754_finite false (Z.to_pos (k * 2 ^ (prec - d))) (d - prec - p) /\
  normal53 (Z.to_pos (k * 2 ^ (prec - d))) /\ 0 < d <= prec.
Proof.
  intros Hp Hz d.
  pose proof (Zdigits2_bounds k ltac:(lia)) as Hb. fold d in Hb.
  assert (Hd0 : 0 < d) by (apply Zdigits2_pos; lia).
  assert (Hd : d <= prec).
  { destruct (Z.le_gt_cases d prec) as [|Hgt]; [assumption|].
    assert (2 ^ prec <= 2 ^ (d - 1)) by (apply Z.pow_le_mono_r; lia). lia. }
  assert (Hm : 2 ^ (prec - 1) <= k * 2 ^ (prec - d) < 2 ^ prec).
  { replace (prec - 1) with (d - 1 + (prec - d)) by lia.
    replace prec with (d + (prec - d)) at 4 by lia.
    rewrite !Z.pow_add_r by lia.
    pose proof (Z.pow_pos_nonneg 2 (prec - d) ltac:(lia) ltac:(lia)). nia. }
  assert (Hnorm : normal53 (Z.to_pos (k * 2 ^ (prec - d)))).
  { apply normal53_of_bounds. rewrite Z2Pos.id; [exact Hm|].
    rewrite pow_prec_1 in Hm. lia. }
  split; [|split; [exact Hnorm|lia]].
  destruct k as [|q|q]; try lia.
  unfold grid_point, binary_normalize, binary_round, shl_align.
  change (Zpos (digits2_pos q)) with d.
  replace (fexp prec emax (d + - p)) with (d - prec - p)
    by (unfold fexp, emin, prec, emax in *; lia).
  replace (d - prec - p - - p) with (d - prec) by lia.
  destruct (d - prec) as [|r|r] eqn:Hr; try lia.
  - replace (prec - d) with 0 by lia. rewrite Z.mul_1_r. simpl Z.to_pos.
    replace (0 - p) with (- p) by lia.
    apply round_full; [|lia].
    apply normal53_of_bounds. replace (prec - d) with 0 in Hm by lia.
    now rewrite Z.mul_1_r in Hm.
  - replace (prec - d) with (Zpos r) in * by lia.
    rewrite <- iter_xO, Pos2Z.id in *.
    apply round_full; [assumption|unfold prec in *; lia].
Qed.

(** It is a number, and its value is [k / 2^p]. *)
Lemma grid_point_value (p k : Z) :
  0 <= p <= 53 -> 0 <= k < 2 ^ p ->
  valid_binary prec emax (grid_point p k) = true /\
  is_finite (grid_point p k) = true /\
  value1074 (grid_point p k) = k * 2 ^ (1074 - p).
Proof.
  intros Hp Hk.
  assert (Hk53 : k < 2 ^ prec).
  { eapply Z.lt_le_trans; [apply Hk|]. apply Z.pow_le_mono_r; unfold prec; lia. }
  destruct (Z.eq_dec k 0) as [->|Hk0].
  { repeat split; reflexivity. }
  destruct (grid_point_exact p k Hp ltac:(lia)) as (-> & Hn & Hd).
  set (d := Zdigits2 k) in *.
  assert (Hpos : 0 < k * 2 ^ (prec - d)).
  { apply Z.mul_pos_pos; [lia|apply Z.pow_pos_nonneg; lia]. }
  repeat split.
  - unfold valid_binary, bounded, canonical_mantissa.
    unfold normal53 in Hn. rewrite Hn.
    apply andb_true_iff. split.
    + apply Z.eqb_eq. unfold fexp, emin, prec, emax in *. lia.
    + apply Z.leb_le. unfold prec, emax in *. lia.
  - cbn [value1074 cond_Zopp]. unfold scaled_value.
    rewrite Z2Pos.id by exact Hpos.
    rewrite <- Z.mul_assoc, <- Z.pow_add_r by (unfold prec in *; lia).
    f_equal. f_equal. lia.
Qed.

(** On the grid the test is the comparison of [k / 2^p] with one tenth. *)
Lemma draw_success_grid (p k : Z) :
  1 <= p <= 53 -> 0 <= k < 2 ^ p ->
  (draw_success (grid_point p k) = true <-> 2 ^ p < 10 * k).
Proof.
  intros Hp Hk.
  destruct (grid_point_value p k ltac:(lia) Hk) as (Hv & Hf & Hval).
  rewrite (draw_success_finite _ Hv Hf), Hval. unfold scaled_value.
  replace (-56 + 1074) with 1018 by lia.
  replace (1074 - p) with (53 - p + 3 + 1018) by lia.
  rewrite (Z.pow_add_r 2 (53 - p + 3) 1018), (Z.pow_add_r 2 (53 - p) 3) by lia.
  rewrite !Z.mul_assoc.
  rewrite <- Z.mul_lt_mono_pos_r by (apply Z.pow_pos_nonneg; lia).
  change (2 ^ 3) with 8.
  assert (HQ : 0 < 2 ^ (53 - p)) by (apply Z.pow_pos_nonneg; lia).
  assert (HPQ : 2 ^ p * 2 ^ (53 - p) = 9007199254740992).
  { rewrite <- Z.pow_add_r by lia. replace (p + (53 - p)) with 53 by lia.
    reflexivity. }
  rewrite (Z.mul_lt_mono_pos_r (2 ^ (53 - p)) (2 ^ p) (10 * k)) by exact HQ.
  rewrite HPQ.
  set (Y := k * 2 ^ (53 - p)).
  replace (10 * k * 2 ^ (53 - p)) with (10 * Y) by (unfold Y; ring).
  clearbody Y. lia.
Qed.

(** The pass at index [j] takes the call number [2 * j] of
    [Math.random()] and nothing else decides its outcome. *)
Lemma pass_succeeds_draw (env : Env) (st : AppState) (j : nat) (x : number) :
  bulkTargets st <> [] -> generatedCommentText st <> [] ->
  (j < List.length (bulkTargets st))%nat ->
  pass_succeeds (with_draw env (2 * j) x) st j = draw_success x.
Proof.
  intros Ht Hc Hj. unfold pass_succeeds.
  rewrite startBulk_run by assumption. cbn [emitted].
  destruct (nth_error (bulkTargets st) j) as [target|] eqn:Htj.
  - rewrite (events_from_nth _ _ _ _ _ _ _ _ Htj).
    unfold iteration_event. cbn [ev_entry log_status].
    unfold with_draw at 1. cbn [Math_random].
    replace (0 + 2 * j)%nat with (2 * j)%nat by lia.
    rewrite Nat.eqb_refl. now destruct (draw_success x).
  - apply nth_error_None in Htj. lia.
Qed.

Lemma count_above (c : Z) (n : nat) :
  0 <= c ->
  Z.of_nat (List.length (filter (fun k => c <? Z.of_nat k) (seq 0 n)))
  = Z.max 0 (Z.of_nat n - 1 - c).
Proof.
  intros Hc. induction n as [|n IH]; [cbn [seq filter List.length]; lia|].
  rewrite seq_S, filter_app, length_app, Nat2Z.inj_add, IH.
  cbn [Nat.add filter]. destruct (Z.ltb_spec c (Z.of_nat n)); cbn [List.length]; lia.
Qed.

Lemma pow2_mod_5 (p : Z) : 0 <= p -> 0 < 2 ^ p mod 5.
Proof.
  intros Hp. pattern p. apply natlike_ind; [reflexivity| |exact Hp].
  intros q Hq IH. rewrite Z.pow_succ_r by assumption.
  set (P := 2 ^ q) in *. clearbody P.
  Z.div_mod_to_equations. lia.
Qed.

Lemma nine_tenths (p : Z) :
  1 <= p ->
  let S := 2 ^ p - 1 - 2 ^ p / 10 in
  9 * 2 ^ p - 10 < 10 * S < 9 * 2 ^ p.
Proof.
  intros Hp S. unfold S.
  pose proof (pow2_mod_5 p ltac:(lia)) as H5.
  set (P := 2 ^ p) in *. clearbody P.
  Z.div_mod_to_equations. lia.
Qed.

(** C7: the entry of the pass at index [j] is a success exactly when the
    value of the draw of that pass, the call number [2 * j] of
    [Math.random()], is greater than the value of the literal [0.1], which
    is 7205759403792794 / 2^56, one tenth and 2^-54 / 10 more; it is a
    failure when the value is that one or less, and the message follows
    the status. Of the [2^p] equally spaced draws [k / 2^p], for [p] up to
    53, the ones that give a success are those with [k / 2^p] above one
    tenth: all but [2^p / 10 + 1] of them, a share between [0.9 - 2^-p]
    and [0.9]. *)
Theorem outcome_follows_draw (env : Env) (st : AppState) (j : nat) (ev : RunEvent) :
  bulkTargets st <> [] -> generatedCommentText st <> [] ->
  nth_error (emitted (startBulk env st)) j = Some ev ->
  let x := Math_random env (2 * j) in
  let threshold := scaled_value 7205759403792794 (-56) in
  10 * threshold = 2 ^ 1074 + 2 ^ 1020 /\
  (valid_binary prec emax x = true -> is_finite x = true ->
   (log_status (ev_entry ev) = success_st <-> threshold < value1074 x) /\
   (log_status (ev_entry ev) = fail_st <-> value1074 x <= threshold)) /\
  log_message (ev_entry ev)
  = match log_status (ev_entry ev) with
    | success_st => msg_success
    | fail_st => msg_fail
    end /\
  (forall p, 1 <= p <= 53 ->
     (forall k, 0 <= k < 2 ^ p ->
        valid_binary prec emax (grid_point p k) = true /\
        value1074 (grid_point p k) = k * 2 ^ (1074 - p) /\
        (pass_succeeds (with_draw env (2 * j) (grid_point p k)) st j = true
         <-> 2 ^ p < 10 * k)) /\
     Z.of_nat (successes env st j p) = 2 ^ p - 1 - 2 ^ p / 10 /\
     9 * 2 ^ p - 10 < 10 * Z.of_nat (successes env st j p) < 9 * 2 ^ p).
Proof.
  intros Ht Hc Hj x threshold.
  assert (Hlen : (j < List.length (bulkTargets st))%nat).
  { rewrite startBulk_run in Hj by assumption. cbn [emitted] in Hj.
    rewrite <- (events_from_length env (Z.of_nat (List.length (bulkTargets st)))
                  (bulkTargets st) 0 0 0).
    apply nth_error_Some. congruence. }
  assert (Hev : log_status (ev_entry ev)
                = (if draw_success x then success_st else fail_st) /\
                log_message (ev_entry ev)
                = (if draw_success x then msg_success else msg_fail)).
  { rewrite startBulk_run in Hj by assumption. cbn [emitted] in Hj.
    destruct (nth_error (bulkTargets st) j) as [target|] eqn:Htj.
    - rewrite (events_from_nth _ _ _ _ _ _ _ _ Htj) in Hj.
      injection Hj as <-. unfold iteration_event.
      cbn [ev_entry log_status log_message].
      replace (0 + 2 * j)%nat with (2 * j)%nat by lia. fold x.
      split; reflexivity.
    - apply nth_error_None in Htj. lia. }
  destruct Hev as [Hstatus Hmessage].
  split; [|split; [|split]].
  - unfold threshold, scaled_value. vm_compute. reflexivity.
  - intros Hv Hf. pose proof (draw_success_finite x Hv Hf) as Hx.
    fold threshold in Hx. rewrite Hstatus.
    destruct (draw_success x).
    + assert (Hlt : threshold < value1074 x) by now apply Hx.
      split; split; intros H; try reflexivity; try assumption;
        try discriminate; lia.
    + assert (Hge : value1074 x <= threshold).
      { destruct (Z.lt_ge_cases threshold (value1074 x)) as [H'|H']; [|lia].
        apply Hx in H'. discriminate. }
      split; split; intros H; try reflexivity; try assumption;
        try discriminate; lia.
  - rewrite Hstatus, Hmessage. now destruct (draw_success x).
  - intros p Hp.
    assert (Hgrid : forall k, 0 <= k < 2 ^ p ->
               (pass_succeeds (with_draw env (2 * j) (grid_point p k)) st j = true
                <-> 2 ^ p < 10 * k)).
    { intros k Hk. rewrite pass_succeeds_draw by assumption.
      apply draw_success_grid; [assumption|lia]. }
    assert (Hcount : Z.of_nat (successes env st j p) = 2 ^ p - 1 - 2 ^ p / 10).
    { unfold successes.
      assert (Hpow : 0 < 2 ^ p) by (apply Z.pow_pos_nonneg; lia).
      assert (H2 : 2 <= 2 ^ p).
      { change 2 with (2 ^ 1) at 1. apply Z.pow_le_mono_r; lia. }
      set (n := Z.to_nat (2 ^ p)).
      assert (Hn : Z.of_nat n = 2 ^ p) by (unfold n; lia).
      rewrite (filter_ext_in _ (fun k => 2 ^ p / 10 <? Z.of_nat k)).
      - rewrite count_above by (apply Z.div_pos; lia). rewrite Hn.
        set (P := 2 ^ p) in *. clearbody P.
        Z.div_mod_to_equations. lia.
      - intros k Hin. apply in_seq in Hin.
        specialize (Hgrid (Z.of_nat k) ltac:(lia)).
        destruct (pass_succeeds _ st j);
          destruct (Z.ltb_spec (2 ^ p / 10) (Z.of_nat k)) as [Hlt|Hge];
          try reflexivity; exfalso.
        + assert (2 ^ p < 10 * Z.of_nat k) by now apply Hgrid.
          set (P := 2 ^ p) in *. clearbody P.
          Z.div_mod_to_equations. lia.
        + assert (true = true -> False); [|auto].
          intros _.
          assert (Hk10 : 2 ^ p < 10 * Z.of_nat k).
          { set (P := 2 ^ p) in *. clearbody P.
            Z.div_mod_to_equations. lia. }
          apply Hgrid in Hk10. discriminate. }
    split; [|split].
    + intros k Hk.
      destruct (grid_point_value p k ltac:(lia) Hk) as (Hv & _ & Hval).
      repeat split; try assumption; now apply Hgrid.
    + exact Hcount.
    + rewrite Hcount. apply nine_tenths. lia.
Qed.

Lemma outcome_follows_draw_witness :
  let st := sample_state [post_a; post_b] (lit "x") false in
  let ev := iteration_event sample_env 2 1 post_b 2 1 in
  let x := Math_random sample_env 2 in
  let threshold := scaled_value 7205759403792794 (-56) in
  ((log_status (ev_entry ev) = success_st <-> threshold < value1074 x) /\
   (log_status (ev_entry ev) = fail_st <-> value1074 x <= threshold)) /\
  log_message (ev_entry ev)
  = match log_status (ev_entry ev) with
    | success_st => msg_success
    | fail_st => msg_fail
    end /\
  (pass_succeeds (with_draw sample_env 2 (grid_point 4 8)) st 1 = true
   <-> 2 ^ 4 < 10 * 8) /\
  Z.of_nat (successes sample_env st 1 4) = 2 ^ 4 - 1 - 2 ^ 4 / 10.
Proof.
  destruct (outcome_follows_draw sample_env
              (sample_state [post_a; post_b] (lit "x") false) 1
              (iteration_event sample_env 2 1 post_b 2 1))
    as (_ & Hvalue & Hmessage & Hshare).
  - discriminate.
  - discriminate.
  - vm_compute. reflexivity.
  - destruct (Hshare 4) as (Hgrid & Hcount & _); [lia|].
    split; [|split; [|split]].
    + apply Hvalue; reflexivity.
    + exact Hmessage.
    + apply (Hgrid 8). lia.
    + exact Hcount.
Defined.

(** ** The progress of a run *)

Lemma non_decreasing_map_seq (f : nat -> number) (n a : nat) :
  (forall i, (a <= i)%nat -> (S i < a + n)%nat -> le (f i) (f (S i)) = true) ->
  non_decreasing (List.map f (seq a n)).
Proof.
  revert a. induction n as [|n IH]; intros a Hstep; [exact I|].
  change (non_decreasing (f a :: List.map f (seq (S a) n))).
  split.
  - destruct n as [|n]; [exact I|]. simpl. apply Hstep; lia.
  - apply IH. intros i Hi Hlt. apply Hstep; lia.
Qed.

(** Below 200 targets, only the last pass reaches 100: checked for each
    length and each pass. *)
Lemma hundred_only_last_below_200 :
  forallb hundred_only_last (seq 1 199) = true.
Proof. vm_compute. reflexivity. Qed.

Lemma below_hundred_before_last (i N : nat) :
  (N < 200)%nat -> (S i < N)%nat ->
  below_hundred (Z.of_nat i) (Z.of_nat N) = true.
Proof.
  intros HN Hi.
  pose proof hundred_only_last_below_200 as Hall.
  rewrite forallb_forall in Hall.
  assert (HinN : In N (seq 1 199)) by (apply in_seq; lia).
  specialize (Hall N HinN). unfold hundred_only_last in Hall.
  rewrite forallb_forall in Hall. apply Hall. apply in_seq. lia.
Qed.

Lemma below_hundred_not_hundred (i N : Z) :
  below_hundred i N = true -> progress_after i N <> of_int 100.
Proof.
  unfold below_hundred. intros Hlt Heq. rewrite Heq in Hlt. discriminate.
Qed.

(** C2, as the code has it: the progress set by the pass at index [i] is
    [Math.round(((i + 1) / N) * 100)], computed in binary64; the values
    never go down; the last one is 100; and below 200 targets no earlier
    one is 100. *)
Theorem progress_sequence (env : Env) (st : AppState) :
  bulkTargets st <> [] -> generatedCommentText st <> [] ->
  let n := List.length (bulkTargets st) in
  let N := Z.of_nat n in
  N <= max_length ->
  let ps := progress_values (startBulk env st) in
  (forall i, (i < n)%nat ->
     nth_error ps i
     = Some (Math_round (mul (div (of_int (Z.of_nat i + 1)) (of_int N)) (of_int 100)))) /\
  non_decreasing ps /\
  nth_error ps (n - 1) = Some (of_int 100) /\
  (N < 200 -> forall i, nth_error ps i = Some (of_int 100) -> i = (n - 1)%nat).
Proof.
  intros Ht Hc n N HN ps.
  assert (Hps : ps = List.map (fun j => progress_after (Z.of_nat j) N) (seq 0 n)).
  { unfold ps, progress_values. rewrite startBulk_run by assumption.
    cbn [emitted]. fold n. fold N. rewrite events_from_progress. fold n.
    apply map_ext. intros j. now rewrite Z.add_0_l. }
  assert (Hn : (0 < n)%nat)
    by (unfold n; destruct (bulkTargets st); [congruence|simpl; lia]).
  assert (HN' : N < 2 ^ prec)
    by (rewrite pow_prec; unfold max_length in HN;
        change (2 ^ 32 - 1) with 4294967295 in HN; lia).
  assert (Hnth : forall i, (i < n)%nat ->
                   nth_error ps i = Some (progress_after (Z.of_nat i) N)).
  { intros i Hi. rewrite Hps.
    rewrite (nth_error_map (fun j => progress_after (Z.of_nat j) N) i (seq 0 n)).
    rewrite nth_error_seq.
    replace (i <? n)%nat with true by (symmetry; apply Nat.ltb_lt; lia).
    reflexivity. }
  split; [exact Hnth|]. split; [|split].
  - rewrite Hps. apply non_decreasing_map_seq. intros i _ Hi.
    apply progress_after_mono; unfold N; lia.
  - rewrite Hnth by lia. f_equal.
    replace (Z.of_nat (n - 1)) with (N - 1) by (unfold N; lia).
    apply progress_after_last. unfold N. lia.
  - intros H200 i Hi.
    assert (Hlen : List.length ps = n)
      by (rewrite Hps, length_map, length_seq; reflexivity).
    assert (Hin : (i < n)%nat)
      by (rewrite <- Hlen; apply nth_error_Some; rewrite Hi; discriminate).
    destruct (Nat.eq_dec i (n - 1)) as [|Hne]; [assumption|exfalso].
    rewrite Hnth in Hi by assumption. injection Hi as Hi.
    apply (below_hundred_not_hundred (Z.of_nat i) N); [|exact Hi].
    apply below_hundred_before_last; unfold N in *; lia.
Qed.

Lemma progress_sequence_witness :
  let ps := progress_values
              (startBulk sample_env (sample_state [post_a; post_b] (lit "x") false)) in
  (forall i, (i < 2)%nat ->
     nth_error ps i
     = Some (Math_round (mul (div (of_int (Z.of_nat i + 1)) (of_int 2)) (of_int 100)))) /\
  non_decreasing ps /\
  nth_error ps 1 = Some (of_int 100) /\
  (2 < 200 -> forall i, nth_error ps i = Some (of_int 100) -> i = 1%nat).
Proof.
  apply (progress_sequence sample_env (sample_state [post_a; post_b] (lit "x") false)).
  - discriminate.
  - discriminate.
  - vm_compute. discriminate.
Defined.

(** C2 as stated fails: with 201 targets the progress is 100 after the
    pass at index 199 and again after the last one, at index 200. *)
Lemma progress_hundred_twice :
  let ps := progress_values
              (startBulk sample_env (sample_state (repeat post_a 201) (lit "x") false)) in
  List.length ps = 201%nat /\
  nth_error ps 199 = Some (of_int 100) /\
  nth_error ps 200 = Some (of_int 100).
Proof. vm_compute. repeat split. Qed.

(** The bound of 200 is the first length where this happens:
    [Math.round((199 / 200) * 100)] is 100. *)
Example progress_199_of_200 : progress_after 198 200 = of_int 100.
Proof. vm_compute. reflexivity. Qed.

(** The rounding is the one of binary64, not of the exact quotient:
    [(29 / 200) * 100] is 14.499999999999998 and rounds to 14, where the
    exact 14.5 would round to 15. *)
Example progress_29_of_200 :
  progress_after 28 200 = of_int 14 /\ (2 * (29 * 100) + 200) / (2 * 200) = 15.
Proof. vm_compute. split; reflexivity. Qed.

Example progress_of_seven :
  List.map (fun i => progress_after i 7) [0; 1; 2; 3; 4; 5; 6]
  = List.map of_int [14; 29; 43; 57; 71; 86; 100].
Proof. vm_compute. reflexivity. Qed.

(* ===================================================================== *)
(** * Further properties of the code *)
(* ===================================================================== *)

(** ** The import, line by line *)

Lemma split_segment_units (sep : N) (s seg : jsstring) (c : N) :
  In seg (split sep s) -> In c seg -> In c s /\ c <> sep.
Proof.
  revert seg. induction s as [|a s IH]; intros seg Hseg Hc; simpl in Hseg.
  - destruct Hseg as [<-|[]]. destruct Hc.
  - destruct (N.eqb_spec a sep) as [->|Hne].
    + destruct Hseg as [<-|Hseg]; [destruct Hc|].
      destruct (IH seg Hseg Hc). split; [now right|assumption].
    + pose proof (split_not_nil sep s) as Hnn.
      destruct (split sep s) as [|seg0 segs] eqn:Hsp; [congruence|].
      destruct Hseg as [<-|Hseg].
      * destruct Hc as [<-|Hc].
        -- split; [now left|assumption].
        -- destruct (IH seg0 (or_introl eq_refl) Hc). split; [now right|assumption].
      * destruct (IH seg (or_intror Hseg) Hc). split; [now right|assumption].
Qed.

Lemma split_app_sep (sep : N) (a b : jsstring) :
  split sep (a ++ sep :: b) = split sep a ++ split sep b.
Proof.
  induction a as [|c a IH]; simpl.
  - now rewrite N.eqb_refl.
  - destruct (N.eqb c sep); rewrite IH; [reflexivity|].
    pose proof (split_not_nil sep a) as Hnn.
    destruct (split sep a); [congruence|reflexivity].
Qed.

Lemma before_pipe_units (line : jsstring) (c : N) :
  In c (before_pipe line) -> In c line.
Proof.
  induction line as [|a s IH]; simpl; [tauto|].
  destruct (N.eqb a pipe); simpl; [tauto|]. intros [H|H]; auto.
Qed.

Lemma after_pipe_units (line : jsstring) (c : N) :
  In c (after_pipe line) -> In c line.
Proof.
  induction line as [|a s IH]; simpl; [tauto|].
  destruct (N.eqb a pipe); auto.
Qed.

Lemma import_lines_kept (text line : jsstring) :
  In line (import_lines text) ->
  line <> [] /\ ~ In newline line.
Proof.
  unfold import_lines. intros Hin. apply filter_In in Hin. destruct Hin as [Hseg Hk].
  split.
  - intros ->. discriminate.
  - intros Hnl. now destruct (split_segment_units _ _ _ _ Hseg Hnl).
Qed.

Lemma parse_line_fields (line : jsstring) :
  line <> [] -> ~ In newline line ->
  let t := parse_line line in
  title t <> [] /\ url t <> [] /\
  ~ In pipe (title t) /\ ~ In newline (title t) /\ ~ In newline (url t).
Proof.
  intros Hne Hnl. cbv zeta.
  assert (Hdef : default_title <> [] /\ ~ In pipe default_title
                 /\ ~ In newline default_title)
    by (vm_compute; intuition discriminate).
  destruct (in_dec N.eq_dec pipe line) as [Hp|Hp].
  - rewrite parse_line_pipe by assumption. cbn [title url or_else].
    assert (Hb : forall s, truthy s = true -> s <> [])
      by (intros s Hs ->; discriminate).
    pose proof (before_pipe_free line) as Hbf.
    destruct (truthy (before_pipe line)) eqn:Ht;
      destruct (truthy (before_pipe (after_pipe line))) eqn:Hu;
      repeat split; auto; try tauto;
      try (intros Hx; apply Hnl; repeat
             (first [apply before_pipe_units in Hx | apply after_pipe_units in Hx]);
           exact Hx).
  - rewrite parse_line_no_pipe by assumption. cbn [title url or_else].
    destruct line as [|c s]; [congruence|]. cbn [truthy].
    repeat split; auto.
Qed.

(** Whatever the file holds, an imported target has a title and a url
    that are not empty, a title without pipe, and no newline in either. *)
Theorem imported_fields (text : jsstring) (t : BlogResult) :
  In t (import_text text) ->
  title t <> [] /\ url t <> [] /\
  ~ In pipe (title t) /\ ~ In newline (title t) /\ ~ In newline (url t).
Proof.
  unfold import_text. intros Hin. apply in_map_iff in Hin.
  destruct Hin as (line & <- & Hline).
  destruct (import_lines_kept _ _ Hline) as [Hne Hnl].
  now apply parse_line_fields.
Qed.

Lemma imported_fields_witness :
  let t := mkBlog default_title (lit "https://a.blogspot.com/1") in
  title t <> [] /\ url t <> [] /\
  ~ In pipe (title t) /\ ~ In newline (title t) /\ ~ In newline (url t).
Proof.
  apply (imported_fields (lit "|https://a.blogspot.com/1")).
  vm_compute. now left.
Defined.

(** The import works line by line: the targets of two texts joined by a
    newline are the targets of the first followed by those of the second. *)
Theorem import_text_lines (a b : jsstring) :
  import_text (a ++ newline :: b) = import_text a ++ import_text b.
Proof.
  unfold import_text, import_lines.
  now rewrite split_app_sep, filter_app, map_app.
Qed.

Lemma filter_none {A} (f : A -> bool) (l : list A) :
  (forall x, In x l -> f x = false) -> filter f l = [].
Proof.
  induction l as [|x l IH]; intros H; simpl; [reflexivity|].
  rewrite (H x (or_introl eq_refl)). apply IH. intros y Hy. apply H. now right.
Qed.

(** A file that is empty or holds white space only leaves no target: the
    upload replaces the list by the empty one. *)
Theorem upload_blank_clears (text : jsstring) (st : AppState) :
  forallb is_ws text = true ->
  bulkTargets (handleFileUpload text st) = [].
Proof.
  intros Hws. unfold handleFileUpload. cbn [bulkTargets set_success set_bulkTargets].
  unfold import_text, import_lines.
  rewrite filter_none; [reflexivity|].
  intros seg Hseg. rewrite truthy_trim. apply negb_false_iff.
  apply forallb_forall. intros c Hc.
  destruct (split_segment_units _ _ _ _ Hseg Hc) as [Hin _].
  rewrite forallb_forall in Hws. now apply Hws.
Qed.

Lemma upload_blank_clears_witness :
  bulkTargets (handleFileUpload (lit "  " ++ newline :: lit " ")
                 (sample_state [post_a; post_b] (lit "x") false)) = [].
Proof.
  apply upload_blank_clears. reflexivity.
Defined.

(** From the upload to the log: with a comment text set and at least one
    line that is not blank, a run after the upload gives one entry per
    such line, in the order of the file, and no entry has an empty url. *)
Theorem upload_then_run (env : Env) (text : jsstring) (st : AppState) :
  generatedCommentText st <> [] -> import_lines text <> [] ->
  let r := startBulk env (handleFileUpload text st) in
  List.map (fun ev => log_url (ev_entry ev)) (emitted r)
  = List.map (fun line => url (parse_line line)) (import_lines text) /\
  List.length (logs (app r)) = List.length (import_lines text) /\
  Forall (fun e => log_url e <> []) (logs (app r)).
Proof.
  intros Hc Hlines. cbv zeta.
  assert (Htargets : bulkTargets (handleFileUpload text st) = import_text text)
    by reflexivity.
  assert (Hcomment : generatedCommentText (handleFileUpload text st) <> [])
    by exact Hc.
  assert (Hne : bulkTargets (handleFileUpload text st) <> []).
  { rewrite Htargets. unfold import_text.
    destruct (import_lines text); [congruence|discriminate]. }
  rewrite startBulk_run by assumption.
  cbn [emitted app logs set_isBulking]. rewrite Htargets.
  set (evs := events_from env (Z.of_nat (List.length (import_text text)))
                (import_text text) 0 0 0).
  destruct (fold_apply_event_fields evs
              (set_progress (of_int 0)
                 (set_logs [] (set_isBulking true (handleFileUpload text st)))))
    as (_ & _ & _ & _ & _ & _ & Hlogs & _).
  rewrite Hlogs. cbn [logs set_progress set_logs]. rewrite app_nil_r.
  assert (Hurls : List.map (fun ev => log_url (ev_entry ev)) evs
                  = List.map url (import_text text)) by apply events_from_urls.
  split; [|split].
  - rewrite Hurls. unfold import_text. now rewrite map_map.
  - rewrite length_rev, length_map. unfold evs. rewrite events_from_length.
    unfold import_text. apply length_map.
  - apply Forall_forall. intros e He. apply in_rev in He.
    apply in_map_iff in He. destruct He as (ev & <- & Hev).
    assert (Hin : In (log_url (ev_entry ev))
                     (List.map (fun ev => log_url (ev_entry ev)) evs))
      by (apply in_map_iff; now exists ev).
    rewrite Hurls in Hin. apply in_map_iff in Hin. destruct Hin as (t & <- & Ht).
    unfold import_text in Ht. apply in_map_iff in Ht.
    destruct Ht as (line & <- & Hline).
    destruct (import_lines_kept _ _ Hline) as [Hl0 Hnl].
    now destruct (parse_line_fields line Hl0 Hnl) as (_ & Hu & _).
Qed.

Lemma upload_then_run_witness :
  let text := lit "Post A|https://a.blogspot.com/1" ++ newline :: newline
              :: lit "https://b.blogspot.com/2" in
  let r := startBulk sample_env
             (handleFileUpload text (sample_state [] (lit "x") false)) in
  List.map (fun ev => log_url (ev_entry ev)) (emitted r)
  = List.map (fun line => url (parse_line line)) (import_lines text) /\
  List.length (logs (app r)) = List.length (import_lines text) /\
  Forall (fun e => log_url e <> []) (logs (app r)).
Proof.
  apply (upload_then_run sample_env
           (lit "Post A|https://a.blogspot.com/1" ++ newline :: newline
            :: lit "https://b.blogspot.com/2")
           (sample_state [] (lit "x") false)).
  - discriminate.
  - vm_compute. discriminate.
Defined.

(** ** The export *)

(** When no title and no url holds a newline, the exported text has one
    line per search result, each of them the record [title|url], with
    nothing after the last one, and the import keeps every line. *)
Theorem export_one_record_per_line (st : AppState) (content : jsstring) :
  exportToTxt st = Some content ->
  Forall (fun r => ~ In newline (title r) /\ ~ In newline (url r)) (searchResults st) ->
  split newline content = List.map export_line (searchResults st) /\
  import_lines content = List.map export_line (searchResults st).
Proof.
  intros Hexp Hall. unfold exportToTxt in Hexp.
  destruct (searchResults st) as [|r rs] eqn:Hfound; [discriminate|].
  injection Hexp as <-. unfold export_content.
  assert (Hsplit : split newline (join newline (List.map export_line (r :: rs)))
                   = List.map export_line (r :: rs)).
  { apply split_join; [discriminate|].
    apply Forall_forall. intros l Hl. apply in_map_iff in Hl.
    destruct Hl as (x & <- & Hx).
    rewrite Forall_forall in Hall. destruct (Hall x Hx) as [Ht Hu].
    unfold export_line. intros Hin. apply in_app_or in Hin.
    destruct Hin as [H|[H|H]]; [tauto|discriminate|tauto]. }
  split; [exact Hsplit|].
  unfold import_lines. rewrite Hsplit. apply filter_all.
  apply Forall_forall. intros l Hl. apply in_map_iff in Hl.
  destruct Hl as (x & <- & _). apply export_line_kept.
Qed.

Lemma export_one_record_per_line_witness :
  let content := lit "Post A|https://a.blogspot.com/1" ++ newline
                 :: lit "Post B|https://b.blogspot.com/2" in
  split newline content = List.map export_line [post_a; post_b] /\
  import_lines content = List.map export_line [post_a; post_b].
Proof.
  apply (export_one_record_per_line (finder_state [post_a; post_b])).
  - reflexivity.
  - repeat constructor; vm_compute; intuition discriminate.
Defined.

(** ** The bulk runner: what a run uses and what it leaves alone *)

(** A run over [N] targets draws 2 N random numbers, reads the clock [N]
    times and is suspended [N] times for 800 ms. *)
Theorem run_resources (env : Env) (st : AppState) :
  bulkTargets st <> [] -> generatedCommentText st <> [] ->
  let n := List.length (bulkTargets st) in
  let r := startBulk env st in
  rand_calls r = (2 * n)%nat /\ now_calls r = n /\
  delays r = repeat 800 n /\ total_delay r = 800 * Z.of_nat n.
Proof.
  intros Ht Hc n r. unfold r. rewrite startBulk_run by assumption.
  fold n. cbn [rand_calls now_calls delays]. repeat split.
  unfold total_delay. cbn [delays].
  induction n as [|k IH]; [reflexivity|].
  cbn [repeat fold_right]. rewrite IH. lia.
Qed.

Lemma run_resources_witness :
  let r := startBulk sample_env (sample_state [post_a; post_b] (lit "x") false) in
  rand_calls r = 4%nat /\ now_calls r = 2%nat /\
  delays r = [800; 800] /\ total_delay r = 1600.
Proof.
  apply (run_resources sample_env (sample_state [post_a; post_b] (lit "x") false));
    discriminate.
Defined.

(** A run that passes the guards changes the log, the progress and the
    running flag only: the targets, the comment text, the search results
    and the two notifications stay. In particular an error shown before
    the run is still shown after it. *)
Theorem run_frame (env : Env) (st : AppState) :
  bulkTargets st <> [] -> generatedCommentText st <> [] ->
  let st' := app (startBulk env st) in
  bulkTargets st' = bulkTargets st /\
  generatedCommentText st' = generatedCommentText st /\
  searchResults st' = searchResults st /\
  error st' = error st /\ success st' = success st.
Proof.
  intros Ht Hc. cbv zeta. rewrite startBulk_run by assumption. cbn [app].
  destruct (fold_apply_event_fields
              (events_from env (Z.of_nat (List.length (bulkTargets st)))
                 (bulkTargets st) 0 0 0)
              (set_progress (of_int 0) (set_logs [] (set_isBulking true st))))
    as (H1 & H2 & H3 & H4 & H5 & _).
  cbn [bulkTargets generatedCommentText searchResults error success set_isBulking].
  rewrite H1, H2, H3, H4, H5. repeat split.
Qed.

Lemma run_frame_witness :
  let st := set_error (Some MissingComment)
              (sample_state [post_a; post_b] (lit "x") false) in
  let st' := app (startBulk sample_env st) in
  bulkTargets st' = bulkTargets st /\
  generatedCommentText st' = generatedCommentText st /\
  searchResults st' = searchResults st /\
  error st' = error st /\ success st' = success st.
Proof.
  apply (run_frame sample_env
           (set_error (Some MissingComment)
              (sample_state [post_a; post_b] (lit "x") false)));
    discriminate.
Defined.

(** Every progress value of a run is a whole number from 0 to 100. *)
Theorem progress_is_percentage (env : Env) (st : AppState) :
  bulkTargets st <> [] -> generatedCommentText st <> [] ->
  Z.of_nat (List.length (bulkTargets st)) <= max_length ->
  Forall (fun p => exists z, 0 <= z <= 100 /\ p = of_int z)
         (progress_values (startBulk env st)).
Proof.
  intros Ht Hc HN. unfold progress_values. rewrite startBulk_run by assumption.
  cbn [emitted]. rewrite events_from_progress.
  apply Forall_forall. intros p Hp. apply in_map_iff in Hp.
  destruct Hp as (j & <- & Hj). apply in_seq in Hj.
  apply progress_after_integer; [lia|].
  rewrite pow_prec. unfold max_length in HN.
  change (2 ^ 32 - 1) with 4294967295 in HN. lia.
Qed.

Lemma progress_is_percentage_witness :
  Forall (fun p => exists z, 0 <= z <= 100 /\ p = of_int z)
         (progress_values
            (startBulk sample_env (sample_state [post_a; post_b] (lit "x") false))).
Proof.
  apply (progress_is_percentage sample_env
           (sample_state [post_a; post_b] (lit "x") false)).
  - discriminate.
  - discriminate.
  - vm_compute. discriminate.
Defined.

(** Through the button the empty-list error cannot arise: the button is
    disabled when there is no target. *)
Theorem click_start_never_empty_error (env : Env) (st : AppState) :
  error st <> Some EmptyTargetList ->
  error (app (click_start env st)) <> Some EmptyTargetList.
Proof.
  intros Hst. unfold click_start, start_disabled.
  destruct (isBulking st); [exact Hst|]. cbn [orb].
  destruct (Z.eqb_spec (Z.of_nat (List.length (bulkTargets st))) 0) as [H0|H0];
    [exact Hst|].
  assert (Ht : bulkTargets st <> []) by (intros E; rewrite E in H0; apply H0; reflexivity).
  destruct (generatedCommentText st) as [|c cs] eqn:Hc.
  - unfold startBulk. rewrite Hc.
    replace (Z.of_nat (List.length (bulkTargets st)) =? 0) with false
      by (symmetry; now apply Z.eqb_neq).
    vm_compute. discriminate.
  - assert (Hc' : generatedCommentText st <> []) by (rewrite Hc; discriminate).
    rewrite startBulk_run by assumption. cbn [app error set_isBulking].
    destruct (fold_apply_event_fields
                (events_from env (Z.of_nat (List.length (bulkTargets st)))
                   (bulkTargets st) 0 0 0)
                (set_progress (of_int 0) (set_logs [] (set_isBulking true st))))
      as (-> & _).
    exact Hst.
Qed.

Lemma click_start_never_empty_error_witness :
  error (app (click_start sample_env (sample_state [] (lit "x") false)))
  <> Some EmptyTargetList.
Proof.
  apply click_start_never_empty_error. discriminate.
Defined.

(** ** The Blog Finder: the filter and the cut *)

Lemma starts_with_spec (sub s : jsstring) :
  starts_with sub s = true <-> exists post, s = sub ++ post.
Proof.
  revert s. induction sub as [|a sub IH]; intros s; simpl.
  - split; [intros _; now exists s|reflexivity].
  - destruct s as [|b s].
    + split; [discriminate|intros [post H]; discriminate].
    + rewrite andb_true_iff, N.eqb_eq, IH. split.
      * intros [-> [post ->]]. now exists post.
      * intros [post H]. injection H as -> ->. split; [reflexivity|now exists post].
Qed.

(** [includes] is containment: some text before, some text after. *)
Lemma includes_spec (sub s : jsstring) :
  includes sub s = true <-> exists pre post, s = pre ++ sub ++ post.
Proof.
  split.
  - induction s as [|c s IH]; simpl; rewrite orb_true_iff.
    + intros [H|H]; [|discriminate].
      apply starts_with_spec in H. destruct H as [post ->]. now exists [], post.
    + intros [H|H].
      * apply starts_with_spec in H. destruct H as [post ->]. now exists [], post.
      * destruct (IH H) as (pre & post & ->). now exists (c :: pre), post.
  - intros (pre & post & ->). induction pre as [|c pre IH].
    + simpl app. destruct (sub ++ post) eqn:E; simpl; rewrite orb_true_iff; left;
        apply starts_with_spec; exists post; now rewrite E.
    + simpl. rewrite IH. apply orb_true_r.
Qed.

Lemma has_date_segment_spec (s : jsstring) :
  has_date_segment s = true <->
  exists pre y1 y2 y3 y4 m1 m2 post,
    s = pre ++ slash :: y1 :: y2 :: y3 :: y4 :: slash :: m1 :: m2 :: slash :: post /\
    is_digit y1 = true /\ is_digit y2 = true /\ is_digit y3 = true /\
    is_digit y4 = true /\ is_digit m1 = true /\ is_digit m2 = true.
Proof.
  assert (Hhere : forall s, date_segment_here s = true <->
            exists y1 y2 y3 y4 m1 m2 post,
              s = slash :: y1 :: y2 :: y3 :: y4 :: slash :: m1 :: m2 :: slash :: post /\
              is_digit y1 = true /\ is_digit y2 = true /\ is_digit y3 = true /\
              is_digit y4 = true /\ is_digit m1 = true /\ is_digit m2 = true).
  { intros t. unfold date_segment_here. split.
    - destruct t as [|a [|y1 [|y2 [|y3 [|y4 [|b [|m1 [|m2 [|c post]]]]]]]]];
        try discriminate.
      rewrite !andb_true_iff, !N.eqb_eq.
      intros ((((((((-> & H1) & H2) & H3) & H4) & ->) & H5) & H6) & ->).
      exists y1, y2, y3, y4, m1, m2, post. repeat split; assumption.
    - intros (y1 & y2 & y3 & y4 & m1 & m2 & post & -> & H1 & H2 & H3 & H4 & H5 & H6).
      rewrite H1, H2, H3, H4, H5, H6, !N.eqb_refl. reflexivity. }
  split.
  - induction s as [|c s IH].
    + simpl. discriminate.
    + change (has_date_segment (c :: s))
        with (date_segment_here (c :: s) || has_date_segment s).
      rewrite orb_true_iff. intros [H|H].
      * apply Hhere in H.
        destruct H as (y1 & y2 & y3 & y4 & m1 & m2 & post & E & Hd).
        exists [], y1, y2, y3, y4, m1, m2, post. split; [exact E|exact Hd].
      * destruct (IH H) as (pre & y1 & y2 & y3 & y4 & m1 & m2 & post & -> & Hd).
        exists (c :: pre), y1, y2, y3, y4, m1, m2, post. split; [reflexivity|exact Hd].
  - intros (pre & y1 & y2 & y3 & y4 & m1 & m2 & post & -> & Hd).
    induction pre as [|c pre IH].
    + change (has_date_segment
                ([] ++ slash :: y1 :: y2 :: y3 :: y4 :: slash :: m1 :: m2 :: slash :: post))
        with (date_segment_here
                (slash :: y1 :: y2 :: y3 :: y4 :: slash :: m1 :: m2 :: slash :: post)
              || has_date_segment
                   (y1 :: y2 :: y3 :: y4 :: slash :: m1 :: m2 :: slash :: post)).
      apply orb_true_iff. left. apply Hhere.
      exists y1, y2, y3, y4, m1, m2, post. split; [reflexivity|exact Hd].
    + change (has_date_segment
                ((c :: pre) ++ slash :: y1 :: y2 :: y3 :: y4 :: slash :: m1 :: m2 :: slash :: post))
        with (date_segment_here
                (c :: pre ++ slash :: y1 :: y2 :: y3 :: y4 :: slash :: m1 :: m2 :: slash :: post)
              || has_date_segment
                   (pre ++ slash :: y1 :: y2 :: y3 :: y4 :: slash :: m1 :: m2 :: slash :: post)).
      rewrite IH. apply orb_true_r.
Qed.

(** A candidate passes the filter exactly when its url holds the text
    [.html] somewhere, or a slash, four digits, a slash, two digits and a
    slash in a row. *)
Theorem article_like_meaning (item : BlogResult) :
  article_like item = true <->
  (exists pre post, url item = pre ++ lit ".html" ++ post) \/
  (exists pre y1 y2 y3 y4 m1 m2 post,
     url item
     = pre ++ slash :: y1 :: y2 :: y3 :: y4 :: slash :: m1 :: m2 :: slash :: post /\
     is_digit y1 = true /\ is_digit y2 = true /\ is_digit y3 = true /\
     is_digit y4 = true /\ is_digit m1 = true /\ is_digit m2 = true).
Proof.
  unfold article_like. rewrite orb_true_iff, includes_spec, has_date_segment_spec.
  reflexivity.
Qed.

Lemma article_like_url (r : BlogResult) : article_like r = true -> url r <> [].
Proof.
  unfold article_like. intros H E. rewrite E in H. discriminate.
Qed.

Lemma chunk_result_title (c : Chunk) : title (chunk_result c) <> [].
Proof.
  unfold chunk_result. cbn [title].
  destruct (match web c with Some w => web_title w | None => None end) as [[|a s]|];
    discriminate.
Qed.

(** Whatever the service answers and whatever the count, every candidate
    returned has a title and a url that are not empty. *)
Theorem searchBlogs_fields
    (render : Z -> jsstring) (generateContent : jsstring -> Response)
    (keyword : jsstring) (count : Z) :
  Forall (fun r => title r <> [] /\ url r <> [])
         (results (searchBlogs render generateContent keyword count)).
Proof.
  unfold searchBlogs. cbn [results].
  destruct (groundingChunks _) as [chunks|]; [|constructor].
  apply Forall_forall. intros r Hr. apply slice0_incl in Hr.
  apply filter_In in Hr. destruct Hr as [Hr Hlike].
  apply in_map_iff in Hr. destruct Hr as (c & <- & _).
  split; [apply chunk_result_title|now apply article_like_url].
Qed.

(** When the count is at least the number of article-like candidates,
    none of them is lost. *)
Theorem searchBlogs_all_when_enough
    (render : Z -> jsstring) (generateContent : jsstring -> Response)
    (keyword : jsstring) (count : Z) :
  let candidates :=
    article_candidates (generateContent (search_query render keyword count)) in
  Z.of_nat (List.length candidates) <= count ->
  results (searchBlogs render generateContent keyword count) = candidates.
Proof.
  intros candidates Hc. unfold searchBlogs, candidates, article_candidates in *.
  cbn [results].
  destruct (groundingChunks _) as [chunks|]; [|reflexivity].
  unfold slice0.
  set (l := filter article_like (List.map chunk_result chunks)) in *.
  replace (count <? 0) with false by (symmetry; apply Z.ltb_ge; lia).
  apply firstn_all2. lia.
Qed.

Lemma searchBlogs_all_when_enough_witness :
  results (searchBlogs sample_render twice_the_same (lit "tekno") 2)
  = [chunk_result article_chunk; chunk_result article_chunk].
Proof.
  apply (searchBlogs_all_when_enough sample_render twice_the_same (lit "tekno") 2).
  vm_compute. discriminate.
Defined.

(** A negative count drops that many candidates from the end and returns
    the others, in order: the result is empty exactly when there are no
    more candidates than were to be dropped. *)
Theorem searchBlogs_negative_count_drops
    (render : Z -> jsstring) (generateContent : jsstring -> Response)
    (keyword : jsstring) (count : Z) :
  count < 0 ->
  let candidates :=
    article_candidates (generateContent (search_query render keyword count)) in
  let found := results (searchBlogs render generateContent keyword count) in
  List.length found = (List.length candidates - Z.to_nat (- count))%nat /\
  found = firstn (List.length found) candidates /\
  (found = [] <-> (List.length candidates <= Z.to_nat (- count))%nat).
Proof.
  intros Hc candidates found.
  assert (Hlen : List.length found
                 = (List.length candidates - Z.to_nat (- count))%nat
                 /\ found = firstn (List.length found) candidates).
  { unfold found, candidates, searchBlogs, article_candidates. cbn [results].
    destruct (groundingChunks _) as [chunks|]; [|split; reflexivity].
    unfold slice0.
    set (l := filter article_like (List.map chunk_result chunks)).
    replace (count <? 0) with true by (symmetry; apply Z.ltb_lt; lia).
    rewrite length_firstn.
    replace (Nat.min (Z.to_nat (Z.max (Z.of_nat (List.length l) + count) 0))
                     (List.length l))
      with (Z.to_nat (Z.max (Z.of_nat (List.length l) + count) 0)) by lia.
    split; [lia|reflexivity]. }
  destruct Hlen as [Hlen Hprefix].
  split; [exact Hlen|split; [exact Hprefix|]].
  rewrite <- length_zero_iff_nil, Hlen. lia.
Qed.

Lemma searchBlogs_negative_count_drops_witness :
  let candidates :=
    article_candidates (twice_the_same (search_query sample_render (lit "tekno") (-1))) in
  let found := results (searchBlogs sample_render twice_the_same (lit "tekno") (-1)) in
  List.length found = (List.length candidates - Z.to_nat (- (-1)))%nat /\
  found = firstn (List.length found) candidates /\
  (found = [] <-> (List.length candidates <= Z.to_nat (- (-1)))%nat).
Proof.
  apply (searchBlogs_negative_count_drops sample_render twice_the_same (lit "tekno") (-1)).
  lia.
Defined.

(** ** The search, the import from the finder and the run *)

(** After a search the busy flag is down; no error is shown exactly when
    the service answered and at least one candidate was kept; a failed
    call keeps the results of the search before; the targets, the comment
    text, the log and the progress are not touched. *)
Theorem handleSearch_outcome (render : Z -> jsstring)
    (service : jsstring -> option Response) (form : FinderForm) (st : AppState) :
  let call := searchBlogs_call render service (searchKeyword form) (searchCount form) in
  let form' := fst (handleSearch render service form st) in
  let st' := snd (handleSearch render service form st) in
  isSearching form' = false /\
  (error st' = None <-> exists out, call = Some out /\ results out <> []) /\
  (forall out, call = Some out -> searchResults st' = results out) /\
  (call = None ->
   searchResults st' = searchResults st /\ error st' = Some msg_search_failed) /\
  bulkTargets st' = bulkTargets st /\
  generatedCommentText st' = generatedCommentText st /\
  logs st' = logs st /\ progress st' = progress st /\ isBulking st' = isBulking st.
Proof.
  cbv zeta. unfold handleSearch. cbn [fst snd isSearching].
  destruct (searchBlogs_call render service (searchKeyword form) (searchCount form))
    as [out|].
  - split; [reflexivity|].
    destruct (results out) as [|r rs] eqn:Hres.
    + cbn. repeat split; try discriminate.
      * intros (o & Ho & Hne). injection Ho as <-. congruence.
      * intros o Ho. injection Ho as <-. now rewrite Hres.
    + cbn. repeat split; try discriminate.
      * intros _. exists out. split; [reflexivity|]. rewrite Hres. discriminate.
      * intros o Ho. injection Ho as <-. now rewrite Hres.
  - cbn. repeat split; try discriminate.
    intros (o & Ho & _). discriminate.
Qed.

(** From the search to the log: when the service answers with at least
    one article-like candidate and a comment text is set, importing from
    the finder and running gives one entry per candidate found, in the
    order of the search, every url of the log article-like, and for a
    count that is not negative at most that many entries. *)
Theorem search_import_run (render : Z -> jsstring)
    (service : jsstring -> option Response) (env : Env)
    (form : FinderForm) (st : AppState) (out : SearchOutcome) :
  searchBlogs_call render service (searchKeyword form) (searchCount form) = Some out ->
  results out <> [] ->
  generatedCommentText st <> [] ->
  let st1 := snd (handleSearch render service form st) in
  let r := startBulk env (importFromFinder st1) in
  List.map (fun ev => log_url (ev_entry ev)) (emitted r) = List.map url (results out) /\
  Forall (fun e => article_like (mkBlog [] (log_url e)) = true) (logs (app r)) /\
  (0 <= searchCount form ->
   Z.of_nat (List.length (logs (app r))) <= searchCount form).
Proof.
  intros Hcall Hres Hc. cbv zeta.
  assert (Hst1 : searchResults (snd (handleSearch render service form st)) = results out
                 /\ generatedCommentText (snd (handleSearch render service form st))
                    = generatedCommentText st).
  { unfold handleSearch. rewrite Hcall. cbn [snd].
    destruct (results out) as [|x xs]; [congruence|]. cbn. split; reflexivity. }
  destruct Hst1 as [Hfound Hcomment].
  revert Hfound Hcomment.
  generalize (snd (handleSearch render service form st)). intros st1 Hfound Hcomment.
  assert (Himp : bulkTargets (importFromFinder st1) = results out
                 /\ generatedCommentText (importFromFinder st1) = generatedCommentText st).
  { unfold importFromFinder. rewrite Hfound.
    destruct (results out) as [|x xs] eqn:E; [congruence|].
    cbn. split; [reflexivity|exact Hcomment]. }
  destruct Himp as [Htargets Hcomment2].
  rewrite startBulk_run by (rewrite ?Htargets, ?Hcomment2; assumption).
  cbn [emitted app logs set_isBulking].
  rewrite Htargets.
  set (evs := events_from env (Z.of_nat (List.length (results out))) (results out) 0 0 0).
  destruct (fold_apply_event_fields evs
              (set_progress (of_int 0)
                 (set_logs [] (set_isBulking true (importFromFinder st1)))))
    as (_ & _ & _ & _ & _ & _ & Hlogs & _).
  rewrite Hlogs. cbn [logs set_progress set_logs]. rewrite app_nil_r.
  assert (Hurls : List.map (fun ev => log_url (ev_entry ev)) evs
                  = List.map url (results out)) by apply events_from_urls.
  (* what the search kept *)
  unfold searchBlogs_call in Hcall.
  destruct (service (search_query render (searchKeyword form) (searchCount form)))
    as [response|]; [|discriminate].
  injection Hcall as <-. unfold searchBlogs in *. cbn [results] in *.
  split; [exact Hurls|]. split.
  - apply Forall_forall. intros e He. apply in_rev in He.
    apply in_map_iff in He. destruct He as (ev & <- & Hev).
    assert (Hin : In (log_url (ev_entry ev))
                     (List.map (fun ev => log_url (ev_entry ev)) evs))
      by (apply in_map_iff; now exists ev).
    rewrite Hurls in Hin. apply in_map_iff in Hin. destruct Hin as (b & Hb & Hbin).
    destruct (groundingChunks response) as [chunks|]; [|destruct Hbin].
    apply slice0_incl in Hbin. apply filter_In in Hbin. destruct Hbin as [_ Hlike].
    unfold article_like in *. cbn [url]. now rewrite <- Hb.
  - intros Hcount. rewrite length_rev, length_map.
    unfold evs. rewrite events_from_length.
    destruct (groundingChunks response) as [chunks|]; [|simpl; lia].
    now apply slice0_length.
Qed.

Lemma search_import_run_witness :
  let st1 := snd (handleSearch sample_render answering_service sample_form
                    (sample_state [] (lit "x") false)) in
  let r := startBulk sample_env (importFromFinder st1) in
  List.map (fun ev => log_url (ev_entry ev)) (emitted r)
  = List.map url [chunk_result article_chunk; chunk_result article_chunk] /\
  Forall (fun e => article_like (mkBlog [] (log_url e)) = true) (logs (app r)) /\
  (0 <= 10 -> Z.of_nat (List.length (logs (app r))) <= 10).
Proof.
  apply (search_import_run sample_render answering_service sample_env sample_form
           (sample_state [] (lit "x") false)
           (mkOutcome None [chunk_result article_chunk; chunk_result article_chunk])).
  - reflexivity.
  - discriminate.
  - discriminate.
Defined.

(** With no search result the import from the finder reports an error and
    keeps the targets that were there, which a run then still processes. *)
Theorem importFromFinder_nothing_found (env : Env) (st : AppState) :
  searchResults st = [] ->
  bulkTargets (importFromFinder st) = bulkTargets st /\
  error (importFromFinder st) = Some msg_search_first /\
  emitted (startBulk env (importFromFinder st)) = emitted (startBulk env st).
Proof.
  intros Hs. unfold importFromFinder. rewrite Hs. cbn.
  repeat split. unfold startBulk. cbn.
  destruct (Z.of_nat (List.length (bulkTargets st)) =? 0); [reflexivity|].
  destruct (negb (truthy (generatedCommentText st))); [reflexivity|].
  cbn [with_app emitted].
  rewrite !bulk_loop_run. reflexivity.
Qed.

Lemma importFromFinder_nothing_found_witness :
  let st := sample_state [post_a] (lit "x") false in
  bulkTargets (importFromFinder st) = bulkTargets st /\
  error (importFromFinder st) = Some msg_search_first /\
  emitted (startBulk sample_env (importFromFinder st)) = emitted (startBulk sample_env st).
Proof.
  apply (importFromFinder_nothing_found sample_env (sample_state [post_a] (lit "x") false)).
  reflexivity.
Defined.

(** ** The comment text *)

(** When a field of the form is empty or the service fails, an error is
    shown and the comment text stays as it was. *)
Theorem generate_failure_keeps_comment (ai : jsstring -> option (option jsstring))
    (form : SettingsForm) (st : AppState) :
  targetUrl form = [] \/ keywords form = [] \/
  generateComment ai (keywords form) (targetUrl form) default_tone = None ->
  let st' := snd (handleGenerateCommentText ai form st) in
  generatedCommentText st' = generatedCommentText st /\
  (error st' = Some msg_fill_first \/ error st' = Some msg_generate_failed) /\
  isGeneratingComment (fst (handleGenerateCommentText ai form st))
  = (if truthy (targetUrl form) && truthy (keywords form)
     then false else isGeneratingComment form).
Proof.
  intros H. cbv zeta. unfold handleGenerateCommentText.
  destruct (targetUrl form) as [|a u] eqn:Hu; [cbn; auto|].
  destruct (keywords form) as [|b k] eqn:Hk; [cbn; auto|].
  destruct H as [H|[H|H]]; try discriminate.
  cbn [truthy negb orb andb]. rewrite H. cbn. auto.
Qed.

Lemma generate_failure_keeps_comment_witness :
  let st := sample_state [post_a] (lit "x") false in
  let st' := snd (handleGenerateCommentText failing_ai sample_settings st) in
  generatedCommentText st' = generatedCommentText st /\
  (error st' = Some msg_fill_first \/ error st' = Some msg_generate_failed) /\
  isGeneratingComment (fst (handleGenerateCommentText failing_ai sample_settings st))
  = (if truthy (targetUrl sample_settings) && truthy (keywords sample_settings)
     then false else isGeneratingComment sample_settings).
Proof.
  apply (generate_failure_keeps_comment failing_ai sample_settings
           (sample_state [post_a] (lit "x") false)).
  right. right. reflexivity.
Defined.

(** From the generation to the run: once the service has answered, a run
    over a list with targets starts exactly when the answer holds a text
    that is not empty; an answer without text, or with the empty text,
    clears the comment text and the run is refused with MissingComment. *)
Theorem generate_then_run (ai : jsstring -> option (option jsstring)) (env : Env)
    (form : SettingsForm) (st : AppState) (result : option jsstring) :
  targetUrl form <> [] -> keywords form <> [] ->
  generateComment ai (keywords form) (targetUrl form) default_tone = Some result ->
  bulkTargets st <> [] ->
  let st' := snd (handleGenerateCommentText ai form st) in
  let r := startBulk env st' in
  generatedCommentText st' = or_else result [] /\
  (or_else result [] = [] ->
   error (app r) = Some MissingComment /\ emitted r = []) /\
  (or_else result [] <> [] ->
   error (app r) = None /\
   List.length (emitted r) = List.length (bulkTargets st) /\
   isBulking (app r) = false).
Proof.
  intros Hu Hk Hgen Ht. cbv zeta. unfold handleGenerateCommentText.
  destruct (targetUrl form) as [|a u] eqn:Eu; [congruence|].
  destruct (keywords form) as [|b k] eqn:Ek; [congruence|].
  cbn [truthy negb orb]. rewrite Hgen. cbn [snd].
  set (st' := set_generatedCommentText (or_else result []) (set_error None st)).
  assert (Htargets : bulkTargets st' = bulkTargets st) by reflexivity.
  split; [reflexivity|]. split.
  - intros Hempty. unfold startBulk. rewrite Htargets.
    replace (Z.of_nat (List.length (bulkTargets st)) =? 0) with false
      by (symmetry; apply Z.eqb_neq; destruct (bulkTargets st); [congruence|simpl; lia]).
    unfold st'. cbn [generatedCommentText set_generatedCommentText].
    rewrite Hempty. split; reflexivity.
  - intros Hfull.
    rewrite startBulk_run by (rewrite ?Htargets; assumption).
    cbn [app emitted error isBulking set_isBulking]. rewrite Htargets.
    destruct (fold_apply_event_fields
                (events_from env (Z.of_nat (List.length (bulkTargets st)))
                   (bulkTargets st) 0 0 0)
                (set_progress (of_int 0) (set_logs [] (set_isBulking true st'))))
      as (-> & _).
    split; [reflexivity|]. split; [apply events_from_length|reflexivity].
Qed.

Lemma generate_then_run_witness :
  let st := sample_state [post_a] (lit "old") false in
  let st' := snd (handleGenerateCommentText silent_ai sample_settings st) in
  let r := startBulk sample_env st' in
  generatedCommentText st' = or_else None [] /\
  (or_else None [] = [] ->
   error (app r) = Some MissingComment /\ emitted r = []) /\
  (or_else None [] <> [] ->
   error (app r) = None /\
   List.length (emitted r) = List.length (bulkTargets st) /\
   isBulking (app r) = false).
Proof.
  apply (generate_then_run silent_ai sample_env sample_settings
           (sample_state [post_a] (lit "old") false) None).
  - discriminate.
  - discriminate.
  - reflexivity.
  - discriminate.
Defined.

(** The prompt of [generateComment] always holds the keywords, the tone
    and the anchor example around the link, [<a href=...>kata kunci</a>]
    with the link between double quotes, whatever the three are. *)
Theorem comment_prompt_holds_anchor (kw backlinkUrl tone : jsstring) :
  includes (lit "<a href=" ++ quote :: backlinkUrl ++ quote :: lit ">kata kunci</a>")
           (comment_prompt kw backlinkUrl tone) = true /\
  includes (lit "Kata Kunci: " ++ kw ++ [newline]) (comment_prompt kw backlinkUrl tone)
  = true /\
  includes (lit "Nada: " ++ tone ++ [newline]) (comment_prompt kw backlinkUrl tone)
  = true.
Proof.
  unfold comment_prompt. repeat split; apply includes_spec.
  - exists (prompt_intro ++ lit "Kata Kunci: " ++ kw
            ++ newline :: indent ++ lit "Nada: " ++ tone
            ++ prompt_tasks ++ backlinkUrl ++ lit ". Contoh: "), prompt_rule4.
    repeat (rewrite <- app_assoc || rewrite <- app_comm_cons). reflexivity.
  - exists prompt_intro,
      (indent ++ lit "Nada: " ++ tone
       ++ prompt_tasks ++ backlinkUrl
       ++ lit ". Contoh: " ++ lit "<a href=" ++ quote :: backlinkUrl ++ quote
       :: lit ">kata kunci</a>" ++ prompt_rule4).
    repeat (rewrite <- app_assoc || rewrite <- app_comm_cons). reflexivity.
  - exists (prompt_intro ++ lit "Kata Kunci: " ++ kw ++ newline :: indent),
      (indent ++ skipn 5 prompt_tasks ++ backlinkUrl
       ++ lit ". Contoh: " ++ lit "<a href=" ++ quote :: backlinkUrl ++ quote
       :: lit ">kata kunci</a>" ++ prompt_rule4).
    change prompt_tasks with (newline :: indent ++ skipn 5 prompt_tasks).
    repeat (rewrite <- app_assoc || rewrite <- app_comm_cons). reflexivity.
Qed.

(** The prompt for the keywords [SEO], the link [https://w.id/p] and the
    default tone, as the template literal of the source gives it. *)
Example comment_prompt_sample :
  comment_prompt (lit "SEO") (lit "https://w.id/p") default_tone
  = lit "Buatlah sebuah komentar blog yang menarik dan relevan dalam Bahasa Indonesia.
    Kata Kunci: SEO
    Nada: santai
    
    Tugas Anda:
    1. Buat komentar singkat (2-3 kalimat).
    2. Pastikan salah satu kata kunci dari daftar di atas muncul dalam teks.
    3. Bungkus kata kunci tersebut dengan tag HTML link ke: https://w.id/p. Contoh: <a href="
    ++ quote :: lit "https://w.id/p" ++ quote :: lit ">kata kunci</a>.
    4. Komentar harus terlihat alami dan tidak seperti spam.".
Proof. vm_compute. reflexivity. Qed.

(** ** The progress against the exact percentage *)

(** The rounding to the nearest integer is off by half a unit at most. *)
Lemma rhe_error (A C : Z) :
  0 < C -> 2 * A - C <= 2 * (C * rhe A C) <= 2 * A + C.
Proof.
  intros HC.
  pose proof (Z.div_mod A C ltac:(lia)) as Hdm.
  pose proof (Z.mod_pos_bound A C HC) as Hr.
  unfold rhe, loc_of, round_nearest_even.
  destruct (Z.eqb_spec (A mod C) 0) as [H0|H0]; [nia|].
  destruct (Z.compare_spec (2 * (A mod C)) C) as [He|Hl|Hg];
    try destruct (Z.even (A / C)); nia.
Qed.

(** The rounding to 53 digits is off by half a unit of the last digit. *)
Lemma rne_error (A B : Z) :
  0 < B -> 2 ^ (prec - 1) <= A / B ->
  let M := fst (rne A B) in
  let s := snd (rne A B) in
  0 <= s /\
  2 * A - B * 2 ^ s <= 2 * (B * M * 2 ^ s) <= 2 * A + B * 2 ^ s.
Proof.
  intros HB Hq. cbv zeta.
  destruct (excess_quotient A B HB Hq) as [Hn _].
  assert (Hp : 0 < 2 ^ excess A B) by (apply Z.pow_pos_nonneg; lia).
  pose proof (rhe_error A (B * 2 ^ excess A B) ltac:(nia)) as He.
  unfold rne.
  destruct (Z.eqb_spec (rhe A (B * 2 ^ excess A B)) (2 ^ prec)) as [HM|HM];
    cbn [fst snd].
  - rewrite HM in He. split; [lia|].
    rewrite Z.pow_add_r by lia. change (2 ^ 1) with 2.
    rewrite pow_prec, pow_prec_1 in *.
    set (P := 2 ^ excess A B) in *. clearbody P. nia.
  - split; [lia|].
    set (P := 2 ^ excess A B) in *. set (M := rhe A (B * P)) in *.
    clearbody M P. nia.
Qed.

(** The quotient of two counts, with its error. *)
Lemma div_error (k N : Z) :
  0 < k <= N -> N < 2 ^ prec ->
  exists (q : positive) (E : Z),
    div (of_int k) (of_int N) = S754_finite false q (- E) /\
    normal53 q /\ 52 <= E <= 200 /\
    2 ^ (E + 1) * k - N <= 2 * (N * Zpos q) <= 2 ^ (E + 1) * k + N.
Proof.
  intros Hk HN.
  destruct (of_int_exact k ltac:(lia)) as [Hofk Hnk].
  destruct (of_int_exact N ltac:(lia)) as [HofN HnN].
  pose proof (Zdigits2_bounds k ltac:(lia)) as Hdk.
  pose proof (Zdigits2_bounds N ltac:(lia)) as HdN.
  pose proof (Zdigits2_pos k ltac:(lia)) as Hdk0.
  pose proof (Zdigits2_pos N ltac:(lia)) as HdN0.
  pose proof (Zdigits2_mono k N ltac:(lia) ltac:(lia)) as Hdd.
  set (dk := Zdigits2 k) in *. set (dN := Zdigits2 N) in *.
  assert (HdN53 : dN <= prec).
  { destruct (Z.le_gt_cases dN prec) as [|Hgt]; [assumption|].
    assert (2 ^ prec <= 2 ^ (dN - 1)) by (apply Z.pow_le_mono_r; lia). lia. }
  set (mk := Z.to_pos (k * 2 ^ (prec - dk))) in *.
  set (mN := Z.to_pos (N * 2 ^ (prec - dN))) in *.
  pose proof (normal53_bounds mk Hnk) as Hbk.
  pose proof (normal53_bounds mN HnN) as HbN.
  rewrite pow_prec, pow_prec_1 in Hbk, HbN.
  assert (Hmk : Zpos mk = k * 2 ^ (prec - dk)).
  { unfold mk. apply Z2Pos.id.
    pose proof (Z.pow_pos_nonneg 2 (prec - dk) ltac:(lia) ltac:(lia)). nia. }
  assert (HmN : Zpos mN = N * 2 ^ (prec - dN)).
  { unfold mN. apply Z2Pos.id.
    pose proof (Z.pow_pos_nonneg 2 (prec - dN) ltac:(lia) ltac:(lia)). nia. }
  (* the quotient is at most one *)
  pose proof (of_int_mono k N ltac:(lia) HN) as Hle.
  rewrite Hofk, HofN in Hle. apply le_finite in Hle.
  assert (Hek : -200 <= dk - prec <= 200) by (unfold prec in *; lia).
  assert (HeN : -200 <= dN - prec <= 200) by (unfold prec in *; lia).
  pose proof (div_mono mk mN mN (dk - prec) (dN - prec) (dN - prec) Hnk HnN HnN
                Hek HeN HeN Hle) as Hdiv.
  rewrite (div_self mN) in Hdiv by (try assumption; unfold prec in *; lia).
  rewrite Hofk, HofN.
  rewrite div_rne in * by (try assumption; unfold prec in *; lia).
  set (A := Zpos mk * 2 ^ prec) in *. set (B := Zpos mN) in *.
  assert (HB : 0 < B) by (unfold B; lia).
  assert (Hq : 2 ^ (prec - 1) <= A / B).
  { rewrite pow_prec_1. apply Z.div_le_lower_bound; [lia|].
    unfold A, B. rewrite pow_prec. lia. }
  pose proof (rne_mantissa A B HB Hq) as Hf.
  destruct (rne_error A B HB Hq) as [Hs Herr].
  rewrite pow_prec, pow_prec_1 in Hf.
  set (M := fst (rne A B)) in *. set (s := snd (rne A B)) in *.
  change (of_int 1) with (S754_finite false 4503599627370496 (-52)) in Hdiv.
  apply le_finite in Hdiv. rewrite Z2Pos.id in Hdiv by lia.
  assert (Hexp : dk - prec - (dN - prec) - prec + s <= -52)
    by (unfold lex_le in Hdiv; cbn [fst snd] in Hdiv; lia).
  exists (Z.to_pos M), (- (dk - prec - (dN - prec) - prec + s)).
  rewrite Z.opp_involutive. split; [reflexivity|]. split; [|split].
  - apply normal53_of_bounds. rewrite Z2Pos.id, pow_prec, pow_prec_1 by lia. lia.
  - unfold prec in *. lia.
  - rewrite Z2Pos.id by lia.
    set (E := - (dk - prec - (dN - prec) - prec + s)).
    (* everything is a multiple of 2^(53 - dN + s) *)
    set (a := prec - dN) in *. set (b := prec - dk) in *.
    assert (HE : b + prec = E + (a + s)) by (unfold E, a, b; lia).
    assert (HPpos : 0 < 2 ^ (a + s)) by (apply Z.pow_pos_nonneg; lia).
    assert (HA' : 2 * A = 2 ^ (E + 1) * k * 2 ^ (a + s)).
    { unfold A. rewrite Hmk.
      replace (2 ^ (E + 1)) with (2 * 2 ^ E)
        by (rewrite Z.pow_add_r by (unfold E; unfold prec in *; lia); change (2 ^ 1) with 2; lia).
      replace (2 * (k * 2 ^ b * 2 ^ prec)) with (2 * k * 2 ^ (b + prec))
        by (rewrite (Z.pow_add_r 2 b prec) by (unfold b, prec in *; lia); ring).
      rewrite HE, (Z.pow_add_r 2 E (a + s)) by (unfold E, a, prec in *; lia). ring. }
    assert (HB' : B * 2 ^ s = N * 2 ^ (a + s)).
    { rewrite HmN.
      rewrite (Z.pow_add_r 2 a s) by (unfold a; lia). ring. }
    replace (2 * (B * M * 2 ^ s)) with (2 * (N * M) * 2 ^ (a + s)) in Herr
      by (replace (B * M * 2 ^ s) with (B * 2 ^ s * M) by ring; rewrite HB'; ring).
    rewrite HA', HB' in Herr.
    set (P := 2 ^ (a + s)) in *. clearbody P.
    split; apply (Z.mul_le_mono_pos_r _ _ P HPpos); lia.
Qed.

Lemma tie_iff (k N : Z) :
  0 < N -> (is_tie k N <-> (200 * k + N) mod (2 * N) = 0).
Proof.
  intros HN. unfold is_tie.
  pose proof (Z.div_mod (200 * k) (2 * N) ltac:(lia)) as Hdm.
  pose proof (Z.mod_pos_bound (200 * k) (2 * N) ltac:(lia)) as Hr.
  set (u := (200 * k) mod (2 * N)) in *. set (a := 200 * k / (2 * N)) in *.
  split.
  - intros Hu. symmetry. apply (Z.mod_unique_pos _ _ (a + 1)); lia.
  - intros H0.
    destruct (Z.lt_ge_cases (u + N) (2 * N)) as [Hlt|Hge].
    + assert ((200 * k + N) mod (2 * N) = u + N)
        by (symmetry; apply (Z.mod_unique_pos _ _ a); lia).
      lia.
    + assert ((200 * k + N) mod (2 * N) = u - N)
        by (symmetry; apply (Z.mod_unique_pos _ _ (a + 1)); lia).
      lia.
Qed.

(** The arithmetic of the two roundings: with their errors of half a unit
    of the last digit, the product still rounds like the exact value,
    unless that value lies halfway between two integers. *)
Lemma percent_core (k N q p W T G : Z) :
  0 < k <= N -> N <= max_length ->
  4503599627370496 <= W -> 0 < T <= 18014398509481984 -> 0 < G ->
  G * T = W * 70368744177664 ->
  2 * (W * k) - N <= 2 * (N * q) <= 2 * (W * k) + N ->
  2 * (q * 7036874417766400) - T <= 2 * (p * T) <= 2 * (q * 7036874417766400) + T ->
  ~ is_tie k N ->
  (2 * p + G) / (2 * G) = exact_percent k N.
Proof.
  intros Hk HN HW HT HG HGT HD HM Htie.
  unfold max_length in HN. change (2 ^ 32 - 1) with 4294967295 in HN.
  rewrite tie_iff in Htie by lia.
  unfold exact_percent.
  pose proof (Z.div_mod (200 * k + N) (2 * N) ltac:(lia)) as Hdm.
  pose proof (Z.mod_pos_bound (200 * k + N) (2 * N) ltac:(lia)) as Hr.
  set (zx := (200 * k + N) / (2 * N)) in *.
  set (r := (200 * k + N) mod (2 * N)) in *.
  assert (Hr1 : 1 <= r <= 2 * N - 1) by lia.
  set (H := W * 70368744177664) in *.
  (* the two errors, brought to the scale T * N *)
  assert (HM' : 2 * (q * 7036874417766400) * N - T * N <= 2 * (p * T) * N
                <= 2 * (q * 7036874417766400) * N + T * N) by nia.
  assert (HD' : 200 * (H * k) - 7036874417766400 * N
                <= 2 * (q * 7036874417766400) * N
                <= 200 * (H * k) + 7036874417766400 * N) by (unfold H; nia).
  assert (Hsmall : 7036874417766400 * N + T * N < H) by (unfold H; nia).
  assert (Hk200 : 200 * (H * k) = 2 * (H * N) * zx + H * r - H * N) by nia.
  assert (Hlow : 2 * (H * N) * zx <= 2 * (p * T) * N + H * N) by nia.
  assert (Hupp : 2 * (p * T) * N + H * N < 2 * (H * N) * (zx + 1)) by nia.
  assert (HTN : 0 < T * N) by nia.
  assert (Hscale : forall x, x * (T * N) = x * T * N) by (intros; ring).
  symmetry. apply Z.div_unique with (r := 2 * p + G - 2 * G * zx); [|ring].
  left. split.
  - apply Z.le_0_sub. apply (Z.mul_le_mono_pos_r _ _ (T * N) HTN).
    replace (2 * G * zx * (T * N)) with (2 * (G * T * N) * zx) by ring.
    replace ((2 * p + G) * (T * N)) with (2 * (p * T) * N + G * T * N) by ring.
    rewrite HGT. lia.
  - apply Z.lt_sub_lt_add_l. apply (Z.mul_lt_mono_pos_r (T * N) _ _ HTN).
    replace ((2 * p + G) * (T * N)) with (2 * (p * T) * N + G * T * N) by ring.
    replace ((2 * G * zx + 2 * G) * (T * N)) with (2 * (G * T * N) * (zx + 1)) by ring.
    rewrite HGT. lia.
Qed.

(** The product of a quotient with 100, with its error. *)
Lemma mul_hundred_error (q : positive) (E : Z) :
  normal53 q -> 52 <= E <= 200 ->
  exists (p : positive) (t : Z),
    mul (S754_finite false q (- E)) (of_int 100)
    = S754_finite false p (- E - 46 + t) /\
    52 <= t <= 54 /\
    2 * (Zpos q * Zpos hundred_m) - 2 ^ t <= 2 * (Zpos p * 2 ^ t)
    <= 2 * (Zpos q * Zpos hundred_m) + 2 ^ t.
Proof.
  intros Hq HE. rewrite of_int_100.
  rewrite mul_rne by (try assumption; try apply hundred_normal; lia).
  pose proof (normal53_bounds q Hq) as Hb. rewrite pow_prec, pow_prec_1 in Hb.
  set (A := Zpos q * Zpos hundred_m).
  assert (HA : 2 ^ (2 * prec - 1 - 1) <= A / 1 < 2 ^ (2 * prec)).
  { rewrite Z.div_1_r. unfold A, hundred_m.
    change (2 ^ (2 * prec - 1 - 1)) with (4503599627370496 * 4503599627370496).
    change (2 ^ (2 * prec)) with (9007199254740992 * 9007199254740992). nia. }
  assert (HA' : 2 ^ (prec - 1) <= A / 1).
  { etransitivity; [|exact (proj1 HA)]. apply Z.pow_le_mono_r; unfold prec; lia. }
  pose proof (rne_mantissa A 1 eq_refl HA') as Hf.
  pose proof (excess_bounds A 1 (2 * prec - 1) (2 * prec) eq_refl eq_refl HA) as Hx.
  pose proof (rne_exponent A 1) as Hs.
  destruct (rne_error A 1 eq_refl HA') as [_ Herr].
  rewrite pow_prec, pow_prec_1 in Hf.
  exists (Z.to_pos (fst (rne A 1))), (snd (rne A 1)).
  rewrite Z2Pos.id by lia.
  split; [f_equal; lia|]. split; [unfold prec in *; lia|].
  rewrite !Z.mul_1_l in Herr. exact Herr.
Qed.

(** Unless [100 * (i + 1) / N] lies exactly halfway between two integers,
    the progress computed in binary64 is that value rounded to the nearest
    integer. *)
Lemma progress_after_exact (i N : Z) :
  0 <= i < N -> N <= max_length -> ~ is_tie (i + 1) N ->
  progress_after i N = of_int (exact_percent (i + 1) N).
Proof.
  intros Hi HN Htie.
  assert (HN' : N < 2 ^ prec)
    by (rewrite pow_prec; unfold max_length in HN;
        change (2 ^ 32 - 1) with 4294967295 in HN; lia).
  destruct (div_error (i + 1) N ltac:(lia) HN') as (q & E & Hdiv & Hq & HE & HD).
  destruct (mul_hundred_error q E Hq HE) as (p & t & Hmul & Ht & HM).
  destruct (scaled_normal (i + 1) N ltac:(lia) HN') as (m & e & Hs & _ & He & _).
  unfold scaled in Hs. rewrite Hdiv, Hmul in Hs. injection Hs as Hp Hexp.
  unfold progress_after. rewrite Hdiv, Hmul.
  rewrite Math_round_finite by lia. f_equal.
  unfold nearest_int.
  set (E2 := - (- E - 46 + t)).
  assert (HE2 : 46 <= E2) by (unfold E2; lia).
  replace (2 ^ (E2 + 1)) with (2 * 2 ^ E2)
    by (rewrite Z.pow_add_r by lia; change (2 ^ 1) with 2; lia).
  assert (HW : 4503599627370496 <= 2 ^ E)
    by (change 4503599627370496 with (2 ^ 52); apply Z.pow_le_mono_r; lia).
  assert (HT : 0 < 2 ^ t <= 18014398509481984).
  { split; [apply Z.pow_pos_nonneg; lia|].
    change 18014398509481984 with (2 ^ 54). apply Z.pow_le_mono_r; lia. }
  assert (HG : 0 < 2 ^ E2) by (apply Z.pow_pos_nonneg; lia).
  assert (HGT : 2 ^ E2 * 2 ^ t = 2 ^ E * 70368744177664).
  { change 70368744177664 with (2 ^ 46).
    rewrite <- !Z.pow_add_r by lia. f_equal. unfold E2. lia. }
  assert (HD' : 2 * (2 ^ E * (i + 1)) - N <= 2 * (N * Zpos q)
                <= 2 * (2 ^ E * (i + 1)) + N).
  { replace (2 * (2 ^ E * (i + 1))) with (2 ^ (E + 1) * (i + 1))
      by (rewrite Z.pow_add_r by lia; change (2 ^ 1) with 2; ring).
    exact HD. }
  exact (percent_core (i + 1) N (Zpos q) (Zpos p) (2 ^ E) (2 ^ t) (2 ^ E2)
           ltac:(lia) HN HW HT HG HGT HD' HM Htie).
Qed.

Lemma progress_values_nth (env : Env) (st : AppState) (i : nat) :
  bulkTargets st <> [] -> generatedCommentText st <> [] ->
  (i < List.length (bulkTargets st))%nat ->
  nth_error (progress_values (startBulk env st)) i
  = Some (progress_after (Z.of_nat i) (Z.of_nat (List.length (bulkTargets st)))).
Proof.
  intros Ht Hc Hi. unfold progress_values. rewrite startBulk_run by assumption.
  cbn [emitted]. rewrite events_from_progress.
  rewrite (nth_error_map _ i (seq 0 (List.length (bulkTargets st)))).
  rewrite nth_error_seq.
  replace (i <? List.length (bulkTargets st))%nat with true
    by (symmetry; apply Nat.ltb_lt; lia).
  reflexivity.
Qed.

(** The progress shown after the pass at index [i] is the exact
    percentage [100 * (i + 1) / N] rounded to the nearest integer, unless
    that percentage lies halfway between two integers. *)
Theorem progress_exact_unless_tie (env : Env) (st : AppState) (i : nat) :
  bulkTargets st <> [] -> generatedCommentText st <> [] ->
  let n := List.length (bulkTargets st) in
  Z.of_nat n <= max_length -> (i < n)%nat ->
  ~ is_tie (Z.of_nat i + 1) (Z.of_nat n) ->
  nth_error (progress_values (startBulk env st)) i
  = Some (of_int (exact_percent (Z.of_nat i + 1) (Z.of_nat n))).
Proof.
  intros Ht Hc n HN Hi Htie.
  rewrite progress_values_nth by assumption. f_equal.
  apply progress_after_exact; [lia|assumption|assumption].
Qed.

Lemma progress_exact_unless_tie_witness :
  nth_error (progress_values
               (startBulk sample_env
                  (sample_state [post_a; post_b; post_a] (lit "x") false))) 1
  = Some (of_int (exact_percent 2 3)).
Proof.
  apply (progress_exact_unless_tie sample_env
           (sample_state [post_a; post_b; post_a] (lit "x") false) 1).
  - discriminate.
  - discriminate.
  - vm_compute. discriminate.
  - simpl. lia.
  - vm_compute. discriminate.
Defined.

(** At a percentage halfway between two integers the two may differ: with
    40 targets the pass at index 22 stands at 57.5 and shows 57. *)
Example progress_23_of_40 :
  is_tie 23 40 /\ progress_after 22 40 = of_int 57 /\ exact_percent 23 40 = 58.
Proof. vm_compute. repeat split. Qed.

(** With more than 200 targets the progress is still 0 after the first
    pass and is 100 already after the pass before the last. *)
Theorem progress_over_200_targets (env : Env) (st : AppState) :
  generatedCommentText st <> [] ->
  let n := List.length (bulkTargets st) in
  200 < Z.of_nat n <= max_length ->
  nth_error (progress_values (startBulk env st)) 0 = Some (of_int 0) /\
  nth_error (progress_values (startBulk env st)) (n - 2) = Some (of_int 100).
Proof.
  intros Hc n HN.
  assert (Ht : bulkTargets st <> [])
    by (intros E; unfold n in HN; rewrite E in HN; simpl in HN; lia).
  set (N := Z.of_nat n) in *.
  rewrite !progress_values_nth by (try assumption; fold n; lia).
  fold n. fold N. split; f_equal.
  - rewrite progress_after_exact; try lia.
    + f_equal. unfold exact_percent. apply Z.div_small. lia.
    + unfold is_tie. simpl Z.of_nat.
      rewrite Z.mod_small by lia. lia.
  - replace (Z.of_nat (n - 2)) with (N - 2) by (unfold N; lia).
    rewrite progress_after_exact; try lia.
    + f_equal. unfold exact_percent. symmetry.
      apply (Z.div_unique_pos _ _ 100 (N - 200)); lia.
    + unfold is_tie.
      replace ((200 * (N - 2 + 1)) mod (2 * N)) with (2 * N - 200); [lia|].
      apply (Z.mod_unique_pos _ _ 99); lia.
Qed.

Lemma progress_over_200_targets_witness :
  let st := sample_state (repeat post_a 201) (lit "x") false in
  nth_error (progress_values (startBulk sample_env st)) 0 = Some (of_int 0) /\
  nth_error (progress_values (startBulk sample_env st)) (201 - 2) = Some (of_int 100).
Proof.
  apply (progress_over_200_targets sample_env
           (sample_state (repeat post_a 201) (lit "x") false)).
  - discriminate.
  - vm_compute. split; [reflexivity|discriminate].
Defined.

(** ** The draw, once more *)

(** The draw 0.5 is a success, and its value is above the value of 0.1. *)
Lemma draw_success_value_witness :
  draw_success (S754_finite false 4503599627370496 (-53)) = true
  <-> scaled_value 7205759403792794 (-56) < scaled_value 4503599627370496 (-53).
Proof.
  apply draw_success_value. reflexivity.
Defined.
